(** * code2text: the import bundler, embedded and checked against its specification

    The development follows the two Python modules of the repository:

    - [bundler_logic.py], the embeddable core (project-root detection, import
      resolution, dependency graph, topological sort, bundle writer,
      orchestrator), in module [Core];
    - [code2text.py], the standalone command-line variant, in module [Cli]:
      its analyzer, the resolution of the names it records, the traversal,
      the sort, the writer and [main] from the point where the arguments
      have been read.

    [main_gui.py], the Tk front end of the core, is not embedded.

    Python's [pathlib], the file system, the module finder of the running
    interpreter, [ast.parse] and the iteration order of hashed sets are not
    code of the repository.  Paths are modelled in module [PathLib]; the rest
    is collected in the record [Env], whose fields the functions consult
    exactly where the source calls the interpreter or the operating system.

    Conventions.  A function that may raise returns a [result].  A loop
    whose number of turns is not bounded by the structure of its input
    takes a [fuel] and returns [None] when the fuel runs out; that the fuel
    suffices is proved.  Progress lines are kept for the orchestrator only:
    the diagnostics that the analyzer, the graph builder and the writer
    send to the same callback are left out, but an expression evaluated to
    build such a line is kept where it may raise; what the command-line
    variant prints is left out.  The depth limit the interpreter puts on
    recursion is not modelled. *)

From Stdlib Require Import List String Ascii Bool Arith Lia Permutation.
Import ListNotations.

(** ** Exceptions and fallible computations *)

(** The exception classes the two modules can meet; all of them derive from
    Python's [Exception]. *)
Inductive ExnClass : Type :=
  | ValueError | IndexError | UnboundLocalError
  | OSError | FileNotFoundError | PermissionError
  | SyntaxError | UnicodeDecodeError | ModuleNotFoundError.

Record exn : Type := mkExn { exn_class : ExnClass; exn_str : string }.

(** [except FileNotFoundError] *)
Definition is_FileNotFoundError (e : exn) : bool :=
  match exn_class e with FileNotFoundError => true | _ => false end.

Inductive result (A : Type) : Type :=
  | Ok (a : A)
  | Raise (e : exn).
Arguments Ok {A} a.
Arguments Raise {A} e.

Definition bind {A B : Type} (c : result A) (k : A -> result B) : result B :=
  match c with
  | Ok a => k a
  | Raise e => Raise e
  end.

Declare Scope result_scope.
Delimit Scope result_scope with result.
Notation "x <- c ;; k" := (bind c (fun x => k))
  (at level 61, c at next level, right associativity) : result_scope.
Notation "' pat <- c ;; k" := (bind c (fun x => match x with pat => k end))
  (at level 61, pat pattern, c at next level, right associativity) : result_scope.
Open Scope result_scope.

(** A [for] loop whose body may raise: the first exception leaves the loop. *)
Fixpoint for_each {A S : Type} (body : S -> A -> result S) (xs : list A) (s : S)
  : result S :=
  match xs with
  | [] => Ok s
  | x :: xs' => s' <- body s x ;; for_each body xs' s'
  end.

(** ** Strings *)

Module Str.

Definition eqb_ascii (a b : ascii) : bool := Ascii.eqb a b.

Definition dot : ascii := "."%char.
Definition slash : ascii := "/"%char.
Definition backslash : ascii := "\"%char.
Definition newline : ascii := ascii_of_nat 10.
Definition nl : string := String newline EmptyString.

Definition is_empty (s : string) : bool :=
  match s with EmptyString => true | _ => false end.

(** [s.split(sep)] for a one-character separator. *)
Fixpoint split (sep : ascii) (s : string) : list string :=
  match s with
  | EmptyString => [EmptyString]
  | String c r =>
      if eqb_ascii c sep then EmptyString :: split sep r
      else match split sep r with
           | [] => [String c EmptyString]
           | w :: ws => String c w :: ws
           end
  end.

(** [s.replace(a, b)] for one-character arguments. *)
Fixpoint replace (a b : ascii) (s : string) : string :=
  match s with
  | EmptyString => EmptyString
  | String c r => String (if eqb_ascii c a then b else c) (replace a b r)
  end.

(** [s.endswith(c)] for a one-character argument. *)
Fixpoint endswith (c : ascii) (s : string) : bool :=
  match s with
  | EmptyString => false
  | String d EmptyString => eqb_ascii d c
  | String _ r => endswith c r
  end.

(** [s.startswith(p)] *)
Definition startswith (p s : string) : bool := String.prefix p s.

(** [s.rfind('.')], [None] standing for -1. *)
Fixpoint rfind (c : ascii) (s : string) : option nat :=
  match s with
  | EmptyString => None
  | String d r =>
      match rfind c r with
      | Some i => Some (S i)
      | None => if eqb_ascii d c then Some 0 else None
      end
  end.

(** The number of leading occurrences of [c]: the counting loop of
    [resolve_module_path]. *)
Fixpoint count_leading (c : ascii) (s : string) : nat :=
  match s with
  | String d r => if eqb_ascii d c then S (count_leading c r) else 0
  | EmptyString => 0
  end.

(** [s[n:]] *)
Fixpoint drop (n : nat) (s : string) : string :=
  match n, s with
  | 0, _ => s
  | S n', String _ r => drop n' r
  | S _, EmptyString => EmptyString
  end.

(** [c * n] *)
Fixpoint repeat (c : ascii) (n : nat) : string :=
  match n with
  | 0 => EmptyString
  | S n' => String c (repeat c n')
  end.

Definition mem (s : string) (l : list string) : bool :=
  existsb (String.eqb s) l.

Fixpoint contains (c : ascii) (s : string) : bool :=
  match s with
  | EmptyString => false
  | String d r => eqb_ascii d c || contains c r
  end.

End Str.

Infix "+s+" := String.append (at level 60, right associativity).

(** ** Paths *)

(** [pathlib.PurePosixPath] restricted to absolute paths: a path is the list
    of its components below the root directory, and [[]] is ["/"] itself. *)
Module PathLib.

Definition Path : Type := list string.

Definition path_eq_dec : forall p q : Path, {p = q} + {p <> q} :=
  list_eq_dec string_dec.

Definition path_eqb (p q : Path) : bool :=
  if path_eq_dec p q then true else false.

(** [p in s] for a list or a set of paths *)
Definition mem (p : Path) (s : list Path) : bool :=
  if in_dec path_eq_dec p s then true else false.

(** [p.parent]; the parent of the root is the root. *)
Definition parent (p : Path) : Path := removelast p.

(** [p.name], empty for the root. *)
Definition name (p : Path) : string := last p EmptyString.

(** [Path( *parts )] for relative segments: empty segments and ["."]
    vanish. *)
Definition segments (parts : list string) : list string :=
  filter (fun s => negb (Str.is_empty s) && negb (String.eqb s ".")) parts.

(** [p / Path( *parts )] *)
Definition joinpath (p : Path) (parts : list string) : Path :=
  p ++ segments parts.

(** [p / "a/b/c"]: the operand is split at the separators first. *)
Definition joinstr (p : Path) (s : string) : Path :=
  joinpath p (Str.split Str.slash s).

(** [PurePath.suffix] on a file name: from the last dot, unless that dot
    opens or closes the name. *)
Definition suffix (nm : string) : string :=
  match Str.rfind Str.dot nm with
  | Some i =>
      if (0 <? i) && (i <? String.length nm - 1)
      then Str.drop i nm else EmptyString
  | None => EmptyString
  end.

(** [p.with_suffix(suf)]: raises [ValueError] on a path with an empty name,
    which is the root. *)
Definition with_suffix (p : Path) (suf : string) : result Path :=
  let nm := name p in
  if Str.is_empty nm then Raise (mkExn ValueError "PosixPath('/') has an empty name")
  else
    let old := suffix nm in
    let stem := String.substring 0 (String.length nm - String.length old) nm in
    Ok (removelast p ++ [stem +s+ suf]).

(** [p.is_relative_to(root)]: a comparison of components, no file-system
    access. *)
Fixpoint is_relative_to (p root : Path) : bool :=
  match root, p with
  | [], _ => true
  | r :: root', c :: p' => String.eqb c r && is_relative_to p' root'
  | _ :: _, [] => false
  end.

(** [p.relative_to(root)]: the components below [root], [ValueError] when
    [p] is not below it. *)
Definition relative_to (p root : Path) : result (list string) :=
  if is_relative_to p root then Ok (skipn (List.length root) p)
  else Raise (mkExn ValueError "path is not in the subpath of the root").

Fixpoint join_components (cs : list string) : string :=
  match cs with
  | [] => EmptyString
  | [c] => c
  | c :: cs' => c +s+ "/" +s+ join_components cs'
  end.

(** [str] of a relative path; the empty one prints as a dot. *)
Definition str_rel (cs : list string) : string :=
  match cs with
  | [] => "."
  | _ => join_components cs
  end.

(** [str] of an absolute path. *)
Definition str (p : Path) : string := "/" +s+ join_components p.

(** [len(p.parts)] of an absolute path: the anchor counts as a part. *)
Definition parts_len (p : Path) : nat := S (List.length p).

(** [p.parents[i]]: [IndexError] past the root. *)
Definition parents_nth (p : Path) (i : nat) : result Path :=
  if i <? List.length p then Ok (Nat.iter (S i) parent p)
  else Raise (mkExn IndexError "index out of range").

End PathLib.
Export PathLib.

(** ** The environment of a run *)

(** One import statement of a syntax tree: [import a, b.c] or
    [from ..pkg import x] ([node.module] is [None] for [from . import x]). *)
Inductive ImportStmt : Type :=
  | Import (names : list string)
  | ImportFrom (module : option string) (level : nat).

(** What [importlib.util.find_spec(name)] can answer. *)
Inductive SpecResult : Type :=
  | SpecNone                      (* [None], or a spec without origin *)
  | SpecBuiltin                   (* origin ['built-in'] *)
  | SpecFrozen                    (* origin ['frozen'] *)
  | SpecFile (origin : Path)      (* origin is a file *)
  | SpecNotFound                  (* raises [ModuleNotFoundError] *)
  | SpecError (e : exn).          (* raises anything else *)

Record Env : Type := mkEnv {
  (** [Path.is_file], [Path.exists], [Path.is_dir]: they answer [False] on
      the ordinary failures of [stat] and let the others through. *)
  is_file : Path -> result bool;
  path_exists : Path -> result bool;
  is_dir : Path -> result bool;
  (** [Path.resolve]: the canonical path, symbolic links followed. *)
  resolve : Path -> Path;
  (** [open(p, 'r', encoding='utf-8')] followed by [read()]. *)
  read_text : Path -> result string;
  (** [ast.parse] followed by the visitor's walk: the import statements of
      a source text in the order [NodeVisitor] meets them. *)
  ast_imports : string -> result (list ImportStmt);
  find_spec : string -> SpecResult;
  (** [sys.builtin_module_names] *)
  builtin_module_names : list string;
  (** The order in which a [set] of paths, given by its elements in
      insertion order, is iterated: a matter of hash values. *)
  set_iter : list Path -> list Path;
  (** [output_path.parent.mkdir(parents=True, exist_ok=True)] *)
  mkdir_parents : Path -> result unit;
  (** [open(output_path, 'w', encoding='utf-8')] *)
  open_write : Path -> result unit;
  (** [traceback.format_exc()] inside a handler of the given exception. *)
  format_exc : exn -> string
}.

(** [s.add(p)] and [s.remove(p)] on a set kept in insertion order. *)
Definition set_add (p : Path) (s : list Path) : list Path :=
  if mem p s then s else s ++ [p].

Definition set_remove (p : Path) (s : list Path) : list Path :=
  remove path_eq_dec p s.

(** * The embeddable core: bundler_logic.py *)

Module Core.

Section WithEnv.

Variable env : Env.

(** *** Project-root detection *)

Definition markers : list string :=
  [".git"; "pyproject.toml"; "setup.py"; "requirements.txt"; ".project_root"]%string.

(** The [for marker in markers] loop: [true] at the first marker that
    exists under [current_dir]. *)
Fixpoint has_marker (current_dir : Path) (ms : list string) : result bool :=
  match ms with
  | [] => Ok false
  | marker :: ms' =>
      found <- path_exists env (joinpath current_dir [marker]) ;;
      if found then Ok true else has_marker current_dir ms'
  end.

(** The [while True] loop. [up] holds the components of [current_dir],
    innermost first, so that [current_dir.parent == current_dir] is the
    case of the empty list and [current_dir.parent] is its tail. *)
Fixpoint climb (start_path : Path) (up : list string) : result (option Path) :=
  found <- has_marker (rev up) markers ;;
  if found then Ok (Some (rev up))
  else
    match up with
    | [] =>
        f <- is_file env start_path ;;
        if f then Ok (Some (parent start_path)) else Ok (Some start_path)
    | _ :: up' => climb start_path up'
    end.

Definition find_project_root (start_path : Path) : result (option Path) :=
  let current_dir := resolve env start_path in
  f <- is_file env current_dir ;;
  let current_dir := if f then parent current_dir else current_dir in
  climb start_path (rev current_dir).

(** *** Import analysis *)

Section Analyzer.

Variable file_path : Path.
Variable project_root : Path.

(** Step 1 of [_resolve_module]: whether the interpreter's own search
    places the module outside the project. The whole step sits in a
    [try] that swallows every exception. *)
Definition is_external (module_name : string) : bool :=
  match find_spec env module_name with
  | SpecBuiltin | SpecFrozen => true
  | SpecFile origin =>
      negb (is_relative_to (resolve env origin) project_root)
  | SpecNone | SpecNotFound | SpecError _ => false
  end.

(** [c.is_file() and c.is_relative_to(self.project_root)] *)
Definition is_local_file (c : Path) : result bool :=
  f <- is_file env c ;;
  Ok (f && is_relative_to c project_root).

(** The assignment [final_path = c.resolve()] and the log line that
    follows it, whose text needs
    [final_path.relative_to(self.project_root)]. *)
Definition accept (c : Path) : result (option Path) :=
  let final_path := resolve env c in
  _ <- relative_to final_path project_root ;;
  Ok (Some final_path).

Definition _resolve_module (module_name : string) (level : nat)
  : result (option Path) :=
  if is_external module_name then Ok None
  else
    let base_dir :=
      if 0 <? level then Nat.iter (level - 1) parent (parent file_path)
      else parent file_path in
    let parts := Str.split Str.dot module_name in
    let current_path := if 0 <? level then base_dir else project_root in
    let path_to_try :=
      if (level =? 0) && negb (Str.is_empty module_name)
      then joinpath project_root parts
      else if (0 <? level) && negb (Str.is_empty module_name)
      then joinpath base_dir parts
      else if (0 <? level) && Str.is_empty module_name
      then current_path
      else joinpath project_root parts in
    possible_module_path <- with_suffix path_to_try ".py" ;;
    let possible_package_path := joinpath path_to_try ["__init__.py"%string] in
    m <- is_local_file possible_module_path ;;
    if m then accept possible_module_path
    else
      p <- is_local_file possible_package_path ;;
      if p then accept possible_package_path
      else
        let abs_path_try := joinpath project_root parts in
        possible_module_path <- with_suffix abs_path_try ".py" ;;
        let possible_package_path := joinpath abs_path_try ["__init__.py"%string] in
        m <- is_local_file possible_module_path ;;
        if m then accept possible_module_path
        else
          p <- is_local_file possible_package_path ;;
          if p then accept possible_package_path
          else Ok None.

(** [if resolved_path: self.local_dependencies.add(resolved_path)] *)
Definition record (deps : list Path) (resolved_path : option Path) : list Path :=
  match resolved_path with
  | Some p => set_add p deps
  | None => deps
  end.

Definition visit_Import (deps : list Path) (names : list string)
  : result (list Path) :=
  for_each (fun deps alias =>
              r <- _resolve_module alias 0 ;; Ok (record deps r))
           names deps.

Definition visit_ImportFrom (deps : list Path) (module : option string)
  (level : nat) : result (list Path) :=
  r <- _resolve_module (match module with Some m => m | None => EmptyString end)
                       level ;;
  Ok (record deps r).

Definition visit_stmt (deps : list Path) (stmt : ImportStmt)
  : result (list Path) :=
  match stmt with
  | Import names => visit_Import deps names
  | ImportFrom module level => visit_ImportFrom deps module level
  end.

(** The body of the [try] in [find_imports]. The constructor of the
    analyzer logs the path of the file relative to the root. *)
Definition analyze : result (list Path) :=
  content <- read_text env file_path ;;
  tree <- ast_imports env content ;;
  _ <- relative_to file_path project_root ;;
  for_each visit_stmt tree [].

(** [ImportAnalyzer.find_imports]: every exception ends in [set()]. *)
Definition find_imports : list Path :=
  match analyze with
  | Ok local_dependencies => local_dependencies
  | Raise _ => []
  end.

End Analyzer.

(** *** Dependency graph *)

(** [Dict[Path, Set[Path]]]: keys in insertion order, each with its set
    of dependencies. *)
Definition Graph : Type := list (Path * list Path).

Definition keys (graph : Graph) : list Path := map fst graph.

(** [graph.get(node, set())] *)
Fixpoint dict_get (graph : Graph) (node : Path) : list Path :=
  match graph with
  | [] => []
  | (k, v) :: graph' => if path_eqb k node then v else dict_get graph' node
  end.

(** [graph[k] = v]: an existing key keeps its place, a new one goes
    last. *)
Fixpoint dict_set (graph : Graph) (k : Path) (v : list Path) : Graph :=
  match graph with
  | [] => [(k, v)]
  | (k', v') :: graph' =>
      if path_eqb k' k then (k', v) :: graph'
      else (k', v') :: dict_set graph' k v
  end.

Record BuildState : Type := mkBuild {
  b_graph : Graph;
  b_all_files : list Path;
  b_queue : list Path;
  b_visited : list Path
}.

(** The [while queue] loop of [build_dependency_graph]; [fuel] bounds the
    number of iterations. *)
Fixpoint build_loop (project_root : Path) (fuel : nat) (st : BuildState)
  : option BuildState :=
  match fuel with
  | 0 => None
  | S fuel' =>
      match b_queue st with
      | [] => Some st
      | current_file :: queue =>
          if mem current_file (b_visited st) then
            build_loop project_root fuel'
              (mkBuild (b_graph st) (b_all_files st) queue (b_visited st))
          else if negb (is_relative_to current_file project_root) then
            build_loop project_root fuel'
              (mkBuild (b_graph st) (b_all_files st) queue (b_visited st))
          else
            let visited := set_add current_file (b_visited st) in
            let all_files := set_add current_file (b_all_files st) in
            let dependencies := find_imports current_file project_root in
            let graph := dict_set (b_graph st) current_file dependencies in
            let queue :=
              queue ++ filter (fun dep => negb (mem dep visited))
                              (set_iter env dependencies) in
            build_loop project_root fuel' (mkBuild graph all_files queue visited)
      end
  end.

Definition build_dependency_graph (fuel : nat) (main_file_path project_root : Path)
  : option (Graph * list Path) :=
  match build_loop project_root fuel
          (mkBuild [] [] [resolve env main_file_path] []) with
  | Some st => Some (b_graph st, set_iter env (b_all_files st))
  | None => None
  end.

(** *** Topological sort *)

Record SortState : Type := mkSort {
  s_result : list Path;
  s_visited : list Path;
  s_temp_visited : list Path;
  s_edges_in_cycles : list (Path * Path)
}.

(** A [for] loop over calls that may run out of fuel. *)
Fixpoint visit_each (f : Path -> SortState -> option SortState)
  (nodes : list Path) (st : SortState) : option SortState :=
  match nodes with
  | [] => Some st
  | n :: nodes' =>
      match f n st with
      | Some st' => visit_each f nodes' st'
      | None => None
      end
  end.

(** The edges recorded when [node] is met again while in progress: one
    from every in-progress node that declares [node] a dependency. *)
Definition cycle_edges (graph : Graph) (temp_visited : list Path) (node : Path)
  : list (Path * Path) :=
  map (fun temp_node => (temp_node, node))
      (filter (fun temp_node => mem node (dict_get graph temp_node))
              (set_iter env temp_visited)).

(** The nested function [visit]; [fuel] bounds the depth of the
    recursion. *)
Fixpoint visit (graph : Graph) (fuel : nat) (node : Path) (st : SortState)
  : option SortState :=
  match fuel with
  | 0 => None
  | S fuel' =>
      if mem node (s_temp_visited st) then
        Some (mkSort (s_result st) (s_visited st) (s_temp_visited st)
                (s_edges_in_cycles st ++ cycle_edges graph (s_temp_visited st) node))
      else if mem node (s_visited st) then Some st
      else
        match visit_each (visit graph fuel')
                (set_iter env (dict_get graph node))
                (mkSort (s_result st) (s_visited st)
                   (set_add node (s_temp_visited st)) (s_edges_in_cycles st)) with
        | Some st' =>
            Some (mkSort (s_result st' ++ [node])
                    (set_add node (s_visited st'))
                    (set_remove node (s_temp_visited st'))
                    (s_edges_in_cycles st'))
        | None => None
        end
  end.

(** Every path of the graph: the keys and the members of the dependency
    sets. *)
Definition nodes_of (graph : Graph) : list Path :=
  keys graph ++ flat_map snd graph.

(** [for node in graph: if node not in visited: visit(node)] *)
Definition visit_unvisited (graph : Graph) (fuel : nat) (node : Path)
  (st : SortState) : option SortState :=
  if mem node (s_visited st) then Some st else visit graph fuel node st.

(** The recursion is never deeper than the number of paths in the graph,
    which is the fuel handed to [visit]. *)
Definition topological_sort (graph : Graph)
  : option (list Path * list (Path * Path)) :=
  match visit_each (visit_unvisited graph (S (List.length (nodes_of graph))))
          (keys graph) (mkSort [] [] [] []) with
  | Some st => Some (s_result st, s_edges_in_cycles st)
  | None => None
  end.

(** [sorted_files.remove(main_path)]: the first occurrence goes. *)
Fixpoint remove_first (p : Path) (l : list Path) : list Path :=
  match l with
  | [] => []
  | q :: l' => if path_eqb q p then l' else q :: remove_first p l'
  end.

(** Lines 341 to 343 of [run_bundling_process]: the main file is moved to
    the end. *)
Definition main_last (main_path : Path) (sorted_files : list Path) : list Path :=
  (if mem main_path sorted_files then remove_first main_path sorted_files
   else sorted_files) ++ [main_path].

(** *** File combination *)

Definition fence : string := "```".

Definition start_of (relative_path_str : string) : string :=
  fence +s+ Str.nl +s+ "# Start of " +s+ relative_path_str +s+ Str.nl.

Definition end_of (relative_path_str : string) : string :=
  "# End of " +s+ relative_path_str +s+ Str.nl +s+ fence +s+ Str.nl +s+ Str.nl.

Definition not_found_block (relative_path_str : string) : string :=
  fence +s+ Str.nl +s+ "# Error: File not found: " +s+ relative_path_str
    +s+ Str.nl +s+ fence +s+ Str.nl +s+ Str.nl.

Definition read_error_block (relative_path_str : string) (e : exn) : string :=
  fence +s+ Str.nl +s+ "# Error reading file: " +s+ relative_path_str
    +s+ " (" +s+ exn_str e +s+ ")" +s+ Str.nl +s+ fence +s+ Str.nl +s+ Str.nl.

(** The two handlers of the inner [try]. Both print [relative_path_str],
    which is unbound when the very first assignment of the loop raised. *)
Definition handle_read_error (e : exn) (written : string)
  (relative_path_str : option string) : result string :=
  match relative_path_str with
  | None =>
      Raise (mkExn UnboundLocalError
               "cannot access local variable 'relative_path_str'")
  | Some rel =>
      if is_FileNotFoundError e then Ok (written +s+ not_found_block rel)
      else Ok (written +s+ read_error_block rel e)
  end.

(** One turn of [for file_path in sorted_files]: what the output holds
    afterwards and the value of [relative_path_str]. *)
Definition write_file (project_root file_path : Path) (written : string)
  (relative_path_str : option string) : result (string * option string) :=
  match relative_to file_path project_root with
  | Raise e =>
      w <- handle_read_error e written relative_path_str ;;
      Ok (w, relative_path_str)
  | Ok cs =>
      let rel := Str.replace Str.backslash Str.slash (str_rel cs) in
      let written := written +s+ start_of rel in
      match read_text env file_path with
      | Ok content =>
          let written := written +s+ content in
          let written :=
            if Str.endswith Str.newline content then written
            else written +s+ Str.nl in
          Ok (written +s+ end_of rel, Some rel)
      | Raise e =>
          w <- handle_read_error e written (Some rel) ;;
          Ok (w, Some rel)
      end
  end.

(** The whole loop. An exception that leaves it closes the output with
    what was written so far. *)
Fixpoint write_files (project_root : Path) (sorted_files : list Path)
  (written : string) (relative_path_str : option string)
  : string * result unit :=
  match sorted_files with
  | [] => (written, Ok tt)
  | file_path :: rest =>
      match write_file project_root file_path written relative_path_str with
      | Ok (written', rel') => write_files project_root rest written' rel'
      | Raise e => (written, Raise e)
      end
  end.

(** [create_combined_file]: the content of the output file, if it was
    opened, and how the call ended. Both outer handlers re-raise. *)
Definition create_combined_file (sorted_files : list Path)
  (output_path project_root : Path) : option string * result unit :=
  match mkdir_parents env (parent output_path) with
  | Raise e => (None, Raise e)
  | Ok _ =>
      match open_write env output_path with
      | Raise e => (None, Raise e)
      | Ok _ =>
          let (written, r) := write_files project_root sorted_files EmptyString None in
          (Some written, r)
      end
  end.

(** *** Orchestration *)

(** What a call of [run_bundling_process] leaves behind: the value it
    returns or the exception it lets through, the content of the output
    file if one was created, and the lines it handed to
    [progress_callback] itself. *)
Record Outcome : Type := mkOutcome {
  returned : result bool;
  output_file : option string;
  progress : list string
}.

(** [for f in files: progress_callback(f"- {f.relative_to(project_root)}")]:
    the lines delivered, and the exception that stopped the loop if any. *)
Fixpoint log_relative (project_root : Path) (files : list Path)
  : list string * result unit :=
  match files with
  | [] => ([], Ok tt)
  | f :: files' =>
      match relative_to f project_root with
      | Raise e => ([], Raise e)
      | Ok cs =>
          let (lines, r) := log_relative project_root files' in
          (("- " +s+ str_rel cs) :: lines, r)
      end
  end.

(** [set(p for edge in cycles for p in edge)] *)
Definition unique_cycle_nodes (cycles : list (Path * Path)) : list Path :=
  fold_left (fun s edge => set_add (snd edge) (set_add (fst edge) s)) cycles [].

(** The two lines every handler of the orchestrator emits before it
    returns [False]. *)
Definition failure (written : option string) (lines : list string)
  (what : string) (e : exn) : Outcome :=
  mkOutcome (Ok false) written
    (lines ++ [what +s+ exn_str e; format_exc env e]).

(** Step 3 up to the move of the main file: the order, the lines
    delivered and the exception that interrupted them, if any. *)
Definition sort_phase (graph : Graph) (main_path project_root : Path)
  : option (list Path * list string * result unit) :=
  match topological_sort graph with
  | None => None
  | Some (sorted_files, cycles) =>
      let lines := ["Topological sort complete."%string] in
      let (lines, r) :=
        match cycles with
        | [] => (lines ++ ["No circular dependencies detected." +s+ Str.nl], Ok tt)
        | _ :: _ =>
            let (ls, r) :=
              log_relative project_root (set_iter env (unique_cycle_nodes cycles)) in
            let lines :=
              lines ++ [Str.nl +s+ "Warning: Circular dependencies detected involving:"]
                    ++ ls in
            match r with
            | Ok _ =>
                (lines ++ ["(Bundling will proceed with a best-effort order)" +s+ Str.nl],
                 Ok tt)
            | Raise e => (lines, Raise e)
            end
        end in
      match r with
      | Raise e => Some (sorted_files, lines, Raise e)
      | Ok _ =>
          let sorted_files := main_last main_path sorted_files in
          let (ls, r) := log_relative project_root sorted_files in
          let lines := lines ++ ["File order for bundling:"%string] ++ ls in
          match r with
          | Ok _ => Some (sorted_files, lines ++ [EmptyString], Ok tt)
          | Raise e => Some (sorted_files, lines, Raise e)
          end
      end
  end.

(** [run_bundling_process]; [None] only when [fuel] is too small for the
    loop of [build_dependency_graph]. *)
Definition run_bundling_process (fuel : nat) (main_py_file output_txt_file : Path)
  : option Outcome :=
  let lines := ["Starting bundling process..."%string] in
  let main_path := resolve env main_py_file in
  let output_path := resolve env output_txt_file in
  match is_file env main_path with
  | Raise e => Some (mkOutcome (Raise e) None lines)
  | Ok false =>
      Some (mkOutcome (Ok false) None
              (lines ++ ["Error: Main Python file not found: " +s+ str main_py_file]))
  | Ok true =>
      (* 1. Find Project Root *)
      match find_project_root main_path with
      | Raise e => Some (mkOutcome (Raise e) None lines)
      | Ok found =>
          let (project_root, lines) :=
            match found with
            | None =>
                (parent main_path,
                 lines ++ ["Error: Could not determine project root."%string;
                           "Warning: Defaulting project root to: "
                             +s+ str (parent main_path)])
            | Some root => (root, lines ++ ["Detected project root: " +s+ str root])
            end in
          (* 2. Build Dependency Graph *)
          match build_dependency_graph fuel main_path project_root with
          | None => None
          | Some (graph, all_files) =>
              let (ls, r) := log_relative project_root all_files in
              let lines := lines ++ [Str.nl +s+ "Identified Project Files:"] ++ ls in
              match r with
              | Raise e => Some (failure None lines "Error building dependency graph: " e)
              | Ok _ =>
                  let lines := lines ++ [EmptyString] in
                  (* 3. Topological Sort *)
                  match sort_phase graph main_path project_root with
                  | None => None
                  | Some (sorted_files, ls, r) =>
                      let lines := lines ++ ls in
                      match r with
                      | Raise e =>
                          Some (failure None lines "Error during topological sort: " e)
                      | Ok _ =>
                          (* 4. Create Combined File *)
                          match create_combined_file sorted_files output_path project_root with
                          | (written, Raise e) =>
                              Some (failure written lines "Error creating combined file: " e)
                          | (written, Ok _) =>
                              Some (mkOutcome (Ok true) written
                                      (lines ++ [Str.nl +s+ "Bundling process finished. Output: "
                                                   +s+ str output_path]))
                          end
                      end
                  end
              end
          end
      end
  end.

End WithEnv.

End Core.

(** * The standalone variant: code2text.py *)

Module Cli.

Section WithEnv.

Variable env : Env.

(** [_is_stdlib_module]: the first dotted segment is looked up among the
    names of the modules compiled into the interpreter. *)
Definition _is_stdlib_module (module_name : string) : bool :=
  Str.mem (hd EmptyString (Str.split Str.dot module_name))
          (builtin_module_names env).

(** [visit_Import]: the names the statement adds to [self.imports]. *)
Definition visit_Import (names : list string) : list string :=
  filter (fun module_name => negb (_is_stdlib_module module_name)) names.

(** [visit_ImportFrom] of an analyzer created for [file_path]: the names
    added to [self.imports]; [parents[...]] raises past the root. *)
Definition visit_ImportFrom (file_path : Path) (module : option string)
  (level : nat) : result (list string) :=
  let base_path := parent file_path in
  match module with
  | None => Ok []
  | Some m =>
      if 0 <? level then
        if parts_len base_path <? level then Ok []
        else
          _ <- (if 1 <? level then parents_nth base_path (level - 1)
                else Ok base_path) ;;
          if negb (Str.is_empty m)
          then Ok ["." +s+ Str.repeat Str.dot (level - 1) +s+ m]
          else Ok []
      else
        if negb (_is_stdlib_module m) then Ok [m] else Ok []
  end.

Definition recorded (file_path : Path) (stmt : ImportStmt) : result (list string) :=
  match stmt with
  | Import names => Ok (visit_Import names)
  | ImportFrom module level => visit_ImportFrom file_path module level
  end.

(** [resolve_module_path] *)
Definition resolve_module_path (module_name : string)
  (current_file_path project_root : Path) : result Path :=
  if Str.startswith "." module_name then
    let level := Str.count_leading Str.dot module_name in
    let module_name := Str.drop level module_name in
    let parent_dir := Nat.iter (level - 1) parent (parent current_file_path) in
    if negb (Str.is_empty module_name)
    then Ok (joinstr parent_dir (Str.replace Str.dot Str.slash module_name +s+ ".py"))
    else Ok (joinstr parent_dir "__init__.py")
  else
    let module_path :=
      joinstr project_root (Str.replace Str.dot Str.slash module_name +s+ ".py") in
    let package_path :=
      joinstr project_root (Str.replace Str.dot Str.slash module_name) in
    d <- is_dir env package_path ;;
    if d then
      e <- path_exists env (joinstr package_path "__init__.py") ;;
      if e then Ok (joinstr package_path "__init__.py") else Ok module_path
    else Ok module_path.

(** The body of the loop of [analyze_imports] for one recorded name: the
    path appended to [import_paths], if any. An exception only prints a
    warning. *)
Definition import_path (file_path project_root : Path) (module_name : string)
  : option Path :=
  match
    (module_path <- resolve_module_path module_name file_path project_root ;;
     e <- path_exists env module_path ;;
     Ok (if e && Str.startswith (str project_root) (str module_path)
         then Some module_path else None))
  with
  | Ok r => r
  | Raise _ => None
  end.

(** The project files one import statement of [file_path] contributes to
    the list [analyze_imports] returns. *)
Definition import_paths (file_path project_root : Path) (stmt : ImportStmt)
  : result (list Path) :=
  names <- recorded file_path stmt ;;
  Ok (flat_map (fun module_name =>
                  match import_path file_path project_root module_name with
                  | Some p => [p]
                  | None => []
                  end) names).

End WithEnv.

(** *** Sorting and writing

    The command-line variant handles paths as strings; they are the text of
    normalized absolute paths and are modelled by the paths themselves. Its
    graph is a [defaultdict(list)]: the dependencies of a file form a list,
    iterated in the order of insertion. *)

Record SortState : Type := mkSort {
  s_result : list Path;
  s_visited : list Path;
  s_temp_visited : list Path
}.

Fixpoint visit_each (f : Path -> SortState -> option SortState)
  (nodes : list Path) (st : SortState) : option SortState :=
  match nodes with
  | [] => Some st
  | n :: nodes' =>
      match f n st with
      | Some st' => visit_each f nodes' st'
      | None => None
      end
  end.

(** The nested function [visit]: a path met again while in progress only
    prints a warning. [fuel] bounds the depth of the recursion. *)
Fixpoint visit (graph : Core.Graph) (fuel : nat) (node : Path) (st : SortState)
  : option SortState :=
  match fuel with
  | 0 => None
  | S fuel' =>
      if mem node (s_temp_visited st) then Some st
      else if mem node (s_visited st) then Some st
      else
        match visit_each (visit graph fuel')
                (Core.dict_get graph node)
                (mkSort (s_result st) (s_visited st)
                   (set_add node (s_temp_visited st))) with
        | Some st' =>
            Some (mkSort (s_result st' ++ [node])
                    (set_add node (s_visited st'))
                    (set_remove node (s_temp_visited st')))
        | None => None
        end
  end.

Definition visit_unvisited (graph : Core.Graph) (fuel : nat) (node : Path)
  (st : SortState) : option SortState :=
  if mem node (s_visited st) then Some st else visit graph fuel node st.

Definition topological_sort (graph : Core.Graph) : option (list Path) :=
  match visit_each (visit_unvisited graph (S (List.length (Core.nodes_of graph))))
          (Core.keys graph) (mkSort [] [] []) with
  | Some st => Some (s_result st)
  | None => None
  end.

(** [os.path.relpath(file_path, project_root)] on two normalized absolute
    paths: the common components go, one [".."] stands for each component
    of the root that is left. On such paths it does not raise. *)
Fixpoint relpath_components (file_path project_root : Path) : list string :=
  match project_root, file_path with
  | [], _ => file_path
  | r :: project_root', c :: file_path' =>
      if String.eqb c r then relpath_components file_path' project_root'
      else List.repeat ".."%string (List.length project_root) ++ file_path
  | _ :: _, [] => List.repeat ".."%string (List.length project_root)
  end.

Definition relpath (file_path project_root : Path) : string :=
  str_rel (relpath_components file_path project_root).

Section Writer.

Variable env : Env.

(** What one turn of the loop of [create_combined_file] writes. *)
Definition block (project_root file_path : Path) : string :=
  let rel_path := relpath file_path project_root in
  Core.start_of rel_path +s+
  match read_text env file_path with
  | Ok content =>
      content +s+ (if Str.endswith Str.newline content then EmptyString else Str.nl)
  | Raise e => "# Error reading file: " +s+ exn_str e +s+ Str.nl
  end +s+
  Core.end_of rel_path.

Fixpoint blocks (project_root : Path) (sorted_files : list Path) : string :=
  match sorted_files with
  | [] => EmptyString
  | file_path :: rest => block project_root file_path +s+ blocks project_root rest
  end.

(** [create_combined_file]: the content of the output file, if it was
    opened, and how the call ended. *)
Definition create_combined_file (sorted_files : list Path)
  (output_file project_root : Path) : option string * result unit :=
  match open_write env output_file with
  | Raise e => (None, Raise e)
  | Ok _ => (Some (blocks project_root sorted_files), Ok tt)
  end.

End Writer.

(** *** From one file to the graph of all files *)

(** [except SyntaxError] *)
Definition is_SyntaxError (e : exn) : bool :=
  match exn_class e with SyntaxError => true | _ => false end.

(** [self.imports.add(module_name)] on the set of recorded names. *)
Definition add_name (imports : list string) (module_name : string) : list string :=
  if Str.mem module_name imports then imports else imports ++ [module_name].

(** [graph[file_path].append(imported_file)] on a [defaultdict(list)]: the
    first access creates the entry. *)
Fixpoint dict_append (graph : Core.Graph) (file_path imported_file : Path)
  : Core.Graph :=
  match graph with
  | [] => [(file_path, [imported_file])]
  | (k, l) :: graph' =>
      if path_eqb k file_path then (k, l ++ [imported_file]) :: graph'
      else (k, l) :: dict_append graph' file_path imported_file
  end.

Record BuildState : Type := mkBuild {
  b_graph : Core.Graph;
  b_queue : list Path;
  b_visited : list Path
}.

Section Pipeline.

Variable env : Env.

(** The order in which the set [analyzer.imports] of names is iterated. *)
Variable names_iter : list string -> list string.

(** [analyzer.visit(tree)]: the names recorded for the import statements
    of the file, in the order of their first insertion. *)
Definition visit_tree (file_path : Path) (tree : list ImportStmt)
  : result (list string) :=
  for_each (fun imports stmt =>
              names <- recorded env file_path stmt ;;
              Ok (fold_left add_name names imports))
           tree [].

(** [analyze_imports]: reading the file happens before the [try], whose
    only handler is for [SyntaxError]. *)
Definition analyze_imports (file_path project_root : Path) : result (list Path) :=
  source <- read_text env file_path ;;
  match
    (tree <- ast_imports env source ;;
     imports <- visit_tree file_path tree ;;
     Ok (flat_map (fun module_name =>
                     match import_path env file_path project_root module_name with
                     | Some p => [p]
                     | None => []
                     end) (names_iter imports)))
  with
  | Ok import_paths => Ok import_paths
  | Raise e => if is_SyntaxError e then Ok [] else Raise e
  end.

(** [for imported_file in imports] in [build_dependency_graph]. *)
Definition add_imports (file_path : Path) (visited : list Path)
  (imports : list Path) (graph : Core.Graph) (queue : list Path)
  : Core.Graph * list Path :=
  fold_left (fun gq imported_file =>
               (dict_append (fst gq) file_path imported_file,
                if mem imported_file visited then snd gq
                else snd gq ++ [imported_file]))
            imports (graph, queue).

(** The [while queue] loop; [fuel] bounds the number of iterations. An
    exception of [analyze_imports] leaves the loop and the function. *)
Fixpoint build_loop (project_root : Path) (fuel : nat) (st : BuildState)
  : option (result Core.Graph) :=
  match fuel with
  | 0 => None
  | S fuel' =>
      match b_queue st with
      | [] => Some (Ok (b_graph st))
      | file_path :: queue =>
          if mem file_path (b_visited st) then
            build_loop project_root fuel' (mkBuild (b_graph st) queue (b_visited st))
          else
            let visited := set_add file_path (b_visited st) in
            match analyze_imports file_path project_root with
            | Raise e => Some (Raise e)
            | Ok imports =>
                let gq := add_imports file_path visited imports (b_graph st) queue in
                build_loop project_root fuel' (mkBuild (fst gq) (snd gq) visited)
            end
      end
  end.

Definition build_dependency_graph (fuel : nat) (entry_file project_root : Path)
  : option (result Core.Graph) :=
  build_loop project_root fuel (mkBuild [] [entry_file] []).

(** How a call of [main] ends: [sys.exit(1)], an exception that nothing
    catches, or the end of the function. *)
Inductive Ending : Type :=
  | Exit (code : nat)
  | Uncaught (e : exn)
  | Finished.

(** [main] from the point where the arguments have been read: [input_file]
    is the absolute path of the first argument, [output_file] the second
    argument or its default, [cwd] the working directory, which
    [find_project_root] returns. The result is the way the call ends with
    the content of the output file, if one was opened. [os.path.exists]
    answers [False] where the probe fails. *)
Definition main (fuel : nat) (input_file output_file cwd : Path)
  : option (Ending * option string) :=
  match path_exists env input_file with
  | Ok true =>
      let project_root := cwd in
      match build_dependency_graph fuel input_file project_root with
      | None => None
      | Some (Raise e) => Some (Uncaught e, None)
      | Some (Ok graph) =>
          match topological_sort graph with
          | None => None
          | Some sorted_files =>
              let sorted_files := Core.main_last input_file sorted_files in
              match create_combined_file env sorted_files output_file project_root with
              | (written, Raise e) => Some (Uncaught e, written)
              | (written, Ok _) => Some (Finished, written)
              end
          end
      end
  | _ => Some (Exit 1, None)
  end.

End Pipeline.

End Cli.

Import Core.

(** * The vocabulary of the claims *)

(** The position of the first occurrence of [x], the length of the list when
    there is none. *)
Fixpoint index_of (x : Path) (l : list Path) : nat :=
  match l with
  | [] => 0
  | y :: l' => if path_eqb y x then 0 else S (index_of x l')
  end.

(** [v] precedes [u] in [l]: [u] occurs, and [v] occurs earlier. *)
Definition precedes (v u : Path) (l : list Path) : Prop :=
  In u l /\ index_of v l < index_of u l.

(** The last position of a list holds [x] and no other position does. *)
Definition is_last (x : Path) (l : list Path) : Prop :=
  exists front, l = front ++ [x] /\ ~ In x front.

(** [u] depends on [v]: [v] belongs to the set stored under [u]. *)
Definition edge (graph : Graph) (u v : Path) : Prop := In v (dict_get graph u).

(** [k] can be reached from [m] along dependency edges. *)
Inductive reachable (graph : Graph) (m : Path) : Path -> Prop :=
  | reach_here : reachable graph m m
  | reach_step (u v : Path) :
      reachable graph m u -> edge graph u v -> reachable graph m v.

(** The edges of a cycle given by the list of its paths: from each path to
    the next one, and from the last back to the first. *)
Definition closing_pairs (c : list Path) : list (Path * Path) :=
  match c with
  | [] => []
  | v :: rest => combine (v :: rest) (rest ++ [v])
  end.

(** [c] is a cycle of [graph]: it is not empty and each of its closing pairs
    is a dependency edge. *)
Definition is_cycle (graph : Graph) (c : list Path) : Prop :=
  c <> [] /\ forall u v, In (u, v) (closing_pairs c) -> edge graph u v.

(** Steps 2 and 3 of [run_bundling_process] without their log lines: the
    graph, the final order of the files and the cycle edges. *)
Definition bundle_order (env : Env) (fuel : nat) (main_path project_root : Path)
  : option (Graph * list Path * list (Path * Path)) :=
  match build_dependency_graph env fuel main_path project_root with
  | None => None
  | Some (graph, _) =>
      match topological_sort env graph with
      | None => None
      | Some (sorted_files, cycles) =>
          Some (graph, main_last main_path sorted_files, cycles)
      end
  end.

(** The two candidates of a resolution attempt below [dir]: the module file
    and the package-init file. *)
Definition candidate (dir : Path) (module_name : string) (c : Path) : Prop :=
  with_suffix (joinpath dir (Str.split Str.dot module_name)) ".py" = Ok c \/
  c = joinpath (joinpath dir (Str.split Str.dot module_name)) ["__init__.py"%string].

(** The path printed in the delimiters of a block. *)
Definition relative_name (project_root file_path : Path) : string :=
  Str.replace Str.backslash Str.slash
    (str_rel (skipn (List.length project_root) file_path)).

(** The content of a file with a line break at its end. *)
Definition with_final_newline (content : string) : string :=
  if Str.endswith Str.newline content then content else content +s+ Str.nl.

(** What the specification has the writer emit for one file: the opening
    delimiter, then either the content and the closing delimiter or, for a
    file that cannot be read, an error block. *)
Definition spec_block (env : Env) (project_root file_path : Path) : string :=
  let rel := relative_name project_root file_path in
  match read_text env file_path with
  | Ok content => start_of rel +s+ with_final_newline content +s+ end_of rel
  | Raise e =>
      start_of rel +s+
      (if is_FileNotFoundError e then not_found_block rel else read_error_block rel e)
  end.

(** The blocks one after the other. *)
Fixpoint concat_blocks (blocks : list string) : string :=
  match blocks with
  | [] => EmptyString
  | b :: blocks' => b +s+ concat_blocks blocks'
  end.

(** Whether a variant records a project file for one import statement of
    [file_path]: the core through [visit_Import] and [visit_ImportFrom] of
    its analyzer, the command-line variant through the names its analyzer
    keeps and the loop of [analyze_imports]. *)
Definition core_local (env : Env) (file_path project_root : Path) (stmt : ImportStmt)
  : bool :=
  match Core.visit_stmt env file_path project_root [] stmt with
  | Ok (_ :: _) => true
  | _ => false
  end.

Definition cli_local (env : Env) (file_path project_root : Path) (stmt : ImportStmt)
  : bool :=
  match Cli.import_paths env file_path project_root stmt with
  | Ok (_ :: _) => true
  | _ => false
  end.

(** * Sample projects *)

Module Sample.

(** A source file of a sample project: where it is, its text, and the import
    statements [ast.parse] finds in that text. *)
Record SourceFile : Type := mkSource {
  src_path : Path;
  src_text : string;
  src_imports : list ImportStmt
}.

Definition lookup (files : list SourceFile) (p : Path) : option SourceFile :=
  find (fun f => path_eqb (src_path f) p) files.

Definition link_target (links : list (Path * Path)) (p : Path) : option Path :=
  match find (fun l => path_eqb (fst l) p) links with
  | Some l => Some (snd l)
  | None => None
  end.

(** A directory is a proper ancestor of some file. *)
Definition dir_of (files : list SourceFile) (p : Path) : bool :=
  existsb (fun f => is_relative_to (src_path f) p && negb (path_eqb (src_path f) p)) files.

(** The environment of a run over [files], with symbolic links [links]
    (from a path to the canonical path of its target), no module known to
    the interpreter but [sys], and sets iterated as [iter] says. *)
Definition project (files : list SourceFile) (links : list (Path * Path))
  (iter : list Path -> list Path) : Env :=
  let canon p := match link_target links p with Some t => t | None => p end in
  let file p := match lookup files (canon p) with Some _ => true | None => false end in
  {| is_file := fun p => Ok (file p);
     path_exists := fun p => Ok (file p || dir_of files (canon p));
     is_dir := fun p => Ok (dir_of files (canon p));
     resolve := canon;
     read_text := fun p =>
       match lookup files (canon p) with
       | Some f => Ok (src_text f)
       | None => Raise (mkExn FileNotFoundError "No such file or directory")
       end;
     ast_imports := fun text =>
       match find (fun f => String.eqb (src_text f) text) files with
       | Some f => Ok (src_imports f)
       | None => Ok []
       end;
     find_spec := fun name =>
       if String.eqb name "sys" then SpecBuiltin else SpecNone;
     builtin_module_names := ["sys"%string];
     set_iter := iter;
     mkdir_parents := fun _ => Ok tt;
     open_write := fun _ => Ok tt;
     format_exc := fun e => "Traceback (most recent call last): " +s+ exn_str e |}.

Definition in_order (l : list Path) : list Path := l.

Definition root : Path := ["proj"%string].
Definition marker : SourceFile := mkSource ["proj"; "setup.py"]%string "# setup" [].

(** [a.py] imports [b], and [b.py] imports [a]. *)
Definition a_py : Path := ["proj"; "a.py"]%string.
Definition b_py : Path := ["proj"; "b.py"]%string.
Definition mutual : list SourceFile :=
  [ mkSource a_py "import b" [Import ["b"%string]];
    mkSource b_py "import a" [Import ["a"%string]];
    marker ].

(** [app.py] imports [left] and [right], which both import [base]. *)
Definition app_py : Path := ["proj"; "app.py"]%string.
Definition left_py : Path := ["proj"; "left.py"]%string.
Definition right_py : Path := ["proj"; "right.py"]%string.
Definition base_py : Path := ["proj"; "base.py"]%string.
Definition diamond : list SourceFile :=
  [ mkSource app_py "import left, right" [Import ["left"; "right"]%string];
    mkSource left_py ("import base" +s+ Str.nl) [Import ["base"%string]];
    mkSource right_py ("from base import x" +s+ Str.nl) [ImportFrom (Some "base"%string) 0];
    mkSource base_py "x = 1" [];
    marker ].

Definition out_txt : Path := ["tmp"; "out.txt"]%string.

End Sample.

(** ** Environments that differ from another in one capability *)

Definition with_find_spec (e : Env) (f : string -> SpecResult) : Env :=
  mkEnv (is_file e) (path_exists e) (is_dir e) (resolve e) (read_text e)
    (ast_imports e) f (builtin_module_names e) (set_iter e)
    (mkdir_parents e) (open_write e) (format_exc e).

Definition with_path_exists (e : Env) (f : Path -> result bool) : Env :=
  mkEnv (is_file e) f (is_dir e) (resolve e) (read_text e)
    (ast_imports e) (find_spec e) (builtin_module_names e) (set_iter e)
    (mkdir_parents e) (open_write e) (format_exc e).

Definition with_set_iter (e : Env) (f : list Path -> list Path) : Env :=
  mkEnv (is_file e) (path_exists e) (is_dir e) (resolve e) (read_text e)
    (ast_imports e) (find_spec e) (builtin_module_names e) f
    (mkdir_parents e) (open_write e) (format_exc e).

Definition with_open_write (e : Env) (f : Path -> result unit) : Env :=
  mkEnv (is_file e) (path_exists e) (is_dir e) (resolve e) (read_text e)
    (ast_imports e) (find_spec e) (builtin_module_names e) (set_iter e)
    (mkdir_parents e) f (format_exc e).

(** ** Particular projects *)

(** A project in which [ext.py] is a symbolic link to a file outside the
    root. *)
Definition linked_main : Path := ["proj"; "main.py"]%string.
Definition linked_files : list Sample.SourceFile :=
  [ Sample.mkSource linked_main "import ext, b" [Import ["ext"; "b"]%string];
    Sample.mkSource ["outside"; "ext.py"]%string "y = 2" [];
    Sample.mkSource Sample.b_py "z = 3" [];
    Sample.marker ].
Definition linked : Env :=
  Sample.project linked_files
    [(["proj"; "ext.py"]%string, ["outside"; "ext.py"]%string)] Sample.in_order.

(** A module with three ancestor directories: [/proj/pkg], [/proj] and
    the root of the file system. *)
Definition deep_file : Path := ["proj"; "pkg"; "mod.py"]%string.

(** A package with an init file and a module beside it. *)
Definition pkg_mod : Path := ["proj"; "pkg"; "mod.py"]%string.
Definition package : list Sample.SourceFile :=
  [ Sample.mkSource ["proj"; "pkg"; "__init__.py"]%string "# package" [];
    Sample.mkSource pkg_mod "from . import helpers" [ImportFrom None 1];
    Sample.marker ].

(** A project with a file named like a module of the standard library that
    is not compiled into the interpreter. *)
Definition shadow_main : Path := ["proj"; "main.py"]%string.
Definition shadowing : Env :=
  with_find_spec
    (Sample.project
       [ Sample.mkSource shadow_main "import json" [Import ["json"%string]];
         Sample.mkSource ["proj"; "json.py"]%string "# local" [] ]
       [] Sample.in_order)
    (fun name =>
       if String.eqb name "json"
       then SpecFile ["usr"; "lib"; "python3"; "json"; "__init__.py"]%string
       else SpecNone).

(** The mutual project seen by a process that may not look at what
    [/proj/.git] points to: the probe for that marker raises. *)
Definition permission_denied : exn :=
  mkExn PermissionError "[Errno 13] Permission denied: '/proj/.git'".

Definition locked : Env :=
  with_path_exists (Sample.project Sample.mutual [] Sample.in_order)
    (fun p =>
       if path_eqb p ["proj"; ".git"]%string then Raise permission_denied
       else path_exists (Sample.project Sample.mutual [] Sample.in_order) p).

(** The same project with an output that cannot be opened. *)
Definition read_only : Env :=
  with_open_write (Sample.project Sample.mutual [] Sample.in_order)
    (fun _ => Raise (mkExn PermissionError "[Errno 13] Permission denied: '/tmp/out.txt'")).

(** A project inside a project: the inner directory [/proj/pkg] holds a
    marker of its own. *)
Definition inner_main : Path := ["proj"; "pkg"; "src"; "main.py"]%string.
Definition nested : Env :=
  Sample.project
    [ Sample.mkSource inner_main "import util" [Import ["util"%string]];
      Sample.mkSource ["proj"; "pkg"; "util.py"]%string "# util" [];
      Sample.mkSource ["proj"; "pkg"; "pyproject.toml"]%string "# inner" [];
      Sample.marker ]
    [] Sample.in_order.

(** A lone script: no marker in any directory above it. *)
Definition lone_main : Path := ["home"; "me"; "script.py"]%string.
Definition lone : Env :=
  Sample.project [ Sample.mkSource lone_main "import os" [Import ["os"%string]] ]
    [] Sample.in_order.

(** The directory below which an import is looked for first: the project
    root for an absolute import, the directory of the importing file walked
    up [level - 1] times for a relative one. *)
Definition resolution_base (file_path project_root : Path) (level : nat) : Path :=
  if 0 <? level then Nat.iter (level - 1) parent (parent file_path) else project_root.

(** [k] can be reached from [m] through the imports the analyzer finds. *)
Inductive import_reachable (env : Env) (project_root m : Path) : Path -> Prop :=
  | import_here : import_reachable env project_root m m
  | import_step (u v : Path) :
      import_reachable env project_root m u ->
      In v (find_imports env u project_root) ->
      import_reachable env project_root m v.

(** [n] lies on a cycle: it reaches a path that depends on it. *)
Definition on_cycle (graph : Graph) (n : Path) : Prop :=
  exists w, reachable graph n w /\ edge graph w n.

(** A project whose main file imports [util] first and then [ext], a
    symbolic link that leaves the root. *)
Definition late_link_main : Path := ["proj"; "main.py"]%string.
Definition late_link : Env :=
  Sample.project
    [ Sample.mkSource late_link_main "import util; import ext"
        [Import ["util"%string]; Import ["ext"%string]];
      Sample.mkSource ["proj"; "util.py"]%string "# util" [];
      Sample.mkSource ["outside"; "ext.py"]%string "y = 2" [];
      Sample.marker ]
    [(["proj"; "ext.py"]%string, ["outside"; "ext.py"]%string)] Sample.in_order.

(** A package whose module asks for [helpers] beside it, while
    [helpers.py] only exists at the top of the project. *)
Definition stray_mod : Path := ["proj"; "pkg"; "mod.py"]%string.
Definition stray : Env :=
  Sample.project
    [ Sample.mkSource stray_mod "from .helpers import f" [ImportFrom (Some "helpers"%string) 1];
      Sample.mkSource ["proj"; "helpers.py"]%string "# helpers" [];
      Sample.marker ]
    [] Sample.in_order.

(** The import statements of [tree] name [module_name] at [level]: an
    [import] statement lists it (level 0), or a [from ... import] statement
    has it as its module, the empty name when there is none. *)
Definition imported (tree : list ImportStmt) (module_name : string) (level : nat)
  : Prop :=
  exists stmt, In stmt tree /\
    match stmt with
    | Import names => In module_name names /\ level = 0
    | ImportFrom module l =>
        module_name = match module with Some m => m | None => EmptyString end /\
        level = l
    end.

(** A graph in which [hub.py] and [a.py] depend on [b.py], which lies on a
    cycle with [base.py], while nothing depends on [hub.py]. *)
Definition hub_py : Path := ["proj"; "hub.py"]%string.
Definition tangled : Graph :=
  [(hub_py, [Sample.a_py; Sample.b_py]); (Sample.a_py, [Sample.b_py]);
   (Sample.b_py, [Sample.base_py]); (Sample.base_py, [Sample.b_py])].

(** [v] is among the paths the command-line analysis of [u] returns. *)
Definition cli_edge (env : Env) (names_iter : list string -> list string)
  (project_root u v : Path) : Prop :=
  exists imports,
    Cli.analyze_imports env names_iter u project_root = Ok imports /\ In v imports.

(** [k] can be reached from [entry] through what the command-line analysis
    returns. *)
Inductive cli_reachable (env : Env) (names_iter : list string -> list string)
  (project_root entry : Path) : Path -> Prop :=
  | cli_here : cli_reachable env names_iter project_root entry entry
  | cli_step (u v : Path) :
      cli_reachable env names_iter project_root entry u ->
      cli_edge env names_iter project_root u v ->
      cli_reachable env names_iter project_root entry v.

(** The path itself and the directories above it. *)
Definition prefixes (p : Path) : list Path :=
  map (fun k => firstn k p) (seq 0 (S (List.length p))).

(** A project at [/w/proj] beside a directory [/w/proj2], whose name
    starts with the name of the project; [a.py] reaches into it with a
    relative import of level two. *)
Definition beside_root : Path := ["w"; "proj"]%string.
Definition beside_main : Path := ["w"; "proj"; "a.py"]%string.
Definition beside : Env :=
  Sample.project
    [ Sample.mkSource beside_main "from ..proj2.x import y"
        [ImportFrom (Some "proj2.x"%string) 2];
      Sample.mkSource ["w"; "proj2"; "x.py"]%string "y = 1" [];
      Sample.mkSource ["w"; "proj"; "setup.py"]%string "# setup" [] ]
    [] Sample.in_order.

(** * Facts about sets, dictionaries and positions *)

Lemma mem_true_iff (p : Path) (s : list Path) : mem p s = true <-> In p s.
Proof.
  unfold mem. destruct (in_dec path_eq_dec p s); split; intros; congruence || assumption || reflexivity.
Qed.

Lemma mem_false_iff (p : Path) (s : list Path) : mem p s = false <-> ~ In p s.
Proof.
  unfold mem. destruct (in_dec path_eq_dec p s); split; intros;
    try congruence; try assumption; try contradiction.
Qed.

Lemma path_eqb_true_iff (p q : Path) : path_eqb p q = true <-> p = q.
Proof.
  unfold path_eqb. destruct (path_eq_dec p q); split; congruence.
Qed.

Lemma path_eqb_refl (p : Path) : path_eqb p p = true.
Proof. apply path_eqb_true_iff. reflexivity. Qed.

Lemma path_eqb_neq (p q : Path) : p <> q -> path_eqb p q = false.
Proof.
  intros H. unfold path_eqb. destruct (path_eq_dec p q); congruence.
Qed.

Lemma path_eqb_sym_false (p q : Path) : path_eqb p q = false -> path_eqb q p = false.
Proof.
  unfold path_eqb. destruct (path_eq_dec p q), (path_eq_dec q p); congruence.
Qed.

Lemma set_add_fresh (p : Path) (s : list Path) : ~ In p s -> set_add p s = s ++ [p].
Proof.
  intros H. unfold set_add. apply mem_false_iff in H. rewrite H. reflexivity.
Qed.

Lemma set_add_In (p q : Path) (s : list Path) : In q (set_add p s) <-> q = p \/ In q s.
Proof.
  unfold set_add. destruct (mem p s) eqn:E.
  - apply mem_true_iff in E. split; [auto | intros [-> | H]; assumption].
  - rewrite in_app_iff. simpl. intuition congruence.
Qed.

Lemma NoDup_snoc (p : Path) (s : list Path) : NoDup s -> ~ In p s -> NoDup (s ++ [p]).
Proof.
  intros H N. apply NoDup_app.
  - assumption.
  - constructor; [simpl; tauto | constructor].
  - intros x Hx Hp. simpl in Hp. destruct Hp as [Hp | Hp]; [subst; contradiction | assumption].
Qed.

Lemma set_add_NoDup (p : Path) (s : list Path) : NoDup s -> NoDup (set_add p s).
Proof.
  intros H. unfold set_add. destruct (mem p s) eqn:E; [assumption |].
  apply mem_false_iff in E. apply NoDup_snoc; assumption.
Qed.

Lemma set_remove_last (p : Path) (s : list Path) :
  ~ In p s -> set_remove p (s ++ [p]) = s.
Proof.
  intros H. unfold set_remove. rewrite remove_app. simpl.
  destruct (path_eq_dec p p) as [_ | N]; [| congruence].
  rewrite app_nil_r. apply notin_remove. assumption.
Qed.

Lemma index_of_bound (x : Path) (l : list Path) : index_of x l <= List.length l.
Proof.
  induction l as [| y l IH]; simpl; [lia |].
  destruct (path_eqb y x); lia.
Qed.

Lemma index_of_In (x : Path) (l : list Path) : In x l <-> index_of x l < List.length l.
Proof.
  induction l as [| y l IH]; simpl.
  - split; [intros [] | lia].
  - destruct (path_eqb y x) eqn:E.
    + apply path_eqb_true_iff in E. split; [lia | auto].
    + split.
      * intros [H | H]; [subst; rewrite path_eqb_refl in E; discriminate |].
        apply IH in H. lia.
      * intros H. right. apply IH. lia.
Qed.

Lemma index_of_notin (x : Path) (l : list Path) :
  ~ In x l -> index_of x l = List.length l.
Proof.
  intros H. pose proof (index_of_bound x l). pose proof (index_of_In x l) as [_ B].
  destruct (Nat.eq_dec (index_of x l) (List.length l)); [assumption |].
  exfalso. apply H, B. lia.
Qed.

Lemma index_of_app_In (x : Path) (l l' : list Path) :
  In x l -> index_of x (l ++ l') = index_of x l.
Proof.
  induction l as [| y l IH]; simpl; [intros [] |].
  intros H. destruct (path_eqb y x) eqn:E; [reflexivity |].
  destruct H as [H | H]; [subst; rewrite path_eqb_refl in E; discriminate |].
  rewrite IH by assumption. reflexivity.
Qed.

Lemma index_of_app_notin (x : Path) (l l' : list Path) :
  ~ In x l -> index_of x (l ++ l') = List.length l + index_of x l'.
Proof.
  induction l as [| y l IH]; simpl; [reflexivity |].
  intros H. rewrite path_eqb_neq by (intros ->; apply H; auto).
  rewrite IH by (intros F; apply H; auto). reflexivity.
Qed.

Lemma precedes_In_l (v u : Path) (l : list Path) : precedes v u l -> In v l.
Proof.
  intros [Hu Hlt]. apply index_of_In. apply index_of_In in Hu. lia.
Qed.

Lemma precedes_app (v u : Path) (l l' : list Path) :
  precedes v u l -> precedes v u (l ++ l').
Proof.
  intros H. pose proof (precedes_In_l _ _ _ H) as Hv. destruct H as [Hu Hlt].
  split; [apply in_or_app; auto |].
  rewrite !index_of_app_In by assumption. assumption.
Qed.

Lemma precedes_last (v u : Path) (l : list Path) :
  In v l -> ~ In u l -> precedes v u (l ++ [u]).
Proof.
  intros Hv Hu. split; [apply in_or_app; right; simpl; auto |].
  rewrite index_of_app_In by assumption.
  rewrite index_of_app_notin by assumption.
  apply index_of_In in Hv. lia.
Qed.

Lemma precedes_irrefl (u : Path) (l : list Path) : ~ precedes u u l.
Proof. intros [_ H]. lia. Qed.

Lemma precedes_trans (a b c : Path) (l : list Path) :
  precedes a b l -> precedes b c l -> precedes a c l.
Proof. intros [_ H1] [Hc H2]. split; [assumption | lia]. Qed.

(** * The topological sort *)

Lemma dict_get_In (graph : Graph) (u v : Path) :
  In v (dict_get graph u) -> exists deps, In (u, deps) graph /\ In v deps.
Proof.
  induction graph as [| [k d] g IH]; simpl; [intros [] |].
  destruct (path_eqb k u) eqn:E.
  - apply path_eqb_true_iff in E. subst. intros H. exists d. auto.
  - intros H. destruct (IH H) as (deps & H1 & H2). exists deps. auto.
Qed.

Lemma edge_nodes (graph : Graph) (u v : Path) :
  edge graph u v -> In u (keys graph) /\ In v (nodes_of graph).
Proof.
  intros H. destruct (dict_get_In _ _ _ H) as (deps & H1 & H2). split.
  - unfold keys. apply in_map_iff. exists (u, deps). auto.
  - unfold nodes_of. apply in_or_app. right. apply in_flat_map.
    exists (u, deps). auto.
Qed.

Section SortFacts.

Variable env : Env.
Variable graph : Graph.

(** Iterating a set yields its elements, whatever the order. *)
Hypothesis set_iter_spec : forall l x, In x (set_iter env l) <-> In x l.

(** What holds of the state between any two calls of [visit]. *)
Record Inv (st : SortState) : Prop := {
  inv_visited : s_visited st = s_result st;
  inv_nodup : NoDup (s_result st);
  inv_temp_nodup : NoDup (s_temp_visited st);
  inv_disjoint : forall x, In x (s_temp_visited st) -> ~ In x (s_result st);
  inv_nodes : forall x, In x (s_result st) -> In x (nodes_of graph);
  inv_ordered : forall u v, In u (s_result st) -> edge graph u v ->
    In (u, v) (s_edges_in_cycles st) \/ precedes v u (s_result st);
  inv_closed : forall u v, In u (s_result st) -> edge graph u v ->
    In v (s_result st) \/ In v (s_temp_visited st);
  inv_sound : forall u v, In (u, v) (s_edges_in_cycles st) -> edge graph u v
}.

(** How a stretch of the traversal changes the state. *)
Record Step (st st' : SortState) : Prop := {
  step_inv : Inv st';
  step_temp : s_temp_visited st' = s_temp_visited st;
  step_result : exists rest, s_result st' = s_result st ++ rest;
  step_edges : incl (s_edges_in_cycles st) (s_edges_in_cycles st');
  step_back : forall t u, In t (s_temp_visited st) -> In u (s_result st') ->
    ~ In u (s_result st) -> edge graph u t -> In (u, t) (s_edges_in_cycles st')
}.

Definition Done (n : Path) (st st' : SortState) : Prop :=
  In n (s_result st') \/ In n (s_temp_visited st).

Definition Revisit (n : Path) (st st' : SortState) : Prop :=
  In n (s_temp_visited st) ->
  forall t, In t (s_temp_visited st) -> edge graph t n ->
            In (t, n) (s_edges_in_cycles st').

Definition Self (n : Path) (st st' : SortState) : Prop :=
  ~ In n (s_temp_visited st) -> ~ In n (s_result st) ->
  forall u, In u (s_result st') -> ~ In u (s_result st) -> edge graph u n ->
            In (u, n) (s_edges_in_cycles st').

Lemma Step_refl (st : SortState) : Inv st -> Step st st.
Proof.
  intros H. constructor; auto.
  - exists []. rewrite app_nil_r. reflexivity.
  - apply incl_refl.
  - intros t u _ Hu Hn. contradiction.
Qed.

Lemma Step_trans (a b c : SortState) : Step a b -> Step b c -> Step a c.
Proof.
  intros [I1 T1 [r1 R1] E1 B1] [I2 T2 [r2 R2] E2 B2]. constructor.
  - assumption.
  - congruence.
  - exists (r1 ++ r2). rewrite R2, R1, app_assoc. reflexivity.
  - eapply incl_tran; eassumption.
  - intros t u Ht Hu Hn He.
    destruct (in_dec path_eq_dec u (s_result b)) as [Hb | Hb].
    + apply E2. eapply B1; eassumption.
    + eapply B2; try eassumption. rewrite T1. assumption.
Qed.

Lemma Done_mono (n : Path) (a b c : SortState) :
  Done n a b -> Step b c -> Done n a c.
Proof.
  intros [H | H] [_ _ [r R] _ _]; [left | right; assumption].
  rewrite R. apply in_or_app. auto.
Qed.

Lemma Revisit_mono (n : Path) (a b c : SortState) :
  Revisit n a b -> Step b c -> Revisit n a c.
Proof.
  intros H S Hn t Ht He. apply (step_edges _ _ S). apply H; assumption.
Qed.

Section Each.

Variable f : Path -> SortState -> option SortState.

Hypothesis f_post : forall n st st',
  In n (nodes_of graph) -> Inv st -> f n st = Some st' ->
  Step st st' /\ Done n st st' /\ Revisit n st st'.

Lemma visit_each_post (l : list Path) :
  forall st st',
    (forall n, In n l -> In n (nodes_of graph)) -> Inv st ->
    visit_each f l st = Some st' ->
    Step st st' /\ forall n, In n l -> Done n st st' /\ Revisit n st st'.
Proof.
  induction l as [| m l IH]; intros st st' Hl Hinv Hrun; simpl in Hrun.
  - inversion Hrun; subst. split; [apply Step_refl; assumption | intros n []].
  - destruct (f m st) as [st1 |] eqn:E; [| discriminate].
    destruct (f_post m st st1 (Hl m (or_introl eq_refl)) Hinv E) as (S1 & D1 & R1).
    destruct (IH st1 st' (fun n H => Hl n (or_intror H)) (step_inv _ _ S1) Hrun)
      as (S2 & Hrest).
    split; [eapply Step_trans; eassumption |].
    intros n [-> | Hn].
    + split; [eapply Done_mono; eassumption | eapply Revisit_mono; eassumption].
    + destruct (Hrest n Hn) as (D2 & R2). split.
      * destruct D2 as [D2 | D2]; [left; assumption | right].
        rewrite <- (step_temp _ _ S1). assumption.
      * intros Hin t Ht He. apply R2; try assumption;
          rewrite (step_temp _ _ S1); assumption.
Qed.

End Each.

Lemma Inv_more_edges (st : SortState) (extra : list (Path * Path)) :
  Inv st ->
  (forall u v, In (u, v) extra -> edge graph u v) ->
  Inv (mkSort (s_result st) (s_visited st) (s_temp_visited st)
         (s_edges_in_cycles st ++ extra)).
Proof.
  intros H Hextra. constructor; simpl; try apply H.
  - intros u v Hu He. destruct (inv_ordered st H u v Hu He) as [G | G].
    + left. apply in_or_app. auto.
    + right. assumption.
  - intros u v Huv. apply in_app_or in Huv. destruct Huv as [G | G].
    + apply (inv_sound st H). assumption.
    + apply Hextra. assumption.
Qed.

Lemma cycle_edges_In (temp : list Path) (n t u : Path) :
  In (t, u) (cycle_edges env graph temp n) <->
  u = n /\ In t temp /\ edge graph t n.
Proof.
  unfold cycle_edges. rewrite in_map_iff. split.
  - intros (x & Heq & Hf). injection Heq as -> ->. apply filter_In in Hf.
    destruct Hf as [Hi Hm]. apply (proj1 (set_iter_spec _ _)) in Hi.
    apply mem_true_iff in Hm. auto.
  - intros (-> & Ht & He). exists t. split; [reflexivity |].
    apply filter_In. split; [apply (proj2 (set_iter_spec _ _)); assumption |].
    apply mem_true_iff. assumption.
Qed.

Lemma Inv_enter (st : SortState) (n : Path) :
  Inv st -> ~ In n (s_temp_visited st) -> ~ In n (s_result st) ->
  Inv (mkSort (s_result st) (s_visited st) (s_temp_visited st ++ [n])
         (s_edges_in_cycles st)).
Proof.
  intros H Ht Hr. constructor; simpl; try apply H.
  - apply NoDup_snoc; [apply H | assumption].
  - intros x Hx. apply in_app_or in Hx. destruct Hx as [Hx | [<- | []]].
    + apply (inv_disjoint st H). assumption.
    + assumption.
  - intros u v Hu He. destruct (inv_closed st H u v Hu He); [left | right]; auto.
    apply in_or_app. auto.
Qed.

(** The specification of [visit]. *)
Lemma visit_post (fuel : nat) :
  forall n st st',
    In n (nodes_of graph) -> Inv st -> visit env graph fuel n st = Some st' ->
    Step st st' /\ Done n st st' /\ Revisit n st st' /\ Self n st st'.
Proof.
  induction fuel as [| fuel IH]; intros n st st' Hn Hinv Hrun; simpl in Hrun;
    [discriminate |].
  destruct (mem n (s_temp_visited st)) eqn:Et.
  - (* met again while in progress *)
    apply mem_true_iff in Et. inversion Hrun; subst; clear Hrun.
    split; [| split; [| split]].
    + constructor; simpl.
      * apply Inv_more_edges; [assumption |].
        intros u v H. apply cycle_edges_In in H. destruct H as (-> & _ & He).
        assumption.
      * reflexivity.
      * exists []. rewrite app_nil_r. reflexivity.
      * apply incl_appl, incl_refl.
      * intros t u _ Hu Hnu. contradiction.
    + right. assumption.
    + intros _ t Ht He. simpl. apply in_or_app. right.
      apply cycle_edges_In. auto.
    + intros N. contradiction.
  - apply mem_false_iff in Et.
    destruct (mem n (s_visited st)) eqn:Ev.
    + (* finished earlier *)
      apply mem_true_iff in Ev. rewrite (inv_visited st Hinv) in Ev.
      inversion Hrun; subst; clear Hrun.
      split; [apply Step_refl; assumption |].
      split; [left; assumption |].
      split; [intros N; contradiction | intros _ N; contradiction].
    + (* first visit *)
      apply mem_false_iff in Ev. rewrite (inv_visited st Hinv) in Ev.
      rewrite (set_add_fresh _ _ Et) in Hrun.
      destruct (visit_each (visit env graph fuel)
                  (set_iter env (dict_get graph n)) _) as [st2 |] eqn:Eeach;
        [| discriminate].
      inversion Hrun; subst; clear Hrun.
      apply visit_each_post in Eeach.
      * destruct Eeach as (S & Hl). simpl in *.
        pose proof (step_inv _ _ S) as I2.
        pose proof (step_temp _ _ S) as T2. simpl in T2.
        destruct (step_result _ _ S) as [rest R2]. simpl in R2.
        assert (Hn2 : ~ In n (s_result st2)).
        { apply (inv_disjoint st2 I2). rewrite T2. apply in_or_app. simpl. auto. }
        assert (Hnb : forall v, edge graph n v ->
                      In v (s_result st2) \/ In v (s_temp_visited st) \/ v = n).
        { intros v He. destruct (Hl v) as (D & _); [apply (proj2 (set_iter_spec _ _)); exact He |].
          destruct D as [D | D]; [left; assumption | right]. simpl in D.
          apply in_app_or in D. simpl in D. intuition. }
        assert (Hrep : forall v, edge graph n v ->
                       In v (s_temp_visited st) \/ v = n ->
                       In (n, v) (s_edges_in_cycles st2)).
        { intros v He Hv. destruct (Hl v) as (_ & Rv); [apply (proj2 (set_iter_spec _ _)); exact He |].
          apply Rv; simpl; try assumption.
          - apply in_or_app. simpl. intuition.
          - apply in_or_app. simpl. auto. }
        split; [| split; [| split]].
        -- constructor; simpl.
           ++ constructor; simpl.
              ** rewrite (inv_visited st2 I2). apply set_add_fresh. assumption.
              ** apply NoDup_snoc; [apply I2 | assumption].
              ** rewrite T2, (set_remove_last _ _ Et). apply Hinv.
              ** rewrite T2, (set_remove_last _ _ Et). intros x Hx Hin.
                 apply in_app_or in Hin. destruct Hin as [Hin | [<- | []]].
                 --- apply (inv_disjoint st2 I2 x); [| assumption].
                     rewrite T2. apply in_or_app. auto.
                 --- contradiction.
              ** intros x Hx. apply in_app_or in Hx. destruct Hx as [Hx | [<- | []]].
                 --- apply (inv_nodes st2 I2). assumption.
                 --- assumption.
              ** intros u v Hu He. apply in_app_or in Hu.
                 destruct Hu as [Hu | [<- | []]].
                 --- destruct (inv_ordered st2 I2 u v Hu He); [left | right]; auto.
                     apply precedes_app. assumption.
                 --- destruct (Hnb v He) as [G | G].
                     +++ right. apply precedes_last; assumption.
                     +++ left. apply Hrep; assumption.
              ** rewrite T2, (set_remove_last _ _ Et). intros u v Hu He.
                 assert (G : In v (s_result st2) \/ In v (s_temp_visited st) \/ v = n).
                 { apply in_app_or in Hu. destruct Hu as [Hu | [<- | []]].
                   - destruct (inv_closed st2 I2 u v Hu He) as [G | G]; [auto |].
                     rewrite T2 in G. apply in_app_or in G. simpl in G. intuition.
                   - apply Hnb. assumption. }
                 destruct G as [G | [G | ->]].
                 --- left. apply in_or_app. auto.
                 --- right. assumption.
                 --- left. apply in_or_app. simpl. auto.
              ** apply I2.
           ++ rewrite T2. apply set_remove_last. assumption.
           ++ exists (rest ++ [n]). rewrite R2, app_assoc. reflexivity.
           ++ apply (step_edges _ _ S).
           ++ intros t u Ht Hu Hnu He. apply in_app_or in Hu.
              destruct Hu as [Hu | [<- | []]].
              ** apply (step_back _ _ S); simpl; try assumption.
                 apply in_or_app. auto.
              ** apply Hrep; auto.
        -- left. simpl. apply in_or_app. simpl. auto.
        -- intros N. contradiction.
        -- intros _ _ u Hu Hnu He. simpl in *. apply in_app_or in Hu.
           destruct Hu as [Hu | [<- | []]].
           ++ apply (step_back _ _ S); simpl; try assumption.
              apply in_or_app. simpl. auto.
           ++ apply Hrep; auto.
      * intros m s s' Hm Hi Hv. destruct (IH m s s' Hm Hi Hv) as (A & B & C & _).
        auto.
      * intros v Hv. apply (proj1 (set_iter_spec _ _)) in Hv.
        apply (edge_nodes graph n v). assumption.
      * apply Inv_enter; assumption.
Qed.

(** *** The recursion is bounded by the number of paths *)

(** The paths of the graph that are not in progress. *)
Definition room (temp : list Path) : nat :=
  List.length (filter (fun x => negb (mem x temp)) (nodes_of graph)).

Lemma filter_length_le (p q : Path -> bool) (l : list Path) :
  (forall y, q y = true -> p y = true) ->
  List.length (filter q l) <= List.length (filter p l).
Proof.
  intros H. induction l as [| y l IH]; simpl; [lia |].
  destruct (q y) eqn:Q.
  - rewrite (H y Q). simpl. lia.
  - destruct (p y); simpl; lia.
Qed.

Lemma filter_length_lt (p q : Path -> bool) (l : list Path) (x : Path) :
  (forall y, q y = true -> p y = true) ->
  In x l -> p x = true -> q x = false ->
  List.length (filter q l) < List.length (filter p l).
Proof.
  intros H Hx Px Qx. induction l as [| y l IH]; simpl; [destruct Hx |].
  destruct Hx as [-> | Hx].
  - rewrite Px, Qx. simpl. pose proof (filter_length_le p q l H). lia.
  - specialize (IH Hx). destruct (q y) eqn:Q.
    + rewrite (H y Q). simpl. lia.
    + destruct (p y); simpl; lia.
Qed.

Lemma room_enter (temp : list Path) (n : Path) :
  In n (nodes_of graph) -> ~ In n temp -> room (temp ++ [n]) < room temp.
Proof.
  intros Hn Ht. unfold room. apply filter_length_lt with (x := n).
  - intros y Hy. apply negb_true_iff in Hy. apply negb_true_iff.
    apply mem_false_iff in Hy. apply mem_false_iff.
    intros F. apply Hy. apply in_or_app. auto.
  - assumption.
  - apply negb_true_iff. apply mem_false_iff. assumption.
  - apply negb_false_iff. apply mem_true_iff. apply in_or_app. simpl. auto.
Qed.

Lemma room_bound (temp : list Path) : room temp <= List.length (nodes_of graph).
Proof.
  unfold room. induction (nodes_of graph) as [| y l IH]; simpl; [lia |].
  destruct (negb (mem y temp)); simpl; lia.
Qed.

Section EachTotal.

Variable f : Path -> SortState -> option SortState.
Variable k : nat.

Hypothesis f_post : forall n st st',
  In n (nodes_of graph) -> Inv st -> f n st = Some st' ->
  Step st st' /\ Done n st st' /\ Revisit n st st'.

Hypothesis f_total : forall n st,
  In n (nodes_of graph) -> Inv st -> room (s_temp_visited st) < k ->
  exists st', f n st = Some st'.

Lemma visit_each_total (l : list Path) :
  forall st,
    (forall n, In n l -> In n (nodes_of graph)) -> Inv st ->
    room (s_temp_visited st) < k ->
    exists st', visit_each f l st = Some st'.
Proof.
  induction l as [| m l IH]; intros st Hl Hinv Hk; simpl.
  - exists st. reflexivity.
  - destruct (f_total m st (Hl m (or_introl eq_refl)) Hinv Hk) as [st1 E].
    rewrite E.
    destruct (f_post m st st1 (Hl m (or_introl eq_refl)) Hinv E) as (S1 & _).
    apply IH.
    + intros n H. apply Hl. right. assumption.
    + apply (step_inv _ _ S1).
    + rewrite (step_temp _ _ S1). assumption.
Qed.

End EachTotal.

Lemma visit_post3 (fuel : nat) (n : Path) (st st' : SortState) :
  In n (nodes_of graph) -> Inv st -> visit env graph fuel n st = Some st' ->
  Step st st' /\ Done n st st' /\ Revisit n st st'.
Proof.
  intros Hn Hi Hv. destruct (visit_post fuel n st st' Hn Hi Hv) as (A & B & C & _).
  auto.
Qed.

Lemma visit_total (fuel : nat) :
  forall n st,
    In n (nodes_of graph) -> Inv st -> room (s_temp_visited st) < fuel ->
    exists st', visit env graph fuel n st = Some st'.
Proof.
  induction fuel as [| fuel IH]; intros n st Hn Hinv Hfuel; [lia |].
  simpl. destruct (mem n (s_temp_visited st)) eqn:Et; [eexists; reflexivity |].
  destruct (mem n (s_visited st)) eqn:Ev; [eexists; reflexivity |].
  apply mem_false_iff in Et. apply mem_false_iff in Ev.
  rewrite (inv_visited st Hinv) in Ev.
  rewrite (set_add_fresh _ _ Et).
  destruct (visit_each_total (visit env graph fuel) fuel (visit_post3 fuel) IH
              (set_iter env (dict_get graph n))
              (mkSort (s_result st) (s_visited st) (s_temp_visited st ++ [n])
                 (s_edges_in_cycles st))) as [st2 E].
  - intros v Hv. apply (proj1 (set_iter_spec _ _)) in Hv.
    apply (edge_nodes graph n v). assumption.
  - apply Inv_enter; assumption.
  - simpl. pose proof (room_enter (s_temp_visited st) n Hn Et). lia.
  - rewrite E. eexists. reflexivity.
Qed.

(** *** The driver loop *)

Lemma Inv_init : Inv (mkSort [] [] [] []).
Proof.
  constructor; simpl; try constructor; try (intros; contradiction).
Qed.

Lemma visit_unvisited_post (fuel : nat) (n : Path) (st st' : SortState) :
  In n (nodes_of graph) -> Inv st ->
  visit_unvisited env graph fuel n st = Some st' ->
  Step st st' /\ Done n st st' /\ Revisit n st st'.
Proof.
  intros Hn Hinv. unfold visit_unvisited.
  destruct (mem n (s_visited st)) eqn:Ev.
  - intros H. inversion H; subst. apply mem_true_iff in Ev.
    rewrite (inv_visited st' Hinv) in Ev.
    split; [apply Step_refl; assumption |]. split; [left; assumption |].
    intros Ht. exfalso. apply (inv_disjoint st' Hinv n); assumption.
  - apply visit_post3; assumption.
Qed.

Lemma visit_unvisited_total (fuel : nat) (n : Path) (st : SortState) :
  In n (nodes_of graph) -> Inv st -> room (s_temp_visited st) < fuel ->
  exists st', visit_unvisited env graph fuel n st = Some st'.
Proof.
  intros Hn Hinv Hf. unfold visit_unvisited.
  destruct (mem n (s_visited st)); [eexists; reflexivity |].
  apply visit_total; assumption.
Qed.

Lemma keys_nodes (n : Path) : In n (keys graph) -> In n (nodes_of graph).
Proof. intros H. unfold nodes_of. apply in_or_app. auto. Qed.

Lemma topological_sort_total :
  exists sorted_files cycles, topological_sort env graph = Some (sorted_files, cycles).
Proof.
  unfold topological_sort.
  destruct (visit_each_total
              (visit_unvisited env graph (S (List.length (nodes_of graph))))
              (S (List.length (nodes_of graph)))
              (visit_unvisited_post _) (visit_unvisited_total _)
              (keys graph) (mkSort [] [] [] [])) as [st E].
  - apply keys_nodes.
  - apply Inv_init.
  - simpl. pose proof (room_bound []). lia.
  - rewrite E. eexists. eexists. reflexivity.
Qed.

(** What the sort returns. *)
Lemma topological_sort_spec (sorted_files : list Path) (cycles : list (Path * Path)) :
  topological_sort env graph = Some (sorted_files, cycles) ->
  NoDup sorted_files /\
  (forall k, In k (keys graph) -> In k sorted_files) /\
  (forall x, In x sorted_files -> In x (nodes_of graph)) /\
  (forall u v, edge graph u v -> In (u, v) cycles \/ precedes v u sorted_files) /\
  (forall u v, In (u, v) cycles -> edge graph u v).
Proof.
  unfold topological_sort.
  destruct (visit_each _ _ _) as [st |] eqn:E; [| discriminate].
  intros H. inversion H; subst; clear H.
  apply visit_each_post in E;
    [| apply visit_unvisited_post | apply keys_nodes | apply Inv_init].
  destruct E as (S & Hk). pose proof (step_inv _ _ S) as I.
  assert (Hkeys : forall k, In k (keys graph) -> In k (s_result st)).
  { intros k Hin. destruct (Hk k Hin) as ([D | []] & _). assumption. }
  split; [apply I |]. split; [assumption |]. split; [apply I |].
  split; [| apply I].
  intros u v He. apply (inv_ordered st I); [| assumption].
  apply Hkeys. apply (edge_nodes graph u v He).
Qed.

End SortFacts.

Section SortEntry.

Variable env : Env.
Variable graph : Graph.
Hypothesis set_iter_spec : forall l x, In x (set_iter env l) <-> In x l.

(** When the first key reaches every key, the first call of [visit] does
    the whole work, and every edge into the first key is met while that
    key is in progress. *)
Lemma topological_sort_entry (m : Path) (ks : list Path)
  (sorted_files : list Path) (cycles : list (Path * Path)) :
  keys graph = m :: ks ->
  (forall k, In k (keys graph) -> reachable graph m k) ->
  topological_sort env graph = Some (sorted_files, cycles) ->
  forall u, edge graph u m -> In (u, m) cycles.
Proof.
  intros Hkeys Hreach. unfold topological_sort. rewrite Hkeys.
  cbn [visit_each]. unfold visit_unvisited at 1. cbn [s_visited].
  change (mem m []) with false. cbv iota.
  assert (Hm : In m (nodes_of graph)).
  { apply keys_nodes. rewrite Hkeys. simpl. auto. }
  destruct (visit env graph (S (List.length (nodes_of graph))) m (mkSort [] [] [] []))
    as [st1 |] eqn:E1; [| discriminate].
  destruct (visit_each _ ks st1) as [st2 |] eqn:E2; [| discriminate].
  intros H u He. inversion H; subst; clear H.
  destruct (visit_post env graph set_iter_spec _ m _ st1 Hm (Inv_init graph) E1)
    as (S1 & D1 & _ & Self1).
  pose proof (step_inv _ _ _ S1) as I1.
  pose proof (step_temp _ _ _ S1) as T1. simpl in T1.
  assert (Hall : forall x, reachable graph m x -> In x (s_result st1)).
  { intros x Hx. induction Hx as [| a b _ IH Hab].
    - destruct D1 as [D1 | []]. assumption.
    - destruct (inv_closed _ _ I1 a b IH Hab) as [G | G]; [assumption |].
      rewrite T1 in G. destruct G. }
  apply visit_each_post with (graph := graph) in E2.
  - destruct E2 as (S2 & _). apply (step_edges _ _ _ S2).
    apply Self1; simpl; auto.
    apply Hall, Hreach. apply (edge_nodes graph u m He).
  - intros n s s'. apply visit_unvisited_post. assumption.
  - intros n Hn. apply keys_nodes. rewrite Hkeys. simpl. auto.
  - assumption.
Qed.

End SortEntry.

Section SortAcyclic.

Variable env : Env.
Variable graph : Graph.
Hypothesis set_iter_spec : forall l x, In x (set_iter env l) <-> In x l.

(** Among the finished paths, an edge that lies on no cycle has its target
    before its source. *)
Definition Ordered (st : SortState) : Prop :=
  forall u v, In u (s_result st) -> edge graph u v ->
              precedes v u (s_result st) \/ reachable graph v u.

(** Every path in progress reaches the path about to be visited. *)
Definition OnStack (n : Path) (st : SortState) : Prop :=
  forall t, In t (s_temp_visited st) -> reachable graph t n.

Lemma visit_each_ordered (f : Path -> SortState -> option SortState) (l : list Path) :
  (forall n st st', In n (nodes_of graph) -> Inv graph st -> f n st = Some st' ->
                    Step graph st st' /\ Done n st st' /\ Revisit graph n st st') ->
  (forall n st st', In n (nodes_of graph) -> Inv graph st -> Ordered st ->
                    OnStack n st -> f n st = Some st' -> Ordered st') ->
  forall st st',
    (forall n, In n l -> In n (nodes_of graph)) -> Inv graph st -> Ordered st ->
    (forall n, In n l -> OnStack n st) ->
    visit_each f l st = Some st' -> Ordered st'.
Proof.
  intros f_post f_ord. induction l as [| m l IH]; intros st st' Hl Hinv Hord Hst Hrun;
    simpl in Hrun.
  - inversion Hrun; subst. assumption.
  - destruct (f m st) as [st1 |] eqn:E; [| discriminate].
    destruct (f_post m st st1 (Hl m (or_introl eq_refl)) Hinv E) as (S1 & _).
    apply (IH st1 st').
    + intros n H. apply Hl. right. assumption.
    + apply (step_inv _ _ _ S1).
    + apply (f_ord m st st1); auto. apply Hl. left. reflexivity.
      apply Hst. left. reflexivity.
    + intros n H t Ht. rewrite (step_temp _ _ _ S1) in Ht. apply (Hst n); auto.
      right. assumption.
    + assumption.
Qed.

Lemma visit_ordered (fuel : nat) :
  forall n st st',
    In n (nodes_of graph) -> Inv graph st -> Ordered st -> OnStack n st ->
    visit env graph fuel n st = Some st' -> Ordered st'.
Proof.
  induction fuel as [| fuel IH]; intros n st st' Hn Hinv Hord Hst Hrun; simpl in Hrun;
    [discriminate |].
  destruct (mem n (s_temp_visited st)) eqn:Et.
  - inversion Hrun; subst. exact Hord.
  - apply mem_false_iff in Et.
    destruct (mem n (s_visited st)) eqn:Ev.
    + inversion Hrun; subst. exact Hord.
    + apply mem_false_iff in Ev. rewrite (inv_visited _ st Hinv) in Ev.
      rewrite (set_add_fresh _ _ Et) in Hrun.
      destruct (visit_each (visit env graph fuel)
                  (set_iter env (dict_get graph n)) _) as [st2 |] eqn:Eeach;
        [| discriminate].
      inversion Hrun; subst; clear Hrun.
      assert (Hnodes : forall v, In v (set_iter env (dict_get graph n)) ->
                                 In v (nodes_of graph)).
      { intros v Hv. apply (proj1 (set_iter_spec _ _)) in Hv.
        apply (edge_nodes graph n v). assumption. }
      pose proof (Inv_enter graph st n Hinv Et Ev) as I1.
      pose proof Eeach as Epost.
      apply (visit_each_post graph (visit env graph fuel)
               (visit_post3 env graph set_iter_spec fuel)) in Epost;
        [| assumption | assumption].
      destruct Epost as (S & Hl).
      apply (visit_each_ordered (visit env graph fuel) _
               (visit_post3 env graph set_iter_spec fuel) IH) in Eeach;
        [| assumption | assumption | exact Hord |].
      * intros u v Hu He. simpl in *. apply in_app_or in Hu.
        destruct Hu as [Hu | [<- | []]].
        -- destruct (Eeach u v Hu He) as [G | G]; [left | right; assumption].
           apply precedes_app. assumption.
        -- destruct (Hl v) as (D & _); [apply (proj2 (set_iter_spec _ _)); exact He |].
           destruct D as [D | D].
           ++ left. apply precedes_last; [assumption |].
              apply (inv_disjoint _ st2 (step_inv _ _ _ S)).
              rewrite (step_temp _ _ _ S). simpl. apply in_or_app. simpl. auto.
           ++ right. simpl in D. apply in_app_or in D. destruct D as [D | [<- | []]].
              ** apply Hst. assumption.
              ** apply reach_here.
      * intros v Hv t Ht. simpl in Ht. apply (proj1 (set_iter_spec _ _)) in Hv.
        apply in_app_or in Ht. destruct Ht as [Ht | [<- | []]].
        -- eapply reach_step; [apply Hst; exact Ht | exact Hv].
        -- eapply reach_step; [apply reach_here | exact Hv].
Qed.

(** In the result of the sort, an edge whose source cannot be reached back
    from its target has the target first. *)
Lemma topological_sort_acyclic_edges
  (sorted_files : list Path) (cycles : list (Path * Path)) :
  topological_sort env graph = Some (sorted_files, cycles) ->
  forall u v, edge graph u v -> ~ reachable graph v u -> precedes v u sorted_files.
Proof.
  intros T. pose proof (topological_sort_spec env graph set_iter_spec _ _ T)
    as (_ & Hk & _).
  unfold topological_sort in T.
  destruct (visit_each _ _ _) as [st |] eqn:E; [| discriminate].
  inversion T; subst; clear T.
  apply (visit_each_ordered
           (visit_unvisited env graph (S (List.length (nodes_of graph)))) (keys graph)
           (visit_unvisited_post env graph set_iter_spec _)) in E.
  - intros u v He Hn. destruct (E u v) as [G | G]; try assumption; [| contradiction].
    apply Hk. apply (edge_nodes graph u v He).
  - intros n st0 st' Hn Hinv Hord Hst. unfold visit_unvisited.
    destruct (mem n (s_visited st0)).
    + intros H. inversion H; subst. assumption.
    + apply visit_ordered; assumption.
  - apply keys_nodes.
  - apply Inv_init.
  - intros u v [].
  - intros n _ t [].
Qed.

End SortAcyclic.

(** * The dependency graph *)

Lemma dict_get_set (g : Graph) (k k' : Path) (v : list Path) :
  dict_get (dict_set g k v) k' = if path_eqb k k' then v else dict_get g k'.
Proof.
  induction g as [| [a d] g IH]; simpl.
  - reflexivity.
  - destruct (path_eqb a k) eqn:E; simpl.
    + apply path_eqb_true_iff in E. subst. destruct (path_eqb k k'); reflexivity.
    + rewrite IH. destruct (path_eqb a k') eqn:E'; [| reflexivity].
      apply path_eqb_true_iff in E'. subst. rewrite path_eqb_sym_false; auto.
Qed.

Lemma keys_dict_set_fresh (g : Graph) (k : Path) (v : list Path) :
  ~ In k (keys g) -> keys (dict_set g k v) = keys g ++ [k].
Proof.
  induction g as [| [a d] g IH]; simpl; intros H; [reflexivity |].
  rewrite path_eqb_neq by (intros ->; apply H; auto).
  simpl. rewrite IH by (intros F; apply H; auto). reflexivity.
Qed.

Lemma edge_dict_set (g : Graph) (c : Path) (deps : list Path) (u v : Path) :
  ~ In c (keys g) -> edge g u v -> edge (dict_set g c deps) u v.
Proof.
  intros Hc He. unfold edge. rewrite dict_get_set.
  rewrite path_eqb_neq; [assumption |].
  intros ->. apply Hc. apply (edge_nodes g u v He).
Qed.

Lemma reachable_dict_set (g : Graph) (c : Path) (deps : list Path) (m k : Path) :
  ~ In c (keys g) -> reachable g m k -> reachable (dict_set g c deps) m k.
Proof.
  intros Hc H. induction H as [| u v _ IH He].
  - apply reach_here.
  - eapply reach_step; [exact IH | apply edge_dict_set; assumption].
Qed.

(** ** What the resolver returns lies under the project root *)

Section ResolverFacts.

Variable env : Env.
Variable file_path project_root : Path.

(** A path the analyzer may record: it lies under the root and is the
    canonical path of something that is a file. *)
Definition local_file (p : Path) : Prop :=
  is_relative_to p project_root = true /\
  exists c, is_file env c = Ok true /\ resolve env c = p.

Lemma is_local_file_true (c : Path) :
  is_local_file env project_root c = Ok true -> is_file env c = Ok true.
Proof.
  unfold is_local_file. destruct (is_file env c) as [[|] |]; simpl; congruence.
Qed.

Lemma accept_local (c p : Path) :
  is_local_file env project_root c = Ok true ->
  accept env project_root c = Ok (Some p) -> local_file p.
Proof.
  intros Hc. unfold accept, relative_to.
  destruct (is_relative_to (resolve env c) project_root) eqn:E; simpl;
    intros H; inversion H; subst.
  split; [assumption |]. exists c. split; [apply is_local_file_true; assumption | reflexivity].
Qed.

Lemma _resolve_module_local (module_name : string) (level : nat) (p : Path) :
  _resolve_module env file_path project_root module_name level = Ok (Some p) ->
  local_file p.
Proof.
  unfold _resolve_module.
  destruct (is_external env project_root module_name); [discriminate |].
  repeat match goal with
         | |- bind (with_suffix ?q ?s) _ = _ -> _ =>
             destruct (with_suffix q s) as [? | ?]; simpl; [| discriminate]
         | |- bind (is_local_file env project_root ?c) _ = _ -> _ =>
             destruct (is_local_file env project_root c) as [[|] | ?] eqn:?;
             simpl; [| | discriminate]
         | H : is_local_file env project_root ?c = Ok true
           |- accept env project_root ?c = _ -> _ => apply (accept_local c p H)
         | |- Ok None = _ -> _ => discriminate
         end.
Qed.

Lemma record_local (deps : list Path) (r : option Path) :
  (forall d, In d deps -> local_file d) ->
  (forall p, r = Some p -> local_file p) ->
  forall d, In d (record deps r) -> local_file d.
Proof.
  intros Hd Hr d. destruct r as [p |]; simpl; [| apply Hd].
  intros H. apply set_add_In in H. destruct H as [-> | H]; auto.
Qed.

Lemma visit_stmt_local (stmt : ImportStmt) (deps deps' : list Path) :
  (forall d, In d deps -> local_file d) ->
  visit_stmt env file_path project_root deps stmt = Ok deps' ->
  forall d, In d deps' -> local_file d.
Proof.
  destruct stmt as [names | module level]; simpl.
  - unfold visit_Import. revert deps.
    induction names as [| a names IH]; simpl; intros deps Hd H.
    + inversion H; subst. assumption.
    + destruct (_resolve_module env file_path project_root a 0) as [r |] eqn:E;
        simpl in H; [| discriminate].
      apply (IH (record deps r)); [| exact H].
      apply record_local; [assumption |].
      intros p ->. eapply _resolve_module_local. eassumption.
  - unfold visit_ImportFrom. intros Hd.
    destruct (_resolve_module _ _ _ _ _) as [r |] eqn:E; simpl; [| discriminate].
    intros H. inversion H; subst.
    apply record_local; [assumption |].
    intros p ->. eapply _resolve_module_local. eassumption.
Qed.

Lemma find_imports_local (d : Path) :
  In d (find_imports env file_path project_root) -> local_file d.
Proof.
  unfold find_imports, analyze.
  destruct (read_text env file_path) as [content |]; simpl; [| intros []].
  destruct (ast_imports env content) as [tree |]; simpl; [| intros []].
  destruct (relative_to file_path project_root) as [? |]; simpl; [| intros []].
  assert (G : forall deps,
             (forall x, In x deps -> local_file x) ->
             In d (match for_each (visit_stmt env file_path project_root) tree deps with
                   | Ok l => l
                   | Raise _ => []
                   end) ->
             local_file d).
  { induction tree as [| stmt tree IH]; simpl; intros deps Hd.
    - apply Hd.
    - destruct (visit_stmt env file_path project_root deps stmt) as [deps' |] eqn:E;
        simpl; [| intros []].
      apply IH. eapply visit_stmt_local; eassumption. }
  apply G. intros x [].
Qed.

Lemma _resolve_module_under_root (module_name : string) (level : nat) (p : Path) :
  _resolve_module env file_path project_root module_name level = Ok (Some p) ->
  is_relative_to p project_root = true.
Proof. intros H. apply (_resolve_module_local _ _ _ H). Qed.

Lemma find_imports_under_root (d : Path) :
  In d (find_imports env file_path project_root) ->
  is_relative_to d project_root = true.
Proof. intros H. apply (find_imports_local _ H). Qed.

End ResolverFacts.

(** ** The worklist loop *)

Section BuildFacts.

Variable env : Env.
Variable project_root : Path.
(** The canonical path of the main file, with which the queue starts. *)
Variable m : Path.

(** The part of the loop invariant that concerns the content of the
    graph. *)
Record BInv (st : BuildState) : Prop := {
  bi_keys : keys (b_graph st) = b_visited st;
  bi_all : b_all_files st = b_visited st;
  bi_nodup : NoDup (b_visited st);
  bi_root : forall k, In k (b_visited st) -> is_relative_to k project_root = true;
  bi_values : forall k, In k (b_visited st) ->
    dict_get (b_graph st) k = find_imports env k project_root
}.

Lemma BInv_init : BInv (mkBuild [] [] [m] []).
Proof.
  constructor; simpl; try reflexivity; try constructor; intros; contradiction.
Qed.

Lemma BInv_skip (st : BuildState) (rest : list Path) :
  BInv st -> BInv (mkBuild (b_graph st) (b_all_files st) rest (b_visited st)).
Proof. intros H. constructor; simpl; apply H. Qed.

Lemma BInv_visit (st : BuildState) (c : Path) (queue : list Path) :
  BInv st ->
  ~ In c (b_visited st) -> is_relative_to c project_root = true ->
  BInv (mkBuild
          (dict_set (b_graph st) c (find_imports env c project_root))
          (set_add c (b_all_files st)) queue (set_add c (b_visited st))).
Proof.
  intros H Hc Hroot.
  assert (Hk : ~ In c (keys (b_graph st))) by (rewrite (bi_keys st H); assumption).
  rewrite (bi_all st H). rewrite (set_add_fresh _ _ Hc).
  constructor; simpl.
  - rewrite keys_dict_set_fresh by assumption. rewrite (bi_keys st H). reflexivity.
  - reflexivity.
  - apply NoDup_snoc; [apply H | assumption].
  - intros k Hin. apply in_app_or in Hin. destruct Hin as [Hin | [<- | []]].
    + apply (bi_root st H). assumption.
    + assumption.
  - intros k Hin. rewrite dict_get_set. apply in_app_or in Hin.
    destruct Hin as [Hin | [<- | []]].
    + rewrite path_eqb_neq by (intros ->; contradiction).
      apply (bi_values st H). assumption.
    + rewrite path_eqb_refl. reflexivity.
Qed.

Lemma build_loop_inv (fuel : nat) :
  forall st st', BInv st -> build_loop env project_root fuel st = Some st' ->
                 BInv st' /\ b_queue st' = [].
Proof.
  induction fuel as [| fuel IH]; intros st st' H Hrun; simpl in Hrun; [discriminate |].
  destruct (b_queue st) as [| c rest] eqn:Hq.
  - inversion Hrun; subst. auto.
  - destruct (mem c (b_visited st)) eqn:Ev.
    + apply IH in Hrun; [assumption |]. apply BInv_skip. assumption.
    + apply mem_false_iff in Ev.
      destruct (is_relative_to c project_root) eqn:Er; simpl in Hrun.
      * apply IH in Hrun; [assumption |]. apply BInv_visit; assumption.
      * apply IH in Hrun; [assumption |]. apply BInv_skip. assumption.
Qed.

Hypothesis set_iter_spec : forall l x, In x (set_iter env l) <-> In x l.

(** The part that concerns the order of discovery: the first key is the
    main file, and every key is reached from it. *)
Record BReach (st : BuildState) : Prop := {
  br_first : (b_visited st = [] /\ (b_queue st = [m] \/ b_queue st = [])) \/
             exists ks, b_visited st = m :: ks;
  br_reach : forall k, In k (b_visited st) -> reachable (b_graph st) m k;
  br_queue : forall q, In q (b_queue st) ->
    q = m \/ exists k, In k (b_visited st) /\ edge (b_graph st) k q;
  br_closed : forall k d, In k (b_visited st) -> edge (b_graph st) k d ->
    In d (b_visited st) \/ In d (b_queue st);
  br_main : In m (b_visited st) \/ In m (b_queue st) \/
            is_relative_to m project_root = false
}.

Lemma BReach_init : BReach (mkBuild [] [] [m] []).
Proof.
  constructor; simpl.
  - left. auto.
  - intros k [].
  - intros q [<- | []]. auto.
  - intros k d [].
  - auto.
Qed.

Lemma BReach_skip (st : BuildState) (c : Path) (rest : list Path) :
  BReach st -> b_queue st = c :: rest ->
  In c (b_visited st) \/
    (is_relative_to c project_root = false /\
     forall k d, edge (b_graph st) k d -> is_relative_to d project_root = true) ->
  BReach (mkBuild (b_graph st) (b_all_files st) rest (b_visited st)).
Proof.
  intros H Hq Hc. constructor; simpl; try apply H.
  - destruct (br_first st H) as [(Hv & Hqq) | Hm]; [left | right; assumption].
    split; [assumption |]. right. rewrite Hq in Hqq.
    destruct Hqq as [Hqq | Hqq]; [| discriminate]. inversion Hqq. reflexivity.
  - intros q Hin. apply (br_queue st H). rewrite Hq. simpl. auto.
  - intros k d Hk He. destruct (br_closed st H k d Hk He) as [G | G]; [auto |].
    rewrite Hq in G. destruct G as [<- | G]; [| auto].
    destruct Hc as [Hc | (Hc & Hall)]; [auto |].
    rewrite (Hall k c He) in Hc. discriminate.
  - destruct (br_main st H) as [G | [G | G]]; auto.
    rewrite Hq in G. destruct G as [<- | G]; [| auto].
    destruct Hc as [Hc | (Hc & _)]; auto.
Qed.

Lemma BReach_visit (st : BuildState) (c : Path) (rest : list Path) :
  BInv st -> BReach st -> b_queue st = c :: rest ->
  ~ In c (b_visited st) ->
  BReach (mkBuild
            (dict_set (b_graph st) c (find_imports env c project_root))
            (set_add c (b_all_files st))
            (rest ++ filter (fun dep => negb (mem dep (set_add c (b_visited st))))
                            (set_iter env (find_imports env c project_root)))
            (set_add c (b_visited st))).
Proof.
  intros I H Hq Hc.
  assert (Hk : ~ In c (keys (b_graph st))) by (rewrite (bi_keys st I); assumption).
  assert (Hrc : reachable (dict_set (b_graph st) c (find_imports env c project_root)) m c).
  { destruct (br_queue st H c) as [-> | (k & Hkv & He)].
    - rewrite Hq. simpl. auto.
    - apply reach_here.
    - eapply reach_step.
      + apply reachable_dict_set; [assumption |]. apply (br_reach st H). exact Hkv.
      + apply edge_dict_set; assumption. }
  rewrite (set_add_fresh _ _ Hc).
  constructor; simpl.
  - right. destruct (br_first st H) as [(Hv & Hqq) | (ks & Hm)].
    + rewrite Hq in Hqq. destruct Hqq as [Hqq | Hqq]; [| discriminate].
      inversion Hqq; subst. rewrite Hv. exists []. reflexivity.
    + rewrite Hm. exists (ks ++ [c]). reflexivity.
  - intros k Hin. apply in_app_or in Hin. destruct Hin as [Hin | [<- | []]].
    + apply reachable_dict_set; [assumption |]. apply (br_reach st H). assumption.
    + assumption.
  - intros q Hin. apply in_app_or in Hin. destruct Hin as [Hin | Hin].
    + destruct (br_queue st H q) as [-> | (k & Hkv & He)].
      * rewrite Hq. simpl. auto.
      * auto.
      * right. exists k. split; [apply in_or_app; auto |].
        apply edge_dict_set; assumption.
    + apply filter_In in Hin. destruct Hin as [Hin _].
      apply (proj1 (set_iter_spec _ _)) in Hin.
      right. exists c. split; [apply in_or_app; simpl; auto |].
      unfold edge. rewrite dict_get_set, path_eqb_refl. assumption.
  - intros k d Hin He. unfold edge in He. rewrite dict_get_set in He.
    destruct (in_dec path_eq_dec d (b_visited st ++ [c])) as [Hd | Hd]; [auto |].
    right. apply in_app_or in Hin. destruct Hin as [Hin | [<- | []]].
    + rewrite path_eqb_neq in He by (intros ->; contradiction).
      destruct (br_closed st H k d Hin He) as [G | G].
      * exfalso. apply Hd. apply in_or_app. auto.
      * rewrite Hq in G. destruct G as [<- | G].
        -- exfalso. apply Hd. apply in_or_app. simpl. auto.
        -- apply in_or_app. auto.
    + rewrite path_eqb_refl in He. apply in_or_app. right.
      apply filter_In. split; [apply (proj2 (set_iter_spec _ _)); assumption |].
      apply negb_true_iff. apply mem_false_iff. assumption.
  - destruct (br_main st H) as [G | [G | G]]; auto.
    + left. apply in_or_app. auto.
    + rewrite Hq in G. destruct G as [<- | G].
      * left. apply in_or_app. simpl. auto.
      * right. left. apply in_or_app. auto.
Qed.

Lemma edges_under_root (st : BuildState) :
  BInv st ->
  forall k d, edge (b_graph st) k d -> is_relative_to d project_root = true.
Proof.
  intros I k d He. pose proof (edge_nodes _ _ _ He) as [Hk _].
  rewrite (bi_keys st I) in Hk. unfold edge in He.
  rewrite (bi_values st I k Hk) in He.
  eapply find_imports_under_root. eassumption.
Qed.

Lemma build_loop_reach (fuel : nat) :
  forall st st', BInv st -> BReach st ->
                 build_loop env project_root fuel st = Some st' -> BReach st'.
Proof.
  induction fuel as [| fuel IH]; intros st st' I H Hrun; simpl in Hrun; [discriminate |].
  destruct (b_queue st) as [| c rest] eqn:Hq.
  - inversion Hrun; subst. assumption.
  - destruct (mem c (b_visited st)) eqn:Ev.
    + apply mem_true_iff in Ev. apply IH in Hrun; [assumption | |].
      * apply BInv_skip. assumption.
      * eapply BReach_skip; eauto.
    + apply mem_false_iff in Ev.
      destruct (is_relative_to c project_root) eqn:Er; simpl in Hrun.
      * apply IH in Hrun; [assumption | |].
        -- apply BInv_visit; assumption.
        -- apply BReach_visit; assumption.
      * apply IH in Hrun; [assumption | |].
        -- apply BInv_skip. assumption.
        -- eapply BReach_skip; eauto. right. split; [assumption |].
           apply edges_under_root. assumption.
Qed.

(** More fuel does not change what the loop returns. *)
Lemma build_loop_more_fuel (fuel : nat) :
  forall fuel' st st', fuel <= fuel' ->
    build_loop env project_root fuel st = Some st' ->
    build_loop env project_root fuel' st = Some st'.
Proof.
  induction fuel as [| fuel IH]; intros fuel' st st' Hle Hrun; simpl in Hrun;
    [discriminate |].
  destruct fuel' as [| fuel']; [lia |]. simpl.
  destruct (b_queue st) as [| c rest]; [assumption |].
  destruct (mem c (b_visited st)); [apply IH; [lia | assumption] |].
  destruct (negb (is_relative_to c project_root)); apply IH; try lia; assumption.
Qed.

(** *** Termination on a finite project *)

Variable universe : list Path.

(** Every path the analyzer can return belongs to a finite collection:
    the project has finitely many files. *)
Hypothesis finite : forall p d, In d (find_imports env p project_root) -> In d universe.

Definition unseen (visited : list Path) : nat :=
  List.length (filter (fun x => negb (mem x visited)) (m :: universe)).

Lemma unseen_visit (visited : list Path) (c : Path) :
  In c (m :: universe) -> ~ In c visited ->
  unseen (visited ++ [c]) < unseen visited.
Proof.
  intros Hc Hv. unfold unseen. apply filter_length_lt with (x := c).
  - intros y Hy. apply negb_true_iff in Hy. apply negb_true_iff.
    apply mem_false_iff in Hy. apply mem_false_iff.
    intros F. apply Hy. apply in_or_app. auto.
  - assumption.
  - apply negb_true_iff. apply mem_false_iff. assumption.
  - apply negb_false_iff. apply mem_true_iff. apply in_or_app. simpl. auto.
Qed.

Lemma build_loop_terminates (n : nat) :
  forall queue graph all_files visited,
    unseen visited <= n ->
    (forall q, In q queue -> In q (m :: universe)) ->
    exists fuel st',
      build_loop env project_root fuel (mkBuild graph all_files queue visited) = Some st'.
Proof.
  induction n as [| n IHn]; intros queue; induction queue as [| c rest IHq];
    intros graph all_files visited Hn Hq.
  - exists 1. eexists. reflexivity.
  - destruct (mem c visited) eqn:Ev;
      [| destruct (is_relative_to c project_root) eqn:Er].
    + destruct (IHq graph all_files visited Hn (fun q H => Hq q (or_intror H)))
        as (fuel & st' & E).
      exists (S fuel), st'. simpl. rewrite Ev. assumption.
    + apply mem_false_iff in Ev.
      pose proof (unseen_visit visited c (Hq c (or_introl eq_refl)) Ev). lia.
    + destruct (IHq graph all_files visited Hn (fun q H => Hq q (or_intror H)))
        as (fuel & st' & E).
      exists (S fuel), st'. simpl. rewrite Ev, Er. simpl. assumption.
  - exists 1. eexists. reflexivity.
  - destruct (mem c visited) eqn:Ev;
      [| destruct (is_relative_to c project_root) eqn:Er].
    + destruct (IHq graph all_files visited Hn (fun q H => Hq q (or_intror H)))
        as (fuel & st' & E).
      exists (S fuel), st'. simpl. rewrite Ev. assumption.
    + pose proof Ev as Ev'. apply mem_false_iff in Ev'.
      pose proof (unseen_visit visited c (Hq c (or_introl eq_refl)) Ev') as Hlt.
      destruct (IHn (rest ++ filter (fun dep => negb (mem dep (set_add c visited)))
                                    (set_iter env (find_imports env c project_root)))
                  (dict_set graph c (find_imports env c project_root))
                  (set_add c all_files) (set_add c visited)) as (fuel & st' & E).
      * rewrite (set_add_fresh _ _ Ev'). lia.
      * intros q Hin. apply in_app_or in Hin. destruct Hin as [Hin | Hin].
        -- apply Hq. simpl. auto.
        -- apply filter_In in Hin. destruct Hin as [Hin _].
           apply (proj1 (set_iter_spec _ _)) in Hin. right. eapply finite. eassumption.
      * exists (S fuel), st'. simpl. rewrite Ev, Er. simpl. assumption.
    + destruct (IHq graph all_files visited Hn (fun q H => Hq q (or_intror H)))
        as (fuel & st' & E).
      exists (S fuel), st'. simpl. rewrite Ev, Er. simpl. assumption.
Qed.

End BuildFacts.

(** ** What [build_dependency_graph] returns *)

Lemma build_graph_content (env : Env) (fuel : nat) (main_file_path project_root : Path)
  (graph : Graph) (all_files : list Path) :
  build_dependency_graph env fuel main_file_path project_root = Some (graph, all_files) ->
  NoDup (keys graph) /\
  all_files = set_iter env (keys graph) /\
  (forall k, In k (keys graph) -> is_relative_to k project_root = true) /\
  (forall k, In k (keys graph) -> dict_get graph k = find_imports env k project_root).
Proof.
  unfold build_dependency_graph.
  destruct (build_loop _ _ _ _) as [st |] eqn:E; [| discriminate].
  intros H. inversion H; subst; clear H.
  apply build_loop_inv in E; [| apply BInv_init].
  destruct E as (I & _). rewrite (bi_keys _ _ _ I).
  split; [apply I |]. split; [rewrite (bi_all _ _ _ I); reflexivity |].
  split; apply I.
Qed.

Lemma build_graph_shape (env : Env) (fuel : nat) (main_file_path project_root : Path)
  (graph : Graph) (all_files : list Path) :
  (forall l x, In x (set_iter env l) <-> In x l) ->
  build_dependency_graph env fuel main_file_path project_root = Some (graph, all_files) ->
  (keys graph = [] \/ exists ks, keys graph = resolve env main_file_path :: ks) /\
  (forall k, In k (keys graph) -> reachable graph (resolve env main_file_path) k) /\
  (forall k d, edge graph k d -> In d (keys graph)) /\
  (In (resolve env main_file_path) (keys graph) \/
   is_relative_to (resolve env main_file_path) project_root = false).
Proof.
  intros Hiter. unfold build_dependency_graph.
  destruct (build_loop _ _ _ _) as [st |] eqn:E; [| discriminate].
  intros H. inversion H; subst; clear H.
  pose proof (build_loop_inv env project_root fuel _ _
                (BInv_init env project_root _) E) as (I & Hq).
  pose proof (build_loop_reach env project_root (resolve env main_file_path) Hiter fuel _ _
                (BInv_init env project_root _) (BReach_init _ _) E) as R.
  rewrite (bi_keys _ _ _ I).
  split; [| split; [| split]].
  - destruct (br_first _ _ _ R) as [(Hv & _) | Hm]; auto.
  - apply R.
  - intros k d He. pose proof (edge_nodes _ _ _ He) as [Hk _].
    rewrite (bi_keys _ _ _ I) in Hk.
    destruct (br_closed _ _ _ R k d Hk He) as [G | G]; [assumption |].
    rewrite Hq in G. destruct G.
  - destruct (br_main _ _ _ R) as [G | [G | G]]; auto.
    rewrite Hq in G. destruct G.
Qed.

(** ** Moving the main file to the end *)

Lemma remove_first_In (p x : Path) (l : list Path) :
  In x (remove_first p l) -> In x l.
Proof.
  induction l as [| a l IH]; simpl; [auto |].
  destruct (path_eqb a p); simpl; intuition.
Qed.

Lemma In_remove_first (p x : Path) (l : list Path) :
  x <> p -> In x l -> In x (remove_first p l).
Proof.
  intros Hx. induction l as [| a l IH]; simpl; [auto |].
  destruct (path_eqb a p) eqn:E.
  - apply path_eqb_true_iff in E. intros [-> | H]; [contradiction | assumption].
  - simpl. intuition.
Qed.

Lemma remove_first_NoDup (p : Path) (l : list Path) :
  NoDup l -> NoDup (remove_first p l) /\ ~ In p (remove_first p l).
Proof.
  induction l as [| a l IH]; simpl; intros H.
  - split; [constructor | intros []].
  - inversion H as [| ? ? Ha Hl]; subst. destruct (path_eqb a p) eqn:E.
    + apply path_eqb_true_iff in E. subst. auto.
    + destruct (IH Hl) as (N & Hp). split.
      * constructor; [| assumption]. intros F. apply Ha. eapply remove_first_In. eassumption.
      * intros [-> | F]; [rewrite path_eqb_refl in E; discriminate | contradiction].
Qed.

Lemma precedes_remove_first (p v u : Path) (l : list Path) :
  v <> p -> u <> p -> precedes v u l -> precedes v u (remove_first p l).
Proof.
  intros Hv Hu. unfold precedes. induction l as [| a l IH]; simpl; [intros [[] _] |].
  intros [Hin Hlt]. destruct (path_eqb a p) eqn:Ep.
  - apply path_eqb_true_iff in Ep. subst a.
    rewrite (path_eqb_neq p v) in Hlt by congruence.
    rewrite (path_eqb_neq p u) in Hlt by congruence.
    destruct Hin as [-> | Hin]; [congruence |]. split; [assumption | lia].
  - simpl. destruct (path_eqb a u) eqn:Eu; [destruct (path_eqb a v); lia |].
    destruct Hin as [-> | Hin]; [rewrite path_eqb_refl in Eu; discriminate |].
    destruct (path_eqb a v) eqn:Ev.
    + split; [right; apply In_remove_first; assumption | lia].
    + destruct IH as (G1 & G2); [split; [assumption | lia] |].
      split; [right; assumption | lia].
Qed.

Lemma main_last_NoDup (main_path : Path) (sorted_files : list Path) :
  NoDup sorted_files -> NoDup (main_last main_path sorted_files).
Proof.
  intros H. unfold main_last. destruct (mem main_path sorted_files) eqn:E.
  - destruct (remove_first_NoDup main_path sorted_files H). apply NoDup_snoc; assumption.
  - apply mem_false_iff in E. apply NoDup_snoc; assumption.
Qed.

Lemma main_last_In (main_path x : Path) (sorted_files : list Path) :
  In x (main_last main_path sorted_files) <-> x = main_path \/ In x sorted_files.
Proof.
  unfold main_last. rewrite in_app_iff. simpl.
  destruct (mem main_path sorted_files) eqn:E.
  - apply mem_true_iff in E. split.
    + intros [H | [<- | []]]; [right; eapply remove_first_In; eassumption | auto].
    + intros [-> | H]; [auto |].
      destruct (path_eq_dec x main_path) as [-> | N]; [auto |].
      left. apply In_remove_first; assumption.
  - intuition.
Qed.

Lemma main_last_precedes (main_path v u : Path) (sorted_files : list Path) :
  NoDup sorted_files -> v <> main_path ->
  precedes v u sorted_files -> precedes v u (main_last main_path sorted_files).
Proof.
  intros N Hv H. unfold main_last. destruct (mem main_path sorted_files) eqn:E.
  - destruct (path_eq_dec u main_path) as [-> | Hu].
    + apply precedes_last.
      * apply In_remove_first; [assumption |]. eapply precedes_In_l. eassumption.
      * apply (remove_first_NoDup main_path sorted_files N).
    + apply precedes_app. apply precedes_remove_first; assumption.
  - apply precedes_app. assumption.
Qed.

Lemma main_last_is_last (main_path : Path) (sorted_files : list Path) :
  NoDup sorted_files -> is_last main_path (main_last main_path sorted_files).
Proof.
  intros N. unfold main_last, is_last. destruct (mem main_path sorted_files) eqn:E.
  - exists (remove_first main_path sorted_files). split; [reflexivity |].
    apply (remove_first_NoDup main_path sorted_files N).
  - apply mem_false_iff in E. exists sorted_files. auto.
Qed.

(** ** The order of the bundle *)

Lemma dict_get_entry (graph : Graph) (k : Path) (deps : list Path) :
  NoDup (keys graph) -> In (k, deps) graph -> dict_get graph k = deps.
Proof.
  induction graph as [| [a d] g IH]; simpl; intros N H; [destruct H |].
  inversion N as [| ? ? Ha Ng]; subst. destruct H as [H | H].
  - inversion H; subst. rewrite path_eqb_refl. reflexivity.
  - rewrite path_eqb_neq; [apply IH; assumption |].
    intros ->. apply Ha. unfold keys. apply in_map_iff. exists (k, deps). auto.
Qed.

Lemma descending_chain (l : list Path) (rest : list Path) :
  forall v w,
    (forall a b, In (a, b) (combine (v :: rest) (rest ++ [w])) -> precedes b a l) ->
    precedes w v l.
Proof.
  induction rest as [| x rest IH]; intros v w H.
  - apply H. simpl. auto.
  - apply precedes_trans with (b := x).
    + apply IH. intros a b Hab. apply H. simpl. simpl in Hab. auto.
    + apply H. simpl. auto.
Qed.

Lemma some_pair_reported (cycles pairs : list (Path * Path)) (P : Path * Path -> Prop) :
  (forall e, In e pairs -> In e cycles \/ P e) ->
  (exists e, In e pairs /\ In e cycles) \/ (forall e, In e pairs -> P e).
Proof.
  induction pairs as [| e pairs IH]; intros H.
  - right. intros e [].
  - destruct IH as [(e' & H1 & H2) | Hall].
    + intros x Hx. apply H. simpl. auto.
    + left. exists e'. simpl. auto.
    + destruct (H e (or_introl eq_refl)) as [G | G].
      * left. exists e. simpl. auto.
      * right. intros x [<- | Hx]; auto.
Qed.

Lemma NoDup_In_once (l : list Path) (x : Path) :
  NoDup l -> In x l -> count_occ path_eq_dec l x = 1.
Proof.
  intros N H. apply (proj1 (NoDup_count_occ' path_eq_dec l) N). assumption.
Qed.

(** * The claims about the order of the bundle *)

(** C1. In the graph built for a run, every dependency edge [u -> v] that
    the sort does not report among its cycle edges has [v] before [u] in
    the final order of the bundle; so has every edge that lies on no cycle
    at all; and the main file is the last path of that order. [main_path]
    is the canonical path of the main file. *)
Theorem bundle_order_respects_dependencies
  (env : Env) (fuel : nat) (main_path project_root : Path)
  (graph : Graph) (order : list Path) (cycles : list (Path * Path)) :
  (forall l x, In x (set_iter env l) <-> In x l) ->
  resolve env main_path = main_path ->
  bundle_order env fuel main_path project_root = Some (graph, order, cycles) ->
  (forall u v, edge graph u v -> ~ In (u, v) cycles -> precedes v u order) /\
  (forall u v, edge graph u v -> ~ reachable graph v u -> precedes v u order) /\
  is_last main_path order.
Proof.
  intros Hiter Hcanon. unfold bundle_order.
  destruct (build_dependency_graph env fuel main_path project_root)
    as [[g files] |] eqn:B; [| discriminate].
  destruct (topological_sort env g) as [[sorted cyc] |] eqn:T; [| discriminate].
  intros H. inversion H; subst; clear H.
  destruct (build_graph_shape env fuel main_path project_root graph files Hiter B)
    as (Hfirst & Hreach & _ & _).
  rewrite Hcanon in Hfirst, Hreach.
  destruct (topological_sort_spec env graph Hiter sorted cycles T)
    as (N & _ & _ & Hord & _).
  split; [| split; [| apply main_last_is_last; assumption]].
  - intros u v He Hn. apply main_last_precedes; [assumption | |].
    + intros ->. apply Hn.
      destruct Hfirst as [Hnil | (ks & Hks)].
      * pose proof (edge_nodes graph u main_path He) as [Hu _].
        rewrite Hnil in Hu. destruct Hu.
      * eapply topological_sort_entry; eassumption.
    + destruct (Hord u v He) as [G | G]; [contradiction | assumption].
  - intros u v He Hn. apply main_last_precedes; [assumption | |].
    + intros ->. apply Hn. apply Hreach. apply (edge_nodes graph u main_path He).
    + eapply topological_sort_acyclic_edges; eassumption.
Qed.

Lemma bundle_order_respects_dependencies_witness :
  (forall u v,
     edge [(Sample.a_py, [Sample.b_py]); (Sample.b_py, [Sample.a_py])] u v ->
     ~ In (u, v) [(Sample.b_py, Sample.a_py)] ->
     precedes v u [Sample.b_py; Sample.a_py]) /\
  (forall u v,
     edge [(Sample.a_py, [Sample.b_py]); (Sample.b_py, [Sample.a_py])] u v ->
     ~ reachable [(Sample.a_py, [Sample.b_py]); (Sample.b_py, [Sample.a_py])] v u ->
     precedes v u [Sample.b_py; Sample.a_py]) /\
  is_last Sample.a_py [Sample.b_py; Sample.a_py].
Proof.
  apply (bundle_order_respects_dependencies
           (Sample.project Sample.mutual [] Sample.in_order) 10
           Sample.a_py Sample.root).
  - intros l x. reflexivity.
  - reflexivity.
  - vm_compute. reflexivity.
Defined.

Lemma sort_phase_total (env : Env) (graph : Graph) (main_path project_root : Path) :
  (forall l x, In x (set_iter env l) <-> In x l) ->
  exists r, sort_phase env graph main_path project_root = Some r.
Proof.
  intros Hiter. unfold sort_phase.
  destruct (topological_sort_total env graph Hiter) as (sorted & cycles & T).
  rewrite T.
  repeat match goal with
         | |- context [match ?x with _ => _ end] => destruct x
         | |- context [let (_, _) := ?x in _] => destruct x
         end; eexists; reflexivity.
Qed.

Lemma build_dependency_graph_total (env : Env) (main_path project_root : Path)
  (universe : list Path) :
  (forall l x, In x (set_iter env l) <-> In x l) ->
  (forall c, is_file env c = Ok true -> In (resolve env c) universe) ->
  exists fuel graph all_files,
    build_dependency_graph env fuel main_path project_root = Some (graph, all_files).
Proof.
  intros Hiter Hfin.
  assert (Hfin' : forall p d, In d (find_imports env p project_root) -> In d universe).
  { intros p d Hd. destruct (find_imports_local env p project_root d Hd)
      as (_ & c & Hc & <-). apply Hfin. assumption. }
  destruct (build_loop_terminates env project_root (resolve env main_path) Hiter
              universe Hfin'
              (unseen (resolve env main_path) universe [])
              [resolve env main_path] [] [] [] (le_n _))
    as (fuel & st & E).
  { intros q [<- | []]. simpl. auto. }
  exists fuel, (b_graph st), (set_iter env (b_all_files st)).
  unfold build_dependency_graph. rewrite E. reflexivity.
Qed.

Lemma run_bundling_process_total (env : Env) (main_py_file output_txt_file : Path)
  (universe : list Path) :
  (forall l x, In x (set_iter env l) <-> In x l) ->
  (forall c, is_file env c = Ok true -> In (resolve env c) universe) ->
  exists fuel outcome,
    run_bundling_process env fuel main_py_file output_txt_file = Some outcome.
Proof.
  intros Hiter Hfin. unfold run_bundling_process.
  destruct (is_file env (resolve env main_py_file)) as [[|] | e0];
    [| exists 0; eexists; reflexivity | exists 0; eexists; reflexivity].
  destruct (find_project_root env (resolve env main_py_file)) as [found | e1];
    [| exists 0; eexists; reflexivity].
  set (project_root := match found with
                       | Some r => r
                       | None => parent (resolve env main_py_file)
                       end).
  destruct (build_dependency_graph_total env (resolve env main_py_file) project_root
              universe Hiter Hfin) as (fuel & graph & all_files & B).
  exists fuel.
  assert (G : forall lines,
             exists outcome,
               match build_dependency_graph env fuel (resolve env main_py_file) project_root with
               | Some (graph, all_files) =>
                   let (ls, r) := log_relative project_root all_files in
                   let lines := lines ++ [Str.nl +s+ "Identified Project Files:"] ++ ls in
                   match r with
                   | Ok _ =>
                       let lines := lines ++ [EmptyString] in
                       match sort_phase env graph (resolve env main_py_file) project_root with
                       | Some (sorted_files, ls, r) =>
                           let lines := lines ++ ls in
                           match r with
                           | Ok _ =>
                               match create_combined_file env sorted_files
                                       (resolve env output_txt_file) project_root with
                               | (written, Ok _) =>
                                   Some (mkOutcome (Ok true) written
                                           (lines ++ [Str.nl +s+ "Bundling process finished. Output: "
                                                        +s+ str (resolve env output_txt_file)]))
                               | (written, Raise e) =>
                                   Some (failure env written lines "Error creating combined file: " e)
                               end
                           | Raise e =>
                               Some (failure env None lines "Error during topological sort: " e)
                           end
                       | None => None
                       end
                   | Raise e => Some (failure env None lines "Error building dependency graph: " e)
                   end
               | None => None
               end = Some outcome).
  { intros lines. rewrite B.
    destruct (log_relative project_root all_files) as [ls [[] | e2]];
      [| eexists; reflexivity].
    destruct (sort_phase_total env graph (resolve env main_py_file) project_root Hiter)
      as ([[sorted ls3] r3] & P).
    rewrite P. destruct r3 as [[] | e3]; [| eexists; reflexivity].
    destruct (create_combined_file env sorted (resolve env output_txt_file) project_root)
      as [written [[] | e4]]; eexists; reflexivity. }
  unfold project_root in G. destruct found as [root |]; apply G.
Qed.


Lemma sample_files_listed (files : list Sample.SourceFile) (links : list (Path * Path))
  (iter : list Path -> list Path) (c : Path) :
  is_file (Sample.project files links iter) c = Ok true ->
  In (resolve (Sample.project files links iter) c) (map Sample.src_path files).
Proof.
  simpl. unfold Sample.lookup.
  destruct (find _ files) as [f |] eqn:E; [| discriminate].
  intros _. apply find_some in E. destruct E as (Hin & Heq).
  apply path_eqb_true_iff in Heq. rewrite <- Heq.
  apply in_map. assumption.
Qed.




(** * The claim about the project root *)

(** C4. In the graph [build_dependency_graph] returns, every key and every
    member of every dependency set lies under the project root; the
    resolver never returns a path outside it, so that a path outside the
    root is neither a key nor the target of an edge. *)
Theorem built_graph_under_root
  (env : Env) (fuel : nat) (main_file_path project_root : Path)
  (graph : Graph) (all_files : list Path) :
  build_dependency_graph env fuel main_file_path project_root = Some (graph, all_files) ->
  (forall k, In k (keys graph) -> is_relative_to k project_root = true) /\
  (forall k deps d, In (k, deps) graph -> In d deps ->
     is_relative_to d project_root = true) /\
  (forall file_path module_name level p,
     _resolve_module env file_path project_root module_name level = Ok (Some p) ->
     is_relative_to p project_root = true) /\
  (forall p, is_relative_to p project_root = false ->
     ~ In p (keys graph) /\ forall k, ~ edge graph k p).
Proof.
  intros B.
  destruct (build_graph_content env fuel main_file_path project_root graph all_files B)
    as (N & _ & Hroot & Hval).
  assert (Hedge : forall k d, edge graph k d -> is_relative_to d project_root = true).
  { intros k d He. pose proof (edge_nodes graph k d He) as [Hk _].
    unfold edge in He. rewrite (Hval k Hk) in He.
    eapply find_imports_under_root. eassumption. }
  split; [assumption |]. split; [| split].
  - intros k deps d Hin Hd. apply (Hedge k d). unfold edge.
    rewrite (dict_get_entry graph k deps N Hin). assumption.
  - intros file_path module_name level p. apply _resolve_module_under_root.
  - intros p Hp. split.
    + intros Hin. rewrite (Hroot p Hin) in Hp. discriminate.
    + intros k He. rewrite (Hedge k p He) in Hp. discriminate.
Qed.

Lemma built_graph_under_root_witness :
  (forall k, In k (keys [(linked_main, [])]) -> is_relative_to k Sample.root = true) /\
  (forall k deps d, In (k, deps) [(linked_main, @nil Path)] -> In d deps ->
     is_relative_to d Sample.root = true) /\
  (forall file_path module_name level p,
     _resolve_module linked file_path Sample.root module_name level = Ok (Some p) ->
     is_relative_to p Sample.root = true) /\
  (forall p, is_relative_to p Sample.root = false ->
     ~ In p (keys [(linked_main, [])]) /\
     forall k, ~ edge [(linked_main, [])] k p).
Proof.
  apply (built_graph_under_root linked 5 linked_main Sample.root
           [(linked_main, [])] [linked_main]).
  vm_compute. reflexivity.
Defined.

(** * The claim about relative levels *)

Lemma parent_length (p : Path) : List.length (parent p) = Nat.pred (List.length p).
Proof.
  unfold parent. rewrite removelast_firstn_len, length_firstn. lia.
Qed.

Lemma iter_parent_length (n : nat) (p : Path) :
  List.length (Nat.iter n parent p) = List.length p - n.
Proof.
  induction n as [| n IH]; simpl; [lia |].
  rewrite parent_length, IH. lia.
Qed.

Lemma base_dir_saturates (file_path : Path) (level : nat) :
  List.length file_path <= level ->
  Nat.iter (level - 1) parent (parent file_path) = [].
Proof.
  intros H. apply length_zero_iff_nil.
  rewrite iter_parent_length, parent_length. lia.
Qed.

Lemma segments_nonempty (parts : list string) (x : string) :
  In x (segments parts) -> Str.is_empty x = false.
Proof.
  unfold segments. intros H. apply filter_In in H. destruct H as [_ H].
  apply andb_true_iff in H. destruct H as [H _]. apply negb_true_iff in H. assumption.
Qed.

Lemma with_suffix_joinpath (dir : Path) (parts : list string) (suf : string) :
  segments parts <> [] -> exists c, with_suffix (joinpath dir parts) suf = Ok c.
Proof.
  intros H. destruct (exists_last H) as (l' & a & E).
  assert (Ha : Str.is_empty a = false).
  { apply (segments_nonempty parts). rewrite E. apply in_or_app. simpl. auto. }
  unfold with_suffix, joinpath, name. rewrite E, app_assoc, last_last, Ha.
  eexists. reflexivity.
Qed.

Lemma split_empty_name (module_name : string) :
  segments (Str.split Str.dot module_name) <> [] -> Str.is_empty module_name = false.
Proof.
  destruct module_name; [simpl; congruence | reflexivity].
Qed.




(** The same level with the empty dotted name, [from ..... import x]: the
    root of the file system has no name to put a suffix on, and the
    resolver raises. *)
Example level_beyond_the_root_bare_import :
  exists e,
    _resolve_module (Sample.project Sample.mutual [] Sample.in_order)
      deep_file Sample.root "" 5 = Raise e /\ exn_class e = ValueError.
Proof. eexists. vm_compute. split; reflexivity. Qed.

(** * The claims about the orchestrator *)



(** * The claim about the bundle *)

Lemma append_assoc (a b c : string) : (a +s+ b) +s+ c = a +s+ (b +s+ c).
Proof. induction a as [| x a IH]; simpl; [reflexivity | rewrite IH; reflexivity]. Qed.

Lemma append_empty_r (a : string) : a +s+ EmptyString = a.
Proof. induction a as [| x a IH]; simpl; [reflexivity | rewrite IH; reflexivity]. Qed.

Lemma replace_removes (a b : ascii) (s : string) :
  a <> b -> Str.contains a (Str.replace a b s) = false.
Proof.
  intros H. induction s as [| c s IH]; simpl; [reflexivity |].
  rewrite IH, orb_false_r. unfold Str.eqb_ascii.
  destruct (Ascii.eqb c a) eqn:E.
  - apply Ascii.eqb_neq. congruence.
  - assumption.
Qed.

Lemma endswith_appended (c : ascii) (s : string) :
  Str.endswith c (s +s+ String c EmptyString) = true.
Proof.
  induction s as [| d s IH]; simpl.
  - apply Ascii.eqb_refl.
  - destruct (s +s+ String c EmptyString) eqn:E; [| assumption].
    destruct s; discriminate.
Qed.

Lemma write_file_block (env : Env) (project_root file_path : Path)
  (written : string) (rel : option string) :
  is_relative_to file_path project_root = true ->
  write_file env project_root file_path written rel
  = Ok (written +s+ spec_block env project_root file_path,
        Some (relative_name project_root file_path)).
Proof.
  intros H. unfold write_file, relative_to, spec_block, relative_name, with_final_newline.
  rewrite H. cbv beta iota zeta.
  destruct (read_text env file_path) as [content | e]; cbv beta iota zeta.
  - destruct (Str.endswith Str.newline content); rewrite !append_assoc; reflexivity.
  - unfold handle_read_error, bind.
    destruct (is_FileNotFoundError e); rewrite !append_assoc; reflexivity.
Qed.

Lemma write_files_blocks (env : Env) (project_root : Path) (files : list Path) :
  forall written rel,
    (forall f, In f files -> is_relative_to f project_root = true) ->
    write_files env project_root files written rel
    = (written +s+ concat_blocks (map (spec_block env project_root) files), Ok tt).
Proof.
  induction files as [| f files IH]; intros written rel H; cbn [write_files map concat_blocks].
  - rewrite append_empty_r. reflexivity.
  - rewrite write_file_block by (apply H; simpl; auto).
    rewrite IH by (intros x Hx; apply H; simpl; auto).
    rewrite append_assoc. reflexivity.
Qed.



(** * The claim about the two variants *)

(** C10. The two variants do not classify every import alike. The bare
    relative import [from . import helpers] is a dependency on the package
    init file for the core and nothing for the command-line variant, which
    drops every import without a module name; [import json] beside a local
    [json.py] is external for the core, which asks the interpreter, and
    local for the command-line variant, which only knows the modules
    compiled into the interpreter. *)
Theorem variants_classify_differently :
  (exists env file_path project_root stmt,
     core_local env file_path project_root stmt = true /\
     cli_local env file_path project_root stmt = false) /\
  (exists env file_path project_root stmt,
     core_local env file_path project_root stmt = false /\
     cli_local env file_path project_root stmt = true).
Proof.
  split.
  - exists (Sample.project package [] Sample.in_order), pkg_mod, Sample.root,
      (ImportFrom None 1).
    split; vm_compute; reflexivity.
  - exists shadowing, shadow_main, Sample.root, (Import ["json"%string]).
    split; vm_compute; reflexivity.
Qed.

(** C6 at an input where the code departs from it: the exception raised
    while the project root is looked for is not caught by
    [run_bundling_process]. The call ends in that exception, not in
    [False], and nothing but the first progress line was delivered. *)
Theorem root_location_exception_escapes (fuel : nat) :
  run_bundling_process locked fuel Sample.a_py Sample.out_txt
  = Some (mkOutcome (Raise permission_denied) None
            ["Starting bundling process..."%string]).
Proof. destruct fuel; vm_compute; reflexivity. Qed.

(** Once the main file has been probed and the root located, the call
    always ends in a boolean: whatever is raised later is caught. *)
Lemma run_returns_after_root_location
  (env : Env) (fuel : nat) (main_py_file output_txt_file : Path)
  (found : option Path) (outcome : Outcome) :
  is_file env (resolve env main_py_file) = Ok true ->
  find_project_root env (resolve env main_py_file) = Ok found ->
  run_bundling_process env fuel main_py_file output_txt_file = Some outcome ->
  exists b, returned outcome = Ok b.
Proof.
  intros Hfile Hroot. unfold run_bundling_process. rewrite Hfile, Hroot.
  destruct found as [root |];
    repeat match goal with
           | |- Some _ = Some _ -> _ => intros H; inversion H; subst; clear H
           | |- None = Some _ -> _ => discriminate
           | |- context [match ?x with _ => _ end] => destruct x
           | |- context [let (_, _) := ?x in _] => destruct x
           end;
    simpl; eexists; reflexivity.
Qed.

(** An output that cannot be opened: the failure of the writer is caught,
    logged and turned into [False]. *)
Example unwritable_output_fails :
  exists outcome,
    run_bundling_process read_only 5 Sample.a_py Sample.out_txt = Some outcome /\
    returned outcome = Ok false /\
    output_file outcome = None /\
    In "Error creating combined file: [Errno 13] Permission denied: '/tmp/out.txt'"%string
       (progress outcome).
Proof.
  eexists. split; [vm_compute; reflexivity |].
  split; [reflexivity |]. split; [reflexivity |].
  simpl. repeat (try (left; reflexivity); right).
Qed.

(** * The claim about repeated runs *)

Lemma sorted_members (env : Env) (graph : Graph)
  (sorted_files : list Path) (cycles : list (Path * Path)) :
  (forall l x, In x (set_iter env l) <-> In x l) ->
  NoDup (keys graph) ->
  (forall k d, edge graph k d -> In d (keys graph)) ->
  topological_sort env graph = Some (sorted_files, cycles) ->
  forall x, In x sorted_files <-> In x (keys graph).
Proof.
  intros Hiter N Hclosed T.
  destruct (topological_sort_spec env graph Hiter sorted_files cycles T)
    as (_ & Hk & Hnodes & _).
  intros x. split; [| apply Hk].
  intros Hx. apply Hnodes in Hx. unfold nodes_of in Hx.
  apply in_app_or in Hx. destruct Hx as [Hx | Hx]; [assumption |].
  apply in_flat_map in Hx. destruct Hx as ([k deps] & Hin & Hd). simpl in Hd.
  apply (Hclosed k x). unfold edge. rewrite (dict_get_entry graph k deps N Hin).
  assumption.
Qed.

Lemma bundle_order_members (env : Env) (fuel : nat) (main_path project_root : Path)
  (graph : Graph) (order : list Path) (cycles : list (Path * Path)) :
  (forall l x, In x (set_iter env l) <-> In x l) ->
  bundle_order env fuel main_path project_root = Some (graph, order, cycles) ->
  NoDup order /\ forall x, In x order <-> x = main_path \/ In x (keys graph).
Proof.
  intros Hiter. unfold bundle_order.
  destruct (build_dependency_graph env fuel main_path project_root)
    as [[g files] |] eqn:B; [| discriminate].
  destruct (topological_sort env g) as [[sorted cyc] |] eqn:T; [| discriminate].
  intros H. inversion H; subst; clear H.
  destruct (build_graph_content env fuel main_path project_root graph files B)
    as (N & _).
  destruct (build_graph_shape env fuel main_path project_root graph files Hiter B)
    as (_ & _ & Hclosed & _).
  destruct (topological_sort_spec env graph Hiter sorted cycles T) as (Ns & _).
  split; [apply main_last_NoDup; assumption |].
  intros x. rewrite main_last_In.
  rewrite (sorted_members env graph sorted cycles Hiter N Hclosed T x). reflexivity.
Qed.

Lemma find_imports_with_set_iter (e : Env) (iter : list Path -> list Path)
  (file_path project_root : Path) :
  find_imports (with_set_iter e iter) file_path project_root
  = find_imports e file_path project_root.
Proof. reflexivity. Qed.

(** Whatever the order in which sets are iterated, the worklist discovers
    the same files. *)
Lemma same_keys (e : Env) (iter1 iter2 : list Path -> list Path)
  (fuel1 fuel2 : nat) (main_path project_root : Path)
  (g1 g2 : Graph) (a1 a2 : list Path) :
  (forall l x, In x (iter1 l) <-> In x l) ->
  (forall l x, In x (iter2 l) <-> In x l) ->
  build_dependency_graph (with_set_iter e iter1) fuel1 main_path project_root
  = Some (g1, a1) ->
  build_dependency_graph (with_set_iter e iter2) fuel2 main_path project_root
  = Some (g2, a2) ->
  forall k, In k (keys g1) -> In k (keys g2).
Proof.
  intros H1 H2 B1 B2.
  destruct (build_graph_content _ _ _ _ _ _ B1) as (_ & _ & Hroot1 & Hval1).
  destruct (build_graph_content _ _ _ _ _ _ B2) as (_ & _ & _ & Hval2).
  destruct (build_graph_shape (with_set_iter e iter1) fuel1 main_path project_root
              g1 a1 H1 B1) as (Hfirst1 & Hreach1 & _ & _).
  destruct (build_graph_shape (with_set_iter e iter2) fuel2 main_path project_root
              g2 a2 H2 B2) as (_ & _ & Hclosed2 & Hmain2).
  simpl in Hfirst1, Hreach1, Hmain2.
  intros k Hk.
  assert (Hm : In (resolve e main_path) (keys g2)).
  { destruct Hmain2 as [G | G]; [assumption |].
    destruct Hfirst1 as [Hnil | (ks & Hks)]; [rewrite Hnil in Hk; destruct Hk |].
    rewrite (Hroot1 (resolve e main_path)) in G; [discriminate |].
    rewrite Hks. simpl. auto. }
  specialize (Hreach1 k Hk).
  induction Hreach1 as [| u v Hu IH Huv]; [assumption |].
  pose proof (edge_nodes g1 u v Huv) as [Hu1 _].
  specialize (IH Hu1).
  apply (Hclosed2 u v). unfold edge in *.
  rewrite (Hval2 u IH). rewrite (Hval1 u Hu1) in Huv. exact Huv.
Qed.

(** Runs that iterate sets alike end alike. *)
Section SameIteration.

Variable e : Env.
Variables iter1 iter2 : list Path -> list Path.
Hypothesis same : forall l, iter1 l = iter2 l.

Lemma visit_each_ext (f g : Path -> SortState -> option SortState) (l : list Path) :
  (forall n st, f n st = g n st) ->
  forall st, visit_each f l st = visit_each g l st.
Proof.
  intros H. induction l as [| n l IH]; intros st; simpl; [reflexivity |].
  rewrite H. destruct (g n st); [apply IH | reflexivity].
Qed.

Lemma visit_same (graph : Graph) (fuel : nat) :
  forall n st,
    visit (with_set_iter e iter1) graph fuel n st
    = visit (with_set_iter e iter2) graph fuel n st.
Proof.
  induction fuel as [| fuel IH]; intros n st; [reflexivity |].
  cbn [visit]. unfold cycle_edges.
  change (set_iter (with_set_iter e iter1)) with iter1.
  change (set_iter (with_set_iter e iter2)) with iter2.
  rewrite !same.
  destruct (mem n (s_temp_visited st)); [reflexivity |].
  destruct (mem n (s_visited st)); [reflexivity |].
  rewrite (visit_each_ext _ _ _ IH). reflexivity.
Qed.

Lemma topological_sort_same (graph : Graph) :
  topological_sort (with_set_iter e iter1) graph
  = topological_sort (with_set_iter e iter2) graph.
Proof.
  unfold topological_sort.
  rewrite (visit_each_ext
             (visit_unvisited (with_set_iter e iter1) graph (S (List.length (nodes_of graph))))
             (visit_unvisited (with_set_iter e iter2) graph (S (List.length (nodes_of graph))))).
  - reflexivity.
  - intros n st. unfold visit_unvisited. rewrite visit_same. reflexivity.
Qed.

Lemma build_loop_same (project_root : Path) (fuel : nat) :
  forall st,
    build_loop (with_set_iter e iter1) project_root fuel st
    = build_loop (with_set_iter e iter2) project_root fuel st.
Proof.
  induction fuel as [| fuel IH]; intros st; [reflexivity |].
  cbn [build_loop].
  change (set_iter (with_set_iter e iter1)) with iter1.
  change (set_iter (with_set_iter e iter2)) with iter2.
  change (find_imports (with_set_iter e iter1)) with (find_imports e).
  change (find_imports (with_set_iter e iter2)) with (find_imports e).
  destruct (b_queue st) as [| c rest]; [reflexivity |].
  destruct (mem c (b_visited st)); [apply IH |].
  destruct (negb (is_relative_to c project_root)); [apply IH |].
  cbv zeta. rewrite same. apply IH.
Qed.

Lemma build_dependency_graph_same (fuel : nat) (main_file_path project_root : Path) :
  build_dependency_graph (with_set_iter e iter1) fuel main_file_path project_root
  = build_dependency_graph (with_set_iter e iter2) fuel main_file_path project_root.
Proof.
  unfold build_dependency_graph. rewrite build_loop_same.
  change (set_iter (with_set_iter e iter1)) with iter1.
  change (set_iter (with_set_iter e iter2)) with iter2.
  change (resolve (with_set_iter e iter1)) with (resolve e).
  change (resolve (with_set_iter e iter2)) with (resolve e).
  destruct (build_loop _ _ _ _); [rewrite same |]; reflexivity.
Qed.

Lemma sort_phase_same (graph : Graph) (main_path project_root : Path) :
  sort_phase (with_set_iter e iter1) graph main_path project_root
  = sort_phase (with_set_iter e iter2) graph main_path project_root.
Proof.
  unfold sort_phase. rewrite topological_sort_same.
  change (set_iter (with_set_iter e iter1)) with iter1.
  change (set_iter (with_set_iter e iter2)) with iter2.
  destruct (topological_sort _ graph) as [[sorted cycles] |]; [| reflexivity].
  rewrite same. reflexivity.
Qed.

Lemma run_bundling_process_same (fuel : nat) (main_py_file output_txt_file : Path) :
  run_bundling_process (with_set_iter e iter1) fuel main_py_file output_txt_file
  = run_bundling_process (with_set_iter e iter2) fuel main_py_file output_txt_file.
Proof.
  unfold run_bundling_process.
  change (resolve (with_set_iter e iter1)) with (resolve e).
  change (resolve (with_set_iter e iter2)) with (resolve e).
  change (is_file (with_set_iter e iter1)) with (is_file e).
  change (is_file (with_set_iter e iter2)) with (is_file e).
  destruct (is_file e (resolve e main_py_file)) as [[|] |]; try reflexivity.
  change (find_project_root (with_set_iter e iter1)) with (find_project_root e).
  change (find_project_root (with_set_iter e iter2)) with (find_project_root e).
  destruct (find_project_root e (resolve e main_py_file)) as [found |]; [| reflexivity].
  destruct found as [root |]; cbv beta iota zeta;
    rewrite build_dependency_graph_same;
    (destruct (build_dependency_graph _ _ _ _) as [[graph all_files] |];
     [| reflexivity]);
    (destruct (log_relative _ all_files) as [ls [[] | e2]]; [| reflexivity]);
    rewrite sort_phase_same; reflexivity.
Qed.

End SameIteration.

(** C2, as the code has it. The output of a run is a function of the
    project and of the order in which sets of paths are iterated: two runs
    that iterate sets alike end alike, output file and progress lines
    included. Two runs that iterate sets differently still bundle the same
    files, each once and the main file last, though possibly in another
    order. *)
Theorem runs_agree_up_to_set_order
  (e : Env) (iter1 iter2 : list Path -> list Path) (main_path project_root : Path) :
  (forall l x, In x (iter1 l) <-> In x l) ->
  (forall l x, In x (iter2 l) <-> In x l) ->
  ((forall l, iter1 l = iter2 l) ->
   forall fuel main_py_file output_txt_file,
     run_bundling_process (with_set_iter e iter1) fuel main_py_file output_txt_file
     = run_bundling_process (with_set_iter e iter2) fuel main_py_file output_txt_file) /\
  (forall fuel1 fuel2 g1 g2 order1 order2 cycles1 cycles2,
     bundle_order (with_set_iter e iter1) fuel1 main_path project_root
     = Some (g1, order1, cycles1) ->
     bundle_order (with_set_iter e iter2) fuel2 main_path project_root
     = Some (g2, order2, cycles2) ->
     Permutation order1 order2 /\
     NoDup order1 /\ NoDup order2 /\
     is_last main_path order1 /\ is_last main_path order2).
Proof.
  intros H1 H2. split.
  - intros Hsame fuel main_py_file output_txt_file.
    apply run_bundling_process_same. assumption.
  - intros fuel1 fuel2 g1 g2 order1 order2 cycles1 cycles2 B1 B2.
    destruct (bundle_order_members (with_set_iter e iter1) _ _ _ _ _ _ H1 B1) as (N1 & M1).
    destruct (bundle_order_members (with_set_iter e iter2) _ _ _ _ _ _ H2 B2) as (N2 & M2).
    assert (K : forall k, In k (keys g1) <-> In k (keys g2)).
    { unfold bundle_order in B1, B2.
      destruct (build_dependency_graph (with_set_iter e iter1) _ _ _)
        as [[g1' a1] |] eqn:G1; [| discriminate].
      destruct (build_dependency_graph (with_set_iter e iter2) _ _ _)
        as [[g2' a2] |] eqn:G2; [| discriminate].
      destruct (topological_sort _ g1') as [[s1 c1] |]; [| discriminate].
      destruct (topological_sort _ g2') as [[s2 c2] |]; [| discriminate].
      inversion B1; inversion B2; subst.
      intros k. split.
      - eapply (same_keys e iter1 iter2); eassumption.
      - eapply (same_keys e iter2 iter1); eassumption. }
    split; [| split; [assumption | split; [assumption | split]]].
    + apply NoDup_Permutation; try assumption.
      intros x. rewrite M1, M2, K. reflexivity.
    + unfold bundle_order in B1.
      destruct (build_dependency_graph _ _ _ _) as [[g a] |]; [| discriminate].
      destruct (topological_sort _ g) as [[s c] |] eqn:T; [| discriminate].
      inversion B1; subst. apply main_last_is_last.
      apply (topological_sort_spec (with_set_iter e iter1) _ H1 _ _ T).
    + unfold bundle_order in B2.
      destruct (build_dependency_graph _ _ _ _) as [[g a] |]; [| discriminate].
      destruct (topological_sort _ g) as [[s c] |] eqn:T; [| discriminate].
      inversion B2; subst. apply main_last_is_last.
      apply (topological_sort_spec (with_set_iter e iter2) _ H2 _ _ T).
Qed.

Lemma runs_agree_up_to_set_order_witness :
  run_bundling_process
    (with_set_iter (Sample.project Sample.diamond [] Sample.in_order) Sample.in_order)
    10 Sample.app_py Sample.out_txt
  = run_bundling_process
      (with_set_iter (Sample.project Sample.diamond [] Sample.in_order) (fun l => l))
      10 Sample.app_py Sample.out_txt /\
  Permutation
    [Sample.base_py; Sample.left_py; Sample.right_py; Sample.app_py]
    [Sample.base_py; Sample.right_py; Sample.left_py; Sample.app_py].
Proof.
  split.
  - apply (runs_agree_up_to_set_order
             (Sample.project Sample.diamond [] Sample.in_order)
             Sample.in_order (fun l => l) Sample.app_py Sample.root).
    + intros l x. reflexivity.
    + intros l x. reflexivity.
    + intros l. reflexivity.
  - destruct (runs_agree_up_to_set_order
                (Sample.project Sample.diamond [] Sample.in_order)
                Sample.in_order (@rev Path) Sample.app_py Sample.root) as [_ H].
    + intros l x. reflexivity.
    + intros l x. symmetry. apply in_rev.
    + apply (H 10 10
               [(Sample.app_py, [Sample.left_py; Sample.right_py]);
                (Sample.left_py, [Sample.base_py]);
                (Sample.right_py, [Sample.base_py]);
                (Sample.base_py, [])]
               [(Sample.app_py, [Sample.left_py; Sample.right_py]);
                (Sample.right_py, [Sample.base_py]);
                (Sample.left_py, [Sample.base_py]);
                (Sample.base_py, [])]
               [Sample.base_py; Sample.left_py; Sample.right_py; Sample.app_py]
               [Sample.base_py; Sample.right_py; Sample.left_py; Sample.app_py]
               [] []); vm_compute; reflexivity.
Defined.

(** C2 as the specification words it fails: over one and the same project,
    a run that iterates sets in insertion order and a run that iterates
    them the other way round write different output files, having met
    [left.py] and [right.py] in different orders. *)
Lemma set_order_changes_the_output :
  ~ (forall (e : Env) (iter1 iter2 : list Path -> list Path)
            (fuel : nat) (main_py_file output_txt_file : Path),
       (forall l x, In x (iter1 l) <-> In x l) ->
       (forall l x, In x (iter2 l) <-> In x l) ->
       option_map output_file
         (run_bundling_process (with_set_iter e iter1) fuel main_py_file output_txt_file)
       = option_map output_file
           (run_bundling_process (with_set_iter e iter2) fuel main_py_file output_txt_file)).
Proof.
  intros H.
  specialize (H (Sample.project Sample.diamond [] Sample.in_order)
                Sample.in_order (@rev Path) 10 Sample.app_py Sample.out_txt).
  assert (E : option_map output_file
                (run_bundling_process
                   (with_set_iter (Sample.project Sample.diamond [] Sample.in_order)
                      Sample.in_order) 10 Sample.app_py Sample.out_txt)
              = option_map output_file
                  (run_bundling_process
                     (with_set_iter (Sample.project Sample.diamond [] Sample.in_order)
                        (@rev Path)) 10 Sample.app_py Sample.out_txt)).
  { apply H.
    - intros l x. reflexivity.
    - intros l x. symmetry. apply in_rev. }
  vm_compute in E. discriminate.
Qed.

(** * The run and the order of its bundle *)

Lemma log_relative_ok (project_root : Path) (files : list Path) (lines : list string) :
  log_relative project_root files = (lines, Ok tt) ->
  forall f, In f files -> is_relative_to f project_root = true.
Proof.
  revert lines. induction files as [| a files IH]; intros lines H f Hf; [destruct Hf |].
  simpl in H. unfold relative_to in H.
  destruct (is_relative_to a project_root) eqn:E; [| discriminate].
  destruct (log_relative project_root files) as [ls r] eqn:L.
  inversion H; subst. destruct Hf as [<- | Hf]; [assumption |].
  eapply IH; [reflexivity | assumption].
Qed.

(** A run that returns [True] has written the blocks of the files of
    [bundle_order], in that order, and nothing else. *)
Lemma run_writes_the_bundle_order
  (env : Env) (fuel : nat) (main_py_file output_txt_file : Path) (outcome : Outcome) :
  run_bundling_process env fuel main_py_file output_txt_file = Some outcome ->
  returned outcome = Ok true ->
  exists project_root graph order cycles,
    bundle_order env fuel (resolve env main_py_file) project_root
    = Some (graph, order, cycles) /\
    output_file outcome
    = Some (concat_blocks (map (spec_block env project_root) order)).
Proof.
  unfold run_bundling_process.
  destruct (is_file env (resolve env main_py_file)) as [[|] | e0];
    [| intros H; inversion H; subst; discriminate
     | intros H; inversion H; subst; discriminate].
  destruct (find_project_root env (resolve env main_py_file)) as [found | e1];
    [| intros H; inversion H; subst; discriminate].
  set (project_root := match found with
                       | Some r => r
                       | None => parent (resolve env main_py_file)
                       end).
  assert (Hpair : forall (A : Type) (k : Path -> list string -> A) l1 l2,
             (let (r, lines) :=
                match found with
                | None => (parent (resolve env main_py_file), l1)
                | Some root => (root, l2 root)
                end in k r lines)
             = k project_root (match found with None => l1 | Some root => l2 root end)).
  { intros A k l1 l2. unfold project_root. destruct found; reflexivity. }
  rewrite Hpair. clear Hpair.
  destruct (build_dependency_graph env fuel (resolve env main_py_file) project_root)
    as [[graph all_files] |] eqn:B; [| discriminate].
  destruct (log_relative project_root all_files) as [ls [[] | e2]];
    [| intros H; inversion H; subst; discriminate].
  unfold sort_phase.
  destruct (topological_sort env graph) as [[sorted cycles] |] eqn:T; [| discriminate].
  assert (Hsplit : forall (X : list string * result unit),
             exists lines r, X = (lines, r)).
  { intros [a b]. eauto. }
  match goal with
  | |- context [let (lines, r) := ?X in _] =>
      destruct (Hsplit X) as (lines1 & r1 & E1); rewrite E1; clear E1
  end.
  destruct r1 as [[] | e3]; [| intros H; inversion H; subst; discriminate].
  destruct (log_relative project_root (main_last (resolve env main_py_file) sorted))
    as [ls2 [[] | e4]] eqn:L2; [| intros H; inversion H; subst; discriminate].
  pose proof (log_relative_ok _ _ _ L2) as Hroot.
  unfold create_combined_file.
  destruct (mkdir_parents env (parent (resolve env output_txt_file))) as [[] | e5];
    [| intros H; inversion H; subst; discriminate].
  destruct (open_write env (resolve env output_txt_file)) as [[] | e6];
    [| intros H; inversion H; subst; discriminate].
  rewrite write_files_blocks by assumption.
  intros H _. inversion H; subst; clear H.
  exists project_root, graph, (main_last (resolve env main_py_file) sorted), cycles.
  unfold bundle_order. rewrite B, T. split; reflexivity.
Qed.

(** * Beyond the claims: the project root *)

Lemma is_relative_to_prefix (p root : Path) :
  is_relative_to p root = true <-> exists rest, p = root ++ rest.
Proof.
  revert p. induction root as [| r root IH]; intros p.
  - split; [intros _; exists p; reflexivity | intros _; destruct p; reflexivity].
  - destruct p as [| c p]; simpl.
    + split; [discriminate | intros (rest & H); discriminate].
    + rewrite andb_true_iff, String.eqb_eq, IH. split.
      * intros (-> & rest & ->). exists rest. reflexivity.
      * intros (rest & H). inversion H; subst. split; [reflexivity |].
        exists rest. reflexivity.
Qed.

Lemma is_relative_to_refl (p : Path) : is_relative_to p p = true.
Proof. apply is_relative_to_prefix. exists []. rewrite app_nil_r. reflexivity. Qed.

Lemma is_relative_to_trans (p q r : Path) :
  is_relative_to p q = true -> is_relative_to q r = true -> is_relative_to p r = true.
Proof.
  rewrite !is_relative_to_prefix. intros (a & ->) (b & ->).
  exists (b ++ a). rewrite app_assoc. reflexivity.
Qed.

Lemma is_relative_to_parent (p : Path) : is_relative_to p (parent p) = true.
Proof.
  apply is_relative_to_prefix. unfold parent.
  destruct p as [| a l]; [exists []; reflexivity |].
  exists [last (a :: l) EmptyString]. apply app_removelast_last. discriminate.
Qed.

(** What the loop of [find_project_root] returns, in terms of the list
    [up] it walks: either the first directory on the way up that holds a
    marker, or the fallback after every directory up to the root of the
    file system was probed in vain. *)
Lemma climb_spec (env : Env) (start_path : Path) (up : list string) :
  forall found,
    climb env start_path up = Ok found ->
    (exists a b, up = a ++ b /\ found = Some (rev b) /\
       has_marker env (rev b) markers = Ok true /\
       forall a1 a2, a = a1 ++ a2 -> a2 <> [] ->
                     has_marker env (rev (a2 ++ b)) markers = Ok false) \/
    ((forall a b, up = a ++ b -> has_marker env (rev b) markers = Ok false) /\
     exists f, is_file env start_path = Ok f /\
               found = Some (if f then parent start_path else start_path)).
Proof.
  induction up as [| c up IH]; intros found H; cbn [climb] in H.
  - destruct (has_marker env (rev []) markers) as [[|] |] eqn:M; cbn [bind] in H;
      [| | discriminate].
    + left. exists [], []. inversion H; subst. repeat split; auto.
      intros a1 a2 E N. symmetry in E. apply app_eq_nil in E. destruct E. contradiction.
    + right. split.
      * intros a b E. symmetry in E. apply app_eq_nil in E. destruct E; subst. exact M.
      * destruct (is_file env start_path) as [f |]; cbn [bind] in H; [| discriminate].
        exists f. split; [reflexivity |]. destruct f; inversion H; reflexivity.
  - destruct (has_marker env (rev (c :: up)) markers) as [[|] |] eqn:M;
      cbn [bind] in H; [| | discriminate].
    + left. exists [], (c :: up). inversion H; subst. repeat split; auto.
      intros a1 a2 E N. symmetry in E. apply app_eq_nil in E. destruct E. contradiction.
    + destruct (IH found H) as [(a & b & E & F & Mb & Hbelow) | (Hall & Hf)].
      * left. exists (c :: a), b. subst up. repeat split; auto.
        intros a1 a2 E2 N. destruct a1 as [| x a1]; simpl in E2.
        -- subst a2. exact M.
        -- inversion E2; subst. apply (Hbelow a1 a2); auto.
      * right. split; [| assumption].
        intros a b E. destruct a as [| x a]; simpl in E.
        -- subst b. exact M.
        -- inversion E; subst. apply (Hall a b). reflexivity.
Qed.

Lemma has_marker_false (env : Env) (d : Path) (ms : list string) :
  has_marker env d ms = Ok false <->
  forall marker, In marker ms -> path_exists env (joinpath d [marker]) = Ok false.
Proof.
  induction ms as [| m ms IH]; cbn [has_marker].
  - split; [intros _ marker [] | reflexivity].
  - destruct (path_exists env (joinpath d [m])) as [[|] |] eqn:E; cbn [bind].
    + split; [discriminate |]. intros H. specialize (H m (or_introl eq_refl)). congruence.
    + rewrite IH. split.
      * intros H marker [<- | Hin]; auto.
      * intros H marker Hin. apply H. right. assumption.
    + split; [discriminate |]. intros H. specialize (H m (or_introl eq_refl)). congruence.
Qed.

Lemma has_marker_true (env : Env) (d : Path) (ms : list string) :
  has_marker env d ms = Ok true ->
  exists marker, In marker ms /\ path_exists env (joinpath d [marker]) = Ok true.
Proof.
  induction ms as [| m ms IH]; cbn [has_marker]; [discriminate |].
  destruct (path_exists env (joinpath d [m])) as [[|] |] eqn:E; cbn [bind].
  - intros _. exists m. simpl. auto.
  - intros H. destruct (IH H) as (marker & Hin & Hm). exists marker. simpl. auto.
  - discriminate.
Qed.

(** The directory [find_project_root] returns for the canonical path of a
    file lies above the directory of that file. *)
Lemma located_root_above (env : Env) (start_path : Path) (found : option Path) :
  resolve env start_path = start_path ->
  is_file env start_path = Ok true ->
  find_project_root env start_path = Ok found ->
  exists root,
    found = Some root /\ is_relative_to (parent start_path) root = true.
Proof.
  intros Hcanon Hfile. unfold find_project_root. rewrite Hcanon, Hfile. cbn [bind].
  intros H. apply climb_spec in H.
  destruct H as [(a & b & E & F & _) | (_ & f & Hf & F)].
  - exists (rev b). split; [assumption |]. apply is_relative_to_prefix.
    exists (rev a). rewrite <- rev_app_distr, <- E, rev_involutive. reflexivity.
  - rewrite Hfile in Hf. inversion Hf; subst f.
    exists (parent start_path). split; [assumption | apply is_relative_to_refl].
Qed.

(** X1. Whenever [find_project_root] returns, it returns a directory, never
    [None]; started on the canonical path of an existing file, that
    directory is an ancestor of the file: the file lies under the root
    that is located for it. *)
Theorem project_root_contains_the_file (env : Env) (start_path : Path)
  (found : option Path) :
  resolve env start_path = start_path ->
  is_file env start_path = Ok true ->
  find_project_root env start_path = Ok found ->
  exists root,
    found = Some root /\
    is_relative_to (parent start_path) root = true /\
    is_relative_to start_path root = true.
Proof.
  intros Hcanon Hfile H.
  destruct (located_root_above env start_path found Hcanon Hfile H) as (root & F & R).
  exists root. split; [assumption |]. split; [assumption |].
  eapply is_relative_to_trans; [apply is_relative_to_parent | exact R].
Qed.

Lemma project_root_contains_the_file_witness :
  exists root,
    Some Sample.root = Some root /\
    is_relative_to (parent Sample.a_py) root = true /\
    is_relative_to Sample.a_py root = true.
Proof.
  apply (project_root_contains_the_file
           (Sample.project Sample.mutual [] Sample.in_order) Sample.a_py).
  - reflexivity.
  - reflexivity.
  - vm_compute. reflexivity.
Defined.

(** X2. The root located for a file is the nearest directory above it that
    holds a marker: the root holds one, and no directory between the root
    and the file does. When no directory up to the root of the file system
    holds a marker, the directory of the file itself is returned. *)
Theorem project_root_is_the_nearest_marker (env : Env) (start_path root : Path) :
  is_file env (resolve env start_path) = Ok true ->
  find_project_root env start_path = Ok (Some root) ->
  let dir := parent (resolve env start_path) in
  ((exists marker, In marker markers /\
                   path_exists env (joinpath root [marker]) = Ok true) /\
   is_relative_to dir root = true /\
   forall d marker,
     is_relative_to dir d = true -> is_relative_to d root = true -> d <> root ->
     In marker markers -> path_exists env (joinpath d [marker]) = Ok false) \/
  ((forall d marker,
      is_relative_to dir d = true -> In marker markers ->
      path_exists env (joinpath d [marker]) = Ok false) /\
   exists f, is_file env start_path = Ok f /\
             root = if f then parent start_path else start_path).
Proof.
  intros Hfile. unfold find_project_root. rewrite Hfile. cbn [bind].
  intros H. set (dir := parent (resolve env start_path)) in *.
  apply climb_spec in H.
  destruct H as [(a & b & E & F & Mb & Hbelow) | (Hall & f & Hf & F)].
  - left. inversion F; subst root; clear F.
    assert (Hdir : dir = rev b ++ rev a).
    { rewrite <- rev_app_distr, <- E, rev_involutive. reflexivity. }
    split; [apply has_marker_true; assumption |].
    split; [apply is_relative_to_prefix; exists (rev a); assumption |].
    intros d marker Hd Hr Hne Hin.
    apply is_relative_to_prefix in Hd. destruct Hd as (rest & Hd).
    apply is_relative_to_prefix in Hr. destruct Hr as (rest' & Hr).
    assert (Ha : a = rev rest ++ rev rest').
    { rewrite Hd, Hr, <- app_assoc in Hdir. apply app_inv_head in Hdir.
      rewrite <- rev_app_distr, Hdir, rev_involutive. reflexivity. }
    assert (N : rev rest' <> []).
    { intros N. apply Hne. rewrite Hr.
      apply (f_equal (@rev string)) in N. rewrite rev_involutive in N.
      rewrite N. simpl. apply app_nil_r. }
    specialize (Hbelow (rev rest) (rev rest') Ha N).
    rewrite rev_app_distr, rev_involutive, <- Hr in Hbelow.
    apply (proj1 (has_marker_false env d markers) Hbelow). assumption.
  - right. inversion F; subst root; clear F. split; [| exists f; auto].
    intros d marker Hd Hin. apply is_relative_to_prefix in Hd.
    destruct Hd as (rest & Hd).
    assert (E : rev dir = rev rest ++ rev d) by (rewrite Hd, rev_app_distr; reflexivity).
    specialize (Hall (rev rest) (rev d) E). rewrite rev_involutive in Hall.
    apply (proj1 (has_marker_false env d markers) Hall). assumption.
Qed.

Lemma project_root_is_the_nearest_marker_witness :
  (exists marker, In marker markers /\
     path_exists nested (joinpath ["proj"; "pkg"]%string [marker]) = Ok true) /\
  path_exists nested ["proj"; "pkg"; "src"; "setup.py"]%string = Ok false /\
  (forall d marker,
     is_relative_to (parent lone_main) d = true -> In marker markers ->
     path_exists lone (joinpath d [marker]) = Ok false).
Proof.
  destruct (project_root_is_the_nearest_marker nested inner_main
              ["proj"; "pkg"]%string) as [(H1 & _ & H2) | (H & _)].
  - reflexivity.
  - vm_compute. reflexivity.
  - destruct (project_root_is_the_nearest_marker lone lone_main
                (parent lone_main)) as [((m & Hm & E) & _) | (H3 & _)].
    + reflexivity.
    + vm_compute. reflexivity.
    + exfalso. vm_compute in Hm.
      repeat (destruct Hm as [<- | Hm]; [vm_compute in E; discriminate |]).
      destruct Hm.
    + split; [exact H1 |]. split; [| exact H3].
      apply (H2 ["proj"; "pkg"; "src"]%string "setup.py"%string);
        try reflexivity; try discriminate.
      vm_compute. auto.
  - exfalso.
    specialize (H ["proj"; "pkg"]%string "pyproject.toml"%string).
    vm_compute in H. assert (F : Ok true = Ok false) by (apply H; auto 10).
    discriminate.
Defined.

(** * Beyond the claims: the orchestrator *)

Lemma log_relative_total (project_root : Path) (files : list Path) :
  (forall f, In f files -> is_relative_to f project_root = true) ->
  exists lines, log_relative project_root files = (lines, Ok tt).
Proof.
  induction files as [| a files IH]; intros H; cbn [log_relative].
  - eexists. reflexivity.
  - unfold relative_to. rewrite (H a (or_introl eq_refl)).
    destruct IH as (ls & E); [intros f Hf; apply H; right; assumption |].
    rewrite E. eexists. reflexivity.
Qed.

Lemma unique_cycle_nodes_In (cycles : list (Path * Path)) (x : Path) :
  In x (unique_cycle_nodes cycles) ->
  exists u v, In (u, v) cycles /\ (x = u \/ x = v).
Proof.
  unfold unique_cycle_nodes.
  assert (G : forall acc,
             In x (fold_left (fun s edge => set_add (snd edge) (set_add (fst edge) s))
                     cycles acc) ->
             In x acc \/ exists u v, In (u, v) cycles /\ (x = u \/ x = v)).
  { induction cycles as [| [u v] cycles IH]; intros acc H; simpl in H; [auto |].
    destruct (IH _ H) as [G | (a & b & Hin & Hx)].
    - apply set_add_In in G. destruct G as [-> | G].
      + right. exists u, v. simpl. auto.
      + apply set_add_In in G. destruct G as [-> | G]; [| auto].
        right. exists u, v. simpl. auto.
    - right. exists a, b. simpl. auto. }
  intros H. destruct (G [] H) as [[] | R]. exact R.
Qed.

(** Every path the graph of a run holds, as a key or in a dependency set,
    lies under the root. *)
Lemma graph_nodes_under_root (env : Env) (fuel : nat) (main_path project_root : Path)
  (graph : Graph) (all_files : list Path) :
  build_dependency_graph env fuel main_path project_root = Some (graph, all_files) ->
  forall x, In x (nodes_of graph) -> is_relative_to x project_root = true.
Proof.
  intros B x Hx.
  destruct (build_graph_content env fuel main_path project_root graph all_files B)
    as (N & _ & Hroot & Hval).
  unfold nodes_of in Hx. apply in_app_or in Hx. destruct Hx as [Hx | Hx]; [auto |].
  apply in_flat_map in Hx. destruct Hx as ([k deps] & Hin & Hd). simpl in Hd.
  assert (Hk : In k (keys graph)).
  { unfold keys. apply in_map_iff. exists (k, deps). auto. }
  apply (find_imports_under_root env k project_root).
  rewrite <- (Hval k Hk), (dict_get_entry graph k deps N Hin). assumption.
Qed.





(** * Beyond the claims: the resolver *)

Lemma joinpath_empty_name (dir : Path) : joinpath dir (Str.split Str.dot EmptyString) = dir.
Proof. unfold joinpath. simpl. apply app_nil_r. Qed.

Section ResolverOrder.

Variable env : Env.
Variable file_path project_root : Path.

(** The four branches that compute [path_to_try] come to one expression. *)
Lemma _resolve_module_unfold (module_name : string) (level : nat) :
  _resolve_module env file_path project_root module_name level
  = if is_external env project_root module_name then Ok None
    else
      let first := joinpath (resolution_base file_path project_root level)
                     (Str.split Str.dot module_name) in
      let second := joinpath project_root (Str.split Str.dot module_name) in
      possible_module_path <- with_suffix first ".py" ;;
      m <- is_local_file env project_root possible_module_path ;;
      if m then accept env project_root possible_module_path
      else
        p <- is_local_file env project_root (joinpath first ["__init__.py"%string]) ;;
        if p then accept env project_root (joinpath first ["__init__.py"%string])
        else
          possible_module_path <- with_suffix second ".py" ;;
          m <- is_local_file env project_root possible_module_path ;;
          if m then accept env project_root possible_module_path
          else
            p <- is_local_file env project_root (joinpath second ["__init__.py"%string]) ;;
            if p then accept env project_root (joinpath second ["__init__.py"%string])
            else Ok None.
Proof.
  unfold _resolve_module, resolution_base.
  destruct (is_external env project_root module_name); [reflexivity |].
  destruct level as [| level].
  - change (0 <? 0) with false. change (0 =? 0) with true. cbv beta iota zeta.
    destruct (Str.is_empty module_name); reflexivity.
  - change (0 <? S level) with true. change (S level =? 0) with false.
    cbv beta iota zeta. destruct module_name as [| c s].
    + cbn [Str.is_empty negb andb]. cbv beta iota zeta.
      rewrite !joinpath_empty_name. reflexivity.
    + reflexivity.
Qed.

(** X5. What the resolver returns is always one of its four candidates: the
    module file or the package-init file below the base of the import or
    below the project root. That candidate is a file, lies under the root,
    and it is its canonical path that is returned. *)
Theorem resolved_path_is_a_candidate (module_name : string) (level : nat) (p : Path) :
  _resolve_module env file_path project_root module_name level = Ok (Some p) ->
  exists dir c,
    In dir [resolution_base file_path project_root level; project_root] /\
    candidate dir module_name c /\
    is_file env c = Ok true /\
    is_relative_to c project_root = true /\
    p = resolve env c /\
    is_relative_to p project_root = true.
Proof.
  rewrite _resolve_module_unfold.
  destruct (is_external env project_root module_name); [discriminate |].
  cbv zeta.
  set (first := joinpath (resolution_base file_path project_root level)
                  (Str.split Str.dot module_name)).
  set (second := joinpath project_root (Str.split Str.dot module_name)).
  assert (Hacc : forall dir c,
             In dir [resolution_base file_path project_root level; project_root] ->
             candidate dir module_name c ->
             is_local_file env project_root c = Ok true ->
             accept env project_root c = Ok (Some p) ->
             exists dir c,
               In dir [resolution_base file_path project_root level; project_root] /\
               candidate dir module_name c /\ is_file env c = Ok true /\
               is_relative_to c project_root = true /\ p = resolve env c /\
               is_relative_to p project_root = true).
  { intros dir c Hd Hc Hl Ha. exists dir, c.
    split; [assumption |]. split; [assumption |].
    unfold is_local_file in Hl.
    destruct (is_file env c) as [[|] |]; simpl in Hl; try discriminate.
    injection Hl as Hr. split; [reflexivity |]. split; [exact Hr |].
    unfold accept, relative_to in Ha.
    destruct (is_relative_to (resolve env c) project_root) eqn:E; simpl in Ha;
      inversion Ha; subst. auto. }
  destruct (with_suffix first ".py") as [c1 |] eqn:W1; cbn [bind]; [| discriminate].
  destruct (is_local_file env project_root c1) as [[|] |] eqn:L1; cbn [bind];
    [| | discriminate].
  { apply (Hacc (resolution_base file_path project_root level) c1); simpl; auto.
    left. exact W1. }
  destruct (is_local_file env project_root (joinpath first ["__init__.py"%string]))
    as [[|] |] eqn:L2; cbn [bind]; [| | discriminate].
  { apply (Hacc (resolution_base file_path project_root level)
             (joinpath first ["__init__.py"%string])); simpl; auto.
    right. reflexivity. }
  destruct (with_suffix second ".py") as [c3 |] eqn:W3; cbn [bind]; [| discriminate].
  destruct (is_local_file env project_root c3) as [[|] |] eqn:L3; cbn [bind];
    [| | discriminate].
  { apply (Hacc project_root c3); simpl; auto. left. exact W3. }
  destruct (is_local_file env project_root (joinpath second ["__init__.py"%string]))
    as [[|] |] eqn:L4; cbn [bind]; [| | discriminate].
  { apply (Hacc project_root (joinpath second ["__init__.py"%string])); simpl; auto.
    right. reflexivity. }
  discriminate.
Qed.

End ResolverOrder.

Lemma resolved_path_is_a_candidate_witness :
  exists dir c,
    In dir [resolution_base stray_mod Sample.root 1; Sample.root] /\
    candidate dir "helpers" c /\
    is_file stray c = Ok true /\
    is_relative_to c Sample.root = true /\
    ["proj"; "helpers.py"]%string = resolve stray c /\
    is_relative_to ["proj"; "helpers.py"]%string Sample.root = true.
Proof.
  apply (resolved_path_is_a_candidate stray stray_mod Sample.root "helpers" 1).
  vm_compute. reflexivity.
Defined.

(** X6. The resolver gives an import up only when the interpreter places
    the module outside the project or when none of the four candidates is
    a file under the root. *)
Theorem unresolved_import_has_no_local_candidate (env : Env)
  (file_path project_root : Path) (module_name : string) (level : nat) :
  _resolve_module env file_path project_root module_name level = Ok None ->
  is_external env project_root module_name = true \/
  forall dir c,
    In dir [resolution_base file_path project_root level; project_root] ->
    candidate dir module_name c ->
    is_local_file env project_root c = Ok false.
Proof.
  rewrite _resolve_module_unfold.
  destruct (is_external env project_root module_name); [auto |].
  cbv zeta. intros H. right.
  assert (Hacc : forall c, accept env project_root c <> Ok None).
  { intros c. unfold accept. destruct (relative_to (resolve env c) project_root);
      cbn [bind]; discriminate. }
  destruct (with_suffix _ ".py") as [c1 |] eqn:W1 in H; cbn [bind] in H;
    [| discriminate].
  destruct (is_local_file env project_root c1) as [[|] |] eqn:L1; cbn [bind] in H;
    [exfalso; exact (Hacc _ H) | | discriminate].
  destruct (is_local_file env project_root (joinpath _ ["__init__.py"%string]))
    as [[|] |] eqn:L2 in H; cbn [bind] in H;
    [exfalso; exact (Hacc _ H) | | discriminate].
  destruct (with_suffix _ ".py") as [c3 |] eqn:W3 in H; cbn [bind] in H;
    [| discriminate].
  destruct (is_local_file env project_root c3) as [[|] |] eqn:L3; cbn [bind] in H;
    [exfalso; exact (Hacc _ H) | | discriminate].
  destruct (is_local_file env project_root (joinpath _ ["__init__.py"%string]))
    as [[|] |] eqn:L4 in H; cbn [bind] in H;
    [exfalso; exact (Hacc _ H) | | discriminate].
  intros dir c [<- | [<- | []]] [Hc | ->]; try assumption.
  - rewrite W1 in Hc. inversion Hc; subst. assumption.
  - rewrite W3 in Hc. inversion Hc; subst. assumption.
Qed.

Lemma unresolved_import_has_no_local_candidate_witness :
  is_external stray Sample.root "missing" = true \/
  forall dir c,
    In dir [resolution_base stray_mod Sample.root 1; Sample.root] ->
    candidate dir "missing" c ->
    is_local_file stray Sample.root c = Ok false.
Proof.
  apply (unresolved_import_has_no_local_candidate stray stray_mod Sample.root "missing" 1).
  vm_compute. reflexivity.
Defined.



(** * Beyond the claims: the analysis of one file *)

Lemma for_each_app {A S : Type} (body : S -> A -> result S) (xs ys : list A) (s : S) :
  for_each body (xs ++ ys) s = (s' <- for_each body xs s ;; for_each body ys s').
Proof.
  revert s. induction xs as [| x xs IH]; intros s; simpl; [reflexivity |].
  destruct (body s x); simpl; auto.
Qed.

Lemma record_In (deps : list Path) (r : option Path) (p : Path) :
  In p (record deps r) <-> In p deps \/ r = Some p.
Proof.
  destruct r as [q |]; simpl.
  - rewrite set_add_In. split; intros [H | H]; auto; [subst; auto | inversion H; auto].
  - split; [auto | intros [H | H]; [assumption | discriminate]].
Qed.

Section AnalysisFacts.

Variable env : Env.
Variable file_path project_root : Path.

Lemma visit_Import_exact (names : list string) :
  forall acc deps,
    visit_Import env file_path project_root acc names = Ok deps ->
    forall p, In p deps <->
              In p acc \/
              exists name, In name names /\
                _resolve_module env file_path project_root name 0 = Ok (Some p).
Proof.
  unfold visit_Import.
  induction names as [| n names IH]; intros acc deps H p; simpl in H.
  - inversion H; subst. split; [auto | intros [G | (x & [] & _)]; assumption].
  - destruct (_resolve_module env file_path project_root n 0) as [r |] eqn:R;
      simpl in H; [| discriminate].
    rewrite (IH _ _ H p), record_In. split.
    + intros [[G | G] | (x & Hx & Hr)]; auto.
      * right. exists n. subst r. simpl. auto.
      * right. exists x. simpl. auto.
    + intros [G | (x & [<- | Hx] & Hr)]; auto.
      * left. right. congruence.
      * right. exists x. auto.
Qed.

Lemma visit_all_exact (tree : list ImportStmt) :
  forall acc deps,
    for_each (visit_stmt env file_path project_root) tree acc = Ok deps ->
    forall p, In p deps <->
              In p acc \/
              exists name level, imported tree name level /\
                _resolve_module env file_path project_root name level = Ok (Some p).
Proof.
  induction tree as [| stmt tree IH]; intros acc deps H p; simpl in H.
  - inversion H; subst. split; [auto |].
    intros [G | (n & l & (s & [] & _) & _)]. assumption.
  - destruct (visit_stmt env file_path project_root acc stmt) as [mid |] eqn:V;
      simpl in H; [| discriminate].
    rewrite (IH _ _ H p). clear IH H.
    assert (Hmid : In p mid <->
                   In p acc \/
                   exists name level, imported [stmt] name level /\
                     _resolve_module env file_path project_root name level = Ok (Some p)).
    { destruct stmt as [names | module level]; simpl in V.
      - rewrite (visit_Import_exact names _ _ V p). split.
        + intros [G | (n & Hn & Hr)]; [auto |]. right. exists n, 0.
          split; [| assumption]. exists (Import names). simpl. auto.
        + intros [G | (n & l & (s & [<- | []] & Hn & ->) & Hr)]; [auto |].
          right. exists n. auto.
      - unfold visit_ImportFrom in V.
        destruct (_resolve_module env file_path project_root _ level) as [r |] eqn:R;
          simpl in V; [| discriminate].
        inversion V; subst mid. rewrite record_In. split.
        + intros [G | ->]; [auto |]. right. eexists _, level.
          split; [| exact R]. exists (ImportFrom module level). simpl. auto.
        + intros [G | (n & l & (s & [<- | []] & -> & ->) & Hr)]; [auto |].
          right. congruence. }
    rewrite Hmid. split.
    + intros [[G | (n & l & (s & [<- | []] & Hs) & Hr)] | (n & l & (s & Hin & Hs) & Hr)];
        auto; right; exists n, l; (split; [| assumption]); eexists; simpl; eauto.
    + intros [G | (n & l & (s & [<- | Hin] & Hs) & Hr)]; auto.
      * left. right. exists n, l. split; [| assumption]. exists stmt. simpl. auto.
      * right. exists n, l. split; [| assumption]. exists s. auto.
Qed.

(** X8. When the analysis of a file does not raise, the dependencies of
    the file are exactly the paths its import statements resolve to:
    nothing is lost and nothing is added. *)
Theorem find_imports_exact (content : string) (tree : list ImportStmt)
  (deps : list Path) :
  read_text env file_path = Ok content ->
  ast_imports env content = Ok tree ->
  analyze env file_path project_root = Ok deps ->
  forall p,
    In p (find_imports env file_path project_root) <->
    exists module_name level,
      imported tree module_name level /\
      _resolve_module env file_path project_root module_name level = Ok (Some p).
Proof.
  intros Hread Hast Han p. unfold find_imports. rewrite Han.
  unfold analyze in Han. rewrite Hread in Han. cbn [bind] in Han.
  rewrite Hast in Han. cbn [bind] in Han.
  destruct (relative_to file_path project_root); cbn [bind] in Han; [| discriminate].
  rewrite (visit_all_exact tree [] deps Han p). split.
  - intros [[] | G]. assumption.
  - auto.
Qed.

(** X9. The analysis of a file is all or nothing: as soon as the resolution
    of one import raises, the dependencies already recorded for the
    statements before it are dropped and the file counts as having no
    dependency at all. *)
Theorem one_raising_import_drops_all (content : string)
  (before after : list ImportStmt) (stmt : ImportStmt) (recorded : list Path) (e : exn) :
  read_text env file_path = Ok content ->
  ast_imports env content = Ok (before ++ stmt :: after) ->
  for_each (visit_stmt env file_path project_root) before [] = Ok recorded ->
  visit_stmt env file_path project_root recorded stmt = Raise e ->
  find_imports env file_path project_root = [].
Proof.
  intros Hread Hast Hbefore Hstmt. unfold find_imports, analyze.
  rewrite Hread. cbn [bind]. rewrite Hast. cbn [bind].
  destruct (relative_to file_path project_root); cbn [bind]; [| reflexivity].
  rewrite for_each_app, Hbefore. cbn [bind for_each]. rewrite Hstmt. reflexivity.
Qed.

End AnalysisFacts.

Lemma find_imports_exact_witness :
  In ["proj"; "helpers.py"]%string (find_imports stray stray_mod Sample.root) <->
  exists module_name level,
    imported [ImportFrom (Some "helpers"%string) 1] module_name level /\
    _resolve_module stray stray_mod Sample.root module_name level
    = Ok (Some ["proj"; "helpers.py"]%string).
Proof.
  apply (find_imports_exact stray stray_mod Sample.root "from .helpers import f"
           [ImportFrom (Some "helpers"%string) 1] [["proj"; "helpers.py"]%string]).
  - reflexivity.
  - reflexivity.
  - vm_compute. reflexivity.
Defined.

Lemma one_raising_import_drops_all_witness :
  for_each (visit_stmt late_link late_link_main Sample.root) [Import ["util"%string]] []
  = Ok [["proj"; "util.py"]%string] /\
  find_imports late_link late_link_main Sample.root = [].
Proof.
  split; [vm_compute; reflexivity |].
  apply (one_raising_import_drops_all late_link late_link_main Sample.root
           "import util; import ext" [Import ["util"%string]] []
           (Import ["ext"%string]) [["proj"; "util.py"]%string]
           {| exn_class := ValueError; exn_str := "path is not in the subpath of the root" |}).
  - reflexivity.
  - reflexivity.
  - vm_compute. reflexivity.
  - vm_compute. reflexivity.
Defined.

(** * Beyond the claims: the dependency graph *)

(** X10. The graph of a main file that lies under the root holds exactly
    the files that can be reached from it through the imports the analyzer
    finds: its keys are those files, each key is mapped to the dependencies
    [find_imports] gives for it, and the list of all files has the same
    members as the keys. *)
Theorem graph_is_the_import_closure (env : Env) (fuel : nat)
  (main_file_path project_root : Path) (graph : Graph) (all_files : list Path) :
  (forall l x, In x (set_iter env l) <-> In x l) ->
  is_relative_to (resolve env main_file_path) project_root = true ->
  build_dependency_graph env fuel main_file_path project_root = Some (graph, all_files) ->
  (forall k, In k (keys graph) <->
             import_reachable env project_root (resolve env main_file_path) k) /\
  (forall u v, edge graph u v <->
               In u (keys graph) /\ In v (find_imports env u project_root)) /\
  (forall f, In f all_files <-> In f (keys graph)).
Proof.
  intros Hiter Hmain B.
  destruct (build_graph_content env fuel _ _ graph all_files B) as (N & Hall & _ & Hval).
  destruct (build_graph_shape env fuel _ _ graph all_files Hiter B)
    as (_ & Hreach & Hclosed & Hm).
  assert (Hedge : forall u v, edge graph u v <->
                              In u (keys graph) /\ In v (find_imports env u project_root)).
  { intros u v. split.
    - intros He. pose proof (edge_nodes graph u v He) as [Hu _]. split; [assumption |].
      unfold edge in He. rewrite (Hval u Hu) in He. assumption.
    - intros [Hu Hv]. unfold edge. rewrite (Hval u Hu). assumption. }
  split; [| split; [assumption |]].
  - intros k. split.
    + intros Hk. specialize (Hreach k Hk). clear Hk.
      induction Hreach as [| u v _ IH He]; [constructor |].
      apply (import_step env project_root _ u v IH). apply Hedge. assumption.
    + intros Hk. induction Hk as [| u v _ IH Hv].
      * destruct Hm as [Hm | Hm]; [assumption | congruence].
      * apply (Hclosed u v). apply Hedge. auto.
  - intros f. rewrite Hall. apply Hiter.
Qed.

Lemma graph_is_the_import_closure_witness :
  exists graph all_files,
    build_dependency_graph (Sample.project Sample.diamond [] Sample.in_order) 10
      Sample.app_py Sample.root = Some (graph, all_files) /\
    forall k, In k (keys graph) <->
              import_reachable (Sample.project Sample.diamond [] Sample.in_order)
                Sample.root Sample.app_py k.
Proof.
  eexists. eexists. split; [vm_compute; reflexivity |].
  refine (proj1 (graph_is_the_import_closure
                   (Sample.project Sample.diamond [] Sample.in_order) 10
                   Sample.app_py Sample.root _ _ _ _ _)).
  - intros l x. reflexivity.
  - reflexivity.
  - vm_compute. reflexivity.
Defined.

(** X11. For a main file whose canonical path lies outside the root, the
    traversal visits nothing: the graph is empty and so is the list of all
    files, without any error. *)
Theorem main_outside_root_gives_empty_graph (env : Env) (fuel : nat)
  (main_file_path project_root : Path) (graph : Graph) (all_files : list Path) :
  (forall l x, In x (set_iter env l) <-> In x l) ->
  is_relative_to (resolve env main_file_path) project_root = false ->
  build_dependency_graph env fuel main_file_path project_root = Some (graph, all_files) ->
  graph = [] /\ all_files = [].
Proof.
  intros Hiter Hmain B.
  destruct (build_graph_content env fuel _ _ graph all_files B) as (_ & Hall & Hroot & _).
  destruct (build_graph_shape env fuel _ _ graph all_files Hiter B)
    as ([Hk | (ks & Hk)] & _).
  - assert (G : graph = []) by (destruct graph; [reflexivity | discriminate]).
    split; [assumption |]. subst graph. simpl in Hall.
    destruct all_files as [| f fs]; [reflexivity |].
    assert (Hf : In f (set_iter env [])) by (rewrite <- Hall; simpl; auto).
    apply (proj1 (Hiter _ _)) in Hf. contradiction.
  - specialize (Hroot (resolve env main_file_path)). rewrite Hk in Hroot.
    rewrite Hroot in Hmain; [discriminate | simpl; auto].
Qed.

Lemma main_outside_root_gives_empty_graph_witness :
  build_dependency_graph (Sample.project Sample.mutual [] Sample.in_order) 3
    Sample.a_py ["elsewhere"%string] = Some ([], []) /\
  @nil (Path * list Path) = [] /\ @nil Path = [].
Proof.
  split; [vm_compute; reflexivity |].
  apply (main_outside_root_gives_empty_graph
           (Sample.project Sample.mutual [] Sample.in_order) 3
           Sample.a_py ["elsewhere"%string]).
  - intros l x. reflexivity.
  - reflexivity.
  - vm_compute. reflexivity.
Defined.

(** * Beyond the claims: what the sort returns and what it reports *)

Section SortMore.

Variable env : Env.
Variable graph : Graph.
Hypothesis set_iter_spec : forall l x, In x (set_iter env l) <-> In x l.

(** The result of the sort holds the dependencies of its members. *)
Lemma topological_sort_closed (sorted_files : list Path) (cycles : list (Path * Path)) :
  topological_sort env graph = Some (sorted_files, cycles) ->
  forall u v, In u sorted_files -> edge graph u v -> In v sorted_files.
Proof.
  unfold topological_sort.
  destruct (visit_each _ _ _) as [st |] eqn:E; [| discriminate].
  intros H. inversion H; subst; clear H.
  apply (visit_each_post graph _ (visit_unvisited_post env graph set_iter_spec _)) in E;
    [| apply keys_nodes | apply Inv_init].
  destruct E as (S & _). intros u v Hu He.
  destruct (inv_closed _ st (step_inv _ _ _ S) u v Hu He) as [G | G]; [assumption |].
  rewrite (step_temp _ _ _ S) in G. contradiction.
Qed.

(** X12. The sort returns the paths of the graph and nothing else: a path
    is in the result exactly when it is a key or a dependency of a key, so
    that a dependency that has no entry of its own is bundled as well. *)
Theorem sort_returns_every_path_of_the_graph
  (sorted_files : list Path) (cycles : list (Path * Path)) :
  NoDup (keys graph) ->
  topological_sort env graph = Some (sorted_files, cycles) ->
  forall x, In x sorted_files <-> In x (keys graph) \/ exists u, edge graph u x.
Proof.
  intros N T x.
  destruct (topological_sort_spec env graph set_iter_spec _ _ T)
    as (_ & Hk & Hnodes & _).
  split.
  - intros Hx. apply Hnodes in Hx. unfold nodes_of in Hx. apply in_app_or in Hx.
    destruct Hx as [Hx | Hx]; [auto |]. right.
    apply in_flat_map in Hx. destruct Hx as ([k deps] & Hin & Hd). simpl in Hd.
    exists k. unfold edge. rewrite (dict_get_entry graph k deps N Hin). assumption.
  - intros [Hx | (u & He)]; [auto |].
    apply (topological_sort_closed _ _ T u x); [| assumption].
    apply Hk. apply (edge_nodes graph u x He).
Qed.

(** Every reported edge ends on a cycle. *)
Definition Sound (st : SortState) : Prop :=
  forall u v, In (u, v) (s_edges_in_cycles st) -> on_cycle graph v.

(** Every path in progress reaches the path about to be visited through
    at least one edge. *)
Definition Above (n : Path) (st : SortState) : Prop :=
  forall t, In t (s_temp_visited st) -> exists w, reachable graph t w /\ edge graph w n.

Lemma visit_each_sound (f : Path -> SortState -> option SortState) (l : list Path) :
  (forall n st st', In n (nodes_of graph) -> Inv graph st -> f n st = Some st' ->
                    Step graph st st' /\ Done n st st' /\ Revisit graph n st st') ->
  (forall n st st', In n (nodes_of graph) -> Inv graph st -> Sound st ->
                    Above n st -> f n st = Some st' -> Sound st') ->
  forall st st',
    (forall n, In n l -> In n (nodes_of graph)) -> Inv graph st -> Sound st ->
    (forall n, In n l -> Above n st) ->
    visit_each f l st = Some st' -> Sound st'.
Proof.
  intros f_post f_sound. induction l as [| m l IH]; intros st st' Hl Hinv Hs Hst Hrun;
    simpl in Hrun.
  - inversion Hrun; subst. assumption.
  - destruct (f m st) as [st1 |] eqn:E; [| discriminate].
    destruct (f_post m st st1 (Hl m (or_introl eq_refl)) Hinv E) as (S1 & _).
    apply (IH st1 st').
    + intros n H. apply Hl. right. assumption.
    + apply (step_inv _ _ _ S1).
    + apply (f_sound m st st1); auto. apply Hl. left. reflexivity.
      apply Hst. left. reflexivity.
    + intros n H t Ht. rewrite (step_temp _ _ _ S1) in Ht. apply (Hst n); auto.
      right. assumption.
    + assumption.
Qed.

Lemma visit_sound (fuel : nat) :
  forall n st st',
    In n (nodes_of graph) -> Inv graph st -> Sound st -> Above n st ->
    visit env graph fuel n st = Some st' -> Sound st'.
Proof.
  induction fuel as [| fuel IH]; intros n st st' Hn Hinv Hs Hst Hrun; simpl in Hrun;
    [discriminate |].
  destruct (mem n (s_temp_visited st)) eqn:Et.
  - apply mem_true_iff in Et. inversion Hrun; subst; clear Hrun.
    intros u v Huv. simpl in Huv. apply in_app_or in Huv. destruct Huv as [G | G].
    + apply (Hs u v G).
    + apply (cycle_edges_In env graph set_iter_spec) in G. destruct G as (-> & _ & _).
      apply (Hst n Et).
  - apply mem_false_iff in Et.
    destruct (mem n (s_visited st)) eqn:Ev.
    + inversion Hrun; subst. exact Hs.
    + apply mem_false_iff in Ev. rewrite (inv_visited _ st Hinv) in Ev.
      rewrite (set_add_fresh _ _ Et) in Hrun.
      destruct (visit_each (visit env graph fuel)
                  (set_iter env (dict_get graph n)) _) as [st2 |] eqn:Eeach;
        [| discriminate].
      inversion Hrun; subst; clear Hrun.
      assert (Hnodes : forall v, In v (set_iter env (dict_get graph n)) ->
                                 In v (nodes_of graph)).
      { intros v Hv. apply (proj1 (set_iter_spec _ _)) in Hv.
        apply (edge_nodes graph n v). assumption. }
      pose proof (Inv_enter graph st n Hinv Et Ev) as I1.
      apply (visit_each_sound (visit env graph fuel) _
               (visit_post3 env graph set_iter_spec fuel) IH) in Eeach;
        [| assumption | assumption | exact Hs |].
      * intros u v Huv. simpl in Huv. apply (Eeach u v Huv).
      * intros v Hv t Ht. simpl in Ht. apply (proj1 (set_iter_spec _ _)) in Hv.
        apply in_app_or in Ht. destruct Ht as [Ht | [<- | []]].
        -- destruct (Hst t Ht) as (w & Hw & Hwn). exists n. split; [| exact Hv].
           eapply reach_step; eassumption.
        -- exists n. split; [apply reach_here | exact Hv].
Qed.

(** From a path, the paths it reaches come before it in a result in which
    every edge has its target first. *)
Lemma reachable_precedes (l : list Path) (n w : Path) :
  (forall u v, edge graph u v -> precedes v u l) ->
  reachable graph n w -> w = n \/ precedes w n l.
Proof.
  intros H R. induction R as [| u v _ IH He]; [auto |]. right.
  destruct IH as [-> | IH]; [apply H; assumption |].
  eapply precedes_trans; [apply H; eassumption | assumption].
Qed.

(** X13. An edge is only reported when its target lies on a cycle, and the
    list of reported edges is empty exactly when the graph has no cycle:
    the sort never warns about an acyclic graph and never keeps silent
    about a cyclic one. *)
Theorem cycles_reported_iff_cyclic
  (sorted_files : list Path) (cycles : list (Path * Path)) :
  topological_sort env graph = Some (sorted_files, cycles) ->
  (forall u v, In (u, v) cycles -> on_cycle graph v) /\
  (cycles = [] <-> forall n, ~ on_cycle graph n).
Proof.
  intros T.
  assert (Hsound : forall u v, In (u, v) cycles -> on_cycle graph v).
  { pose proof T as T'. unfold topological_sort in T'.
    destruct (visit_each _ _ _) as [st |] eqn:E; [| discriminate].
    inversion T'; subst; clear T'.
    apply (visit_each_sound
             (visit_unvisited env graph (S (List.length (nodes_of graph)))) (keys graph)
             (visit_unvisited_post env graph set_iter_spec _)) in E.
    - exact E.
    - intros n st0 st' Hn Hinv Hs Hst. unfold visit_unvisited.
      destruct (mem n (s_visited st0)).
      + intros H. inversion H; subst. assumption.
      + apply visit_sound; assumption.
    - apply keys_nodes.
    - apply Inv_init.
    - intros u v [].
    - intros n _ t []. }
  split; [assumption |]. split.
  - intros -> n (w & Hw & Hwn).
    destruct (topological_sort_spec env graph set_iter_spec _ _ T)
      as (_ & _ & _ & Hord & _).
    assert (Hall : forall u v, edge graph u v -> precedes v u sorted_files).
    { intros u v He. destruct (Hord u v He) as [[] | G]. assumption. }
    apply (precedes_irrefl n sorted_files).
    destruct (reachable_precedes sorted_files n w Hall Hw) as [-> | G].
    + apply Hall. assumption.
    + eapply precedes_trans; [apply Hall; eassumption | assumption].
  - intros Hacyclic. destruct cycles as [| [u v] cycles']; [reflexivity |].
    exfalso. apply (Hacyclic v). apply (Hsound u v). simpl. auto.
Qed.

End SortMore.

Lemma sort_returns_every_path_of_the_graph_witness :
  In Sample.b_py [Sample.b_py; Sample.a_py] <->
  In Sample.b_py (keys [(Sample.a_py, [Sample.b_py])]) \/
  exists u, edge [(Sample.a_py, [Sample.b_py])] u Sample.b_py.
Proof.
  apply (sort_returns_every_path_of_the_graph
           (Sample.project Sample.mutual [] Sample.in_order)
           [(Sample.a_py, [Sample.b_py])] (fun l x => iff_refl _)
           [Sample.b_py; Sample.a_py] []).
  - repeat constructor. simpl. intros [].
  - vm_compute. reflexivity.
Defined.

Lemma cycles_reported_iff_cyclic_witness :
  (forall u v, In (u, v) [(Sample.b_py, Sample.a_py)] ->
     on_cycle [(Sample.a_py, [Sample.b_py]); (Sample.b_py, [Sample.a_py])] v) /\
  ([(Sample.b_py, Sample.a_py)] = [] <->
   forall n, ~ on_cycle [(Sample.a_py, [Sample.b_py]); (Sample.b_py, [Sample.a_py])] n).
Proof.
  apply (cycles_reported_iff_cyclic
           (Sample.project Sample.mutual [] Sample.in_order)
           [(Sample.a_py, [Sample.b_py]); (Sample.b_py, [Sample.a_py])]
           (fun l x => iff_refl _) [Sample.b_py; Sample.a_py]).
  vm_compute. reflexivity.
Defined.

(** The source of a reported edge need not lie on a cycle: every path in
    progress that depends on the path met again is reported with it. Here
    the edge from [hub.py] to [b.py] is reported although nothing depends
    on [hub.py]. *)
Example reported_source_off_every_cycle :
  exists sorted_files cycles,
    topological_sort (Sample.project Sample.mutual [] Sample.in_order) tangled
    = Some (sorted_files, cycles) /\
    In (hub_py, Sample.b_py) cycles /\
    ~ on_cycle tangled hub_py.
Proof.
  eexists. eexists. split; [vm_compute; reflexivity |]. split; [simpl; auto |].
  intros (w & _ & He). unfold edge, tangled in He. cbn [dict_get] in He.
  repeat (destruct (path_eqb _ w) in He;
          [simpl in He; repeat (destruct He as [He | He]; [discriminate He |]);
           contradiction |]).
  contradiction.
Qed.

(** * Beyond the claims: the writer and a file outside the root *)

Lemma concat_blocks_app (xs ys : list string) :
  concat_blocks (xs ++ ys) = concat_blocks xs +s+ concat_blocks ys.
Proof.
  induction xs as [| x xs IH]; simpl; [reflexivity |].
  rewrite IH, append_assoc. reflexivity.
Qed.

(** After a stretch of files under the root, the loop goes on with their
    blocks written and with [relative_path_str] bound to the name of the
    last of them. *)
Lemma write_files_after (env : Env) (project_root : Path) (files : list Path)
  (prev : Path) (rest : list Path) :
  forall written rel,
    (forall f, In f (files ++ [prev]) -> is_relative_to f project_root = true) ->
    write_files env project_root (files ++ prev :: rest) written rel
    = write_files env project_root rest
        (written +s+ concat_blocks (map (spec_block env project_root) (files ++ [prev])))
        (Some (relative_name project_root prev)).
Proof.
  induction files as [| f files IH]; intros written rel H.
  - cbn [app write_files map concat_blocks].
    rewrite write_file_block by (apply H; simpl; auto).
    rewrite append_empty_r. reflexivity.
  - cbn [app write_files map concat_blocks].
    rewrite write_file_block by (apply H; simpl; auto).
    rewrite IH by (intros x Hx; apply H; simpl; auto).
    rewrite append_assoc. reflexivity.
Qed.

(** X14. Handed a list whose first file lies outside the root, the writer
    does not produce an error block: the handler of the loop reads a name
    that was never bound, the call ends with [UnboundLocalError], and the
    output file is left created and empty, whatever files follow. *)
Theorem first_file_outside_root_stops_the_writer (env : Env)
  (file_path : Path) (rest : list Path) (output_path project_root : Path) :
  mkdir_parents env (parent output_path) = Ok tt ->
  open_write env output_path = Ok tt ->
  is_relative_to file_path project_root = false ->
  exists e,
    create_combined_file env (file_path :: rest) output_path project_root
    = (Some EmptyString, Raise e) /\
    exn_class e = UnboundLocalError.
Proof.
  intros Hmk Hopen Hout. unfold create_combined_file. rewrite Hmk, Hopen.
  cbn [write_files]. unfold write_file, relative_to. rewrite Hout.
  cbn [handle_read_error bind]. eexists. split; reflexivity.
Qed.


Lemma first_file_outside_root_stops_the_writer_witness :
  exists e,
    create_combined_file (Sample.project Sample.mutual [] Sample.in_order)
      [["elsewhere"; "x.py"]%string; Sample.a_py] Sample.out_txt Sample.root
    = (Some EmptyString, Raise e) /\
    exn_class e = UnboundLocalError.
Proof.
  apply (first_file_outside_root_stops_the_writer
           (Sample.project Sample.mutual [] Sample.in_order)
           ["elsewhere"; "x.py"]%string [Sample.a_py] Sample.out_txt Sample.root).
  - reflexivity.
  - reflexivity.
  - reflexivity.
Defined.


(** * Beyond the claims: the command-line variant *)

(** X16. The guard on the level of a relative import in the command-line
    analyzer is off by one: for a level above one, [visit_ImportFrom] raises
    [IndexError] exactly when the level equals the number of parts of the
    directory of the file, the case the guard lets through; any other level
    returns. *)
Theorem cli_relative_level_off_by_one (env : Env) (file_path : Path)
  (module : string) (level : nat) :
  1 < level ->
  (level = parts_len (parent file_path) ->
   exists e, Cli.visit_ImportFrom env file_path (Some module) level = Raise e /\
             exn_class e = IndexError) /\
  (level <> parts_len (parent file_path) ->
   exists names, Cli.visit_ImportFrom env file_path (Some module) level = Ok names).
Proof.
  intros Hl. unfold Cli.visit_ImportFrom, parents_nth, parts_len.
  destruct (Nat.ltb_spec 0 level) as [_ | H0]; [| lia].
  destruct (Nat.ltb_spec 1 level) as [_ | H1]; [| lia].
  split.
  - intros ->.
    destruct (Nat.ltb_spec (S (List.length (parent file_path)))
                (S (List.length (parent file_path)))) as [H | _]; [lia |].
    destruct (Nat.ltb_spec (S (List.length (parent file_path)) - 1)
                (List.length (parent file_path))) as [H | _]; [lia |].
    cbn [bind]. eexists. split; reflexivity.
  - intros Hne.
    destruct (Nat.ltb_spec (S (List.length (parent file_path))) level) as [H | H];
      [eexists; reflexivity |].
    destruct (Nat.ltb_spec (level - 1) (List.length (parent file_path))) as [H2 | H2];
      [| lia].
    cbn [bind]. destruct (negb (Str.is_empty module)); eexists; reflexivity.
Qed.

Lemma cli_relative_level_off_by_one_witness :
  (2 = parts_len (parent Sample.a_py) ->
   exists e,
     Cli.visit_ImportFrom (Sample.project Sample.mutual [] Sample.in_order)
       Sample.a_py (Some "x"%string) 2 = Raise e /\
     exn_class e = IndexError) /\
  (2 <> parts_len (parent Sample.a_py) ->
   exists names,
     Cli.visit_ImportFrom (Sample.project Sample.mutual [] Sample.in_order)
       Sample.a_py (Some "x"%string) 2 = Ok names).
Proof.
  apply (cli_relative_level_off_by_one
           (Sample.project Sample.mutual [] Sample.in_order) Sample.a_py "x" 2).
  lia.
Defined.

(** The state of the sort of the core without the reported edges. *)
Definition forget_edges (st : Core.SortState) : Cli.SortState :=
  Cli.mkSort (s_result st) (s_visited st) (s_temp_visited st).

Section SortsAgree.

Variable env : Env.
Variable graph : Graph.
Hypothesis iterated_in_order : forall l, set_iter env l = l.

Lemma visit_each_forget (f : Path -> Core.SortState -> option Core.SortState)
  (g : Path -> Cli.SortState -> option Cli.SortState) :
  (forall n st, g n (forget_edges st) = option_map forget_edges (f n st)) ->
  forall l st,
    Cli.visit_each g l (forget_edges st)
    = option_map forget_edges (visit_each f l st).
Proof.
  intros H. induction l as [| n l IH]; intros st; simpl; [reflexivity |].
  rewrite H. destruct (f n st) as [st1 |]; simpl; [apply IH | reflexivity].
Qed.

Lemma visit_forget (fuel : nat) :
  forall n st,
    Cli.visit graph fuel n (forget_edges st)
    = option_map forget_edges (visit env graph fuel n st).
Proof.
  induction fuel as [| fuel IH]; intros n st; [reflexivity |].
  cbn [Cli.visit visit]. cbn [forget_edges Cli.s_temp_visited Cli.s_visited Cli.s_result].
  destruct (mem n (s_temp_visited st)); [reflexivity |].
  destruct (mem n (s_visited st)); [reflexivity |].
  rewrite iterated_in_order.
  change (Cli.mkSort (s_result st) (s_visited st) (set_add n (s_temp_visited st)))
    with (forget_edges (mkSort (s_result st) (s_visited st)
                          (set_add n (s_temp_visited st)) (s_edges_in_cycles st))).
  rewrite (visit_each_forget (visit env graph fuel) (Cli.visit graph fuel) IH).
  destruct (visit_each _ _ _) as [st1 |]; reflexivity.
Qed.

Lemma topological_sort_forget :
  Cli.topological_sort graph = option_map fst (topological_sort env graph).
Proof.
  unfold Cli.topological_sort, topological_sort.
  change (Cli.mkSort [] [] []) with (forget_edges (mkSort [] [] [] [])).
  rewrite (visit_each_forget
             (visit_unvisited env graph (S (List.length (nodes_of graph))))
             (Cli.visit_unvisited graph (S (List.length (nodes_of graph))))).
  - destruct (visit_each _ _ _) as [st |]; reflexivity.
  - intros n st. unfold Cli.visit_unvisited, visit_unvisited.
    cbn [forget_edges Cli.s_visited].
    destruct (mem n (s_visited st)); [reflexivity | apply visit_forget].
Qed.

(** X17. The sort of the core is the sort of the command-line variant with
    the bookkeeping of cycle edges added: on the same graph, with the
    dependency sets iterated in the order of the lists, both return the
    same order. *)
Theorem core_sort_is_the_cli_sort
  (sorted_files : list Path) (cycles : list (Path * Path)) :
  topological_sort env graph = Some (sorted_files, cycles) ->
  Cli.topological_sort graph = Some sorted_files.
Proof.
  intros T. rewrite topological_sort_forget, T. reflexivity.
Qed.

End SortsAgree.

Lemma core_sort_is_the_cli_sort_witness :
  Cli.topological_sort
    [(Sample.a_py, [Sample.b_py]); (Sample.b_py, [Sample.a_py])]
  = Some [Sample.b_py; Sample.a_py].
Proof.
  apply (core_sort_is_the_cli_sort
           (Sample.project Sample.mutual [] Sample.in_order)
           [(Sample.a_py, [Sample.b_py]); (Sample.b_py, [Sample.a_py])]
           (fun l => eq_refl) [Sample.b_py; Sample.a_py]
           [(Sample.b_py, Sample.a_py)]).
  vm_compute. reflexivity.
Defined.

(** The sort of the command-line variant returns on every graph, and what
    it returns is ordered like the result of the core. *)
Lemma cli_sort_facts (graph : Graph) :
  exists sorted_files,
    Cli.topological_sort graph = Some sorted_files /\
    NoDup sorted_files /\
    (forall k, In k (keys graph) -> In k sorted_files) /\
    (forall x, In x sorted_files -> In x (nodes_of graph)) /\
    (forall u v, In u sorted_files -> edge graph u v -> In v sorted_files) /\
    (forall u v, edge graph u v -> ~ reachable graph v u -> precedes v u sorted_files).
Proof.
  set (env := Sample.project [] [] Sample.in_order).
  assert (Hiter : forall l x, In x (set_iter env l) <-> In x l) by (intros; reflexivity).
  destruct (topological_sort_total env graph Hiter) as (sorted & cycles & T).
  exists sorted. split.
  - rewrite (topological_sort_forget env graph (fun l => eq_refl)), T. reflexivity.
  - destruct (topological_sort_spec env graph Hiter sorted cycles T)
      as (N & Hk & Hn & _).
    split; [assumption |]. split; [assumption |]. split; [assumption |]. split.
    + apply (topological_sort_closed env graph Hiter sorted cycles T).
    + apply (topological_sort_acyclic_edges env graph Hiter sorted cycles T).
Qed.


Lemma relpath_components_under (file_path project_root : Path) :
  is_relative_to file_path project_root = true ->
  Cli.relpath_components file_path project_root
  = skipn (List.length project_root) file_path.
Proof.
  revert file_path. induction project_root as [| r root IH]; intros file_path H.
  - destruct file_path; reflexivity.
  - destruct file_path as [| c p]; [discriminate |]. simpl in H.
    apply andb_true_iff in H. destruct H as [Hc Hp].
    simpl. rewrite Hc. apply IH. assumption.
Qed.

Lemma replace_absent (a b : ascii) (s : string) :
  Str.contains a s = false -> Str.replace a b s = s.
Proof.
  induction s as [| c s IH]; simpl; [reflexivity |].
  intros H. apply orb_false_iff in H. destruct H as [Hc Hs].
  rewrite Hc, IH by assumption. reflexivity.
Qed.

Lemma contains_append (a : ascii) (s t : string) :
  Str.contains a (s +s+ t) = Str.contains a s || Str.contains a t.
Proof.
  induction s as [| c s IH]; simpl; [reflexivity |].
  rewrite IH, orb_assoc. reflexivity.
Qed.

Lemma str_rel_no_backslash (cs : list string) :
  (forall c, In c cs -> Str.contains Str.backslash c = false) ->
  Str.contains Str.backslash (str_rel cs) = false.
Proof.
  intros H. destruct cs as [| c cs]; [reflexivity |].
  unfold str_rel. revert c H. induction cs as [| d cs IH]; intros c H.
  - apply H. simpl. auto.
  - change (join_components (c :: d :: cs))
      with (c +s+ "/" +s+ join_components (d :: cs)).
    rewrite !contains_append. rewrite (H c) by (simpl; auto).
    rewrite IH by (intros x Hx; apply H; simpl; simpl in Hx; tauto).
    reflexivity.
Qed.

(** For a readable file under the root whose name holds no backslash, the
    block of the command-line variant is the block of the core. *)
Lemma cli_block_is_the_core_block (env : Env) (project_root file_path : Path)
  (content : string) :
  is_relative_to file_path project_root = true ->
  read_text env file_path = Ok content ->
  (forall c, In c file_path -> Str.contains Str.backslash c = false) ->
  Cli.block env project_root file_path = spec_block env project_root file_path.
Proof.
  intros Hroot Hread Hname.
  unfold Cli.block, spec_block, Cli.relpath, relative_name, with_final_newline.
  rewrite Hread, (relpath_components_under _ _ Hroot).
  rewrite replace_absent.
  - cbv zeta. destruct (Str.endswith Str.newline content);
      [rewrite append_empty_r |]; reflexivity.
  - apply str_rel_no_backslash. intros c Hc. apply Hname.
    rewrite <- (firstn_skipn (List.length project_root) file_path).
    apply in_or_app. auto.
Qed.

(** X19. Handed the same readable files under the root, the two variants
    write the same text: the writer of the command-line variant and the
    writer of the core differ only in what they do about a file that cannot
    be read, a path outside the root or a backslash in a name. *)
Theorem writers_agree_on_readable_files (env : Env) (sorted_files : list Path)
  (output_path project_root : Path) :
  mkdir_parents env (parent output_path) = Ok tt ->
  open_write env output_path = Ok tt ->
  (forall f, In f sorted_files ->
     is_relative_to f project_root = true /\
     (exists content, read_text env f = Ok content) /\
     (forall c, In c f -> Str.contains Str.backslash c = false)) ->
  Cli.create_combined_file env sorted_files output_path project_root
  = create_combined_file env sorted_files output_path project_root.
Proof.
  intros Hmk Hopen Hfiles.
  unfold Cli.create_combined_file, create_combined_file. rewrite Hmk, Hopen.
  rewrite write_files_blocks by (intros f Hf; apply (Hfiles f Hf)).
  cbn [append]. f_equal. f_equal.
  induction sorted_files as [| f files IH]; [reflexivity |].
  cbn [Cli.blocks map concat_blocks].
  destruct (Hfiles f (or_introl eq_refl)) as (Hroot & (content & Hread) & Hname).
  rewrite (cli_block_is_the_core_block env project_root f content Hroot Hread Hname).
  rewrite IH by (intros x Hx; apply Hfiles; simpl; auto). reflexivity.
Qed.

Lemma writers_agree_on_readable_files_witness :
  Cli.create_combined_file (Sample.project Sample.mutual [] Sample.in_order)
    [Sample.b_py; Sample.a_py] Sample.out_txt Sample.root
  = create_combined_file (Sample.project Sample.mutual [] Sample.in_order)
      [Sample.b_py; Sample.a_py] Sample.out_txt Sample.root.
Proof.
  apply (writers_agree_on_readable_files
           (Sample.project Sample.mutual [] Sample.in_order)
           [Sample.b_py; Sample.a_py] Sample.out_txt Sample.root).
  - reflexivity.
  - reflexivity.
  - intros f [<- | [<- | []]].
    + split; [reflexivity |]. split; [eexists; vm_compute; reflexivity |].
      intros c [<- | [<- | []]]; reflexivity.
    + split; [reflexivity |]. split; [eexists; vm_compute; reflexivity |].
      intros c [<- | [<- | []]]; reflexivity.
Defined.

(** ** The name the command-line analyzer records for a relative import *)

Lemma not_startswith_dot (c : ascii) (s : string) :
  Str.startswith "." (String c s) = false -> Str.eqb_ascii c Str.dot = false.
Proof.
  unfold Str.startswith, Str.eqb_ascii, Str.dot. cbn [String.prefix].
  destruct (ascii_dec "." c) as [<- | N].
  - destruct s; discriminate.
  - intros _. apply Ascii.eqb_neq. congruence.
Qed.

Lemma count_leading_repeat (n : nat) (s : string) :
  Str.startswith "." s = false ->
  Str.count_leading Str.dot (Str.repeat Str.dot n +s+ s) = n.
Proof.
  intros H. induction n as [| n IH].
  - destruct s as [| c s]; [reflexivity |].
    cbn [Str.repeat append Str.count_leading].
    rewrite (not_startswith_dot c s H). reflexivity.
  - cbn [Str.repeat append Str.count_leading].
    unfold Str.eqb_ascii at 1. rewrite Ascii.eqb_refl. rewrite IH. reflexivity.
Qed.

Lemma drop_repeat (n : nat) (s : string) :
  Str.drop n (Str.repeat Str.dot n +s+ s) = s.
Proof. induction n as [| n IH]; simpl; [destruct s; reflexivity | assumption]. Qed.

Lemma split_not_nil (sep : ascii) (s : string) : Str.split sep s <> [].
Proof.
  destruct s as [| c r]; simpl; [discriminate |].
  destruct (Str.eqb_ascii c sep); [discriminate |].
  destruct (Str.split sep r); discriminate.
Qed.

Lemma split_absent (sep : ascii) (t : string) :
  Str.contains sep t = false -> Str.split sep t = [t].
Proof.
  induction t as [| c t IH]; simpl; [reflexivity |].
  intros H. apply orb_false_iff in H. destruct H as [Hc Ht].
  rewrite Hc, IH by assumption. reflexivity.
Qed.

Lemma split_no_sep (sep : ascii) (s x : string) :
  In x (Str.split sep s) -> Str.contains sep x = false.
Proof.
  revert x. induction s as [| c r IH]; simpl; intros x H.
  - destruct H as [<- | []]. reflexivity.
  - destruct (Str.eqb_ascii c sep) eqn:E.
    + destruct H as [<- | H]; [reflexivity | auto].
    + destruct (Str.split sep r) as [| w ws] eqn:S.
      * destruct H as [<- | []]. simpl. rewrite E. reflexivity.
      * destruct H as [<- | H].
        -- simpl. rewrite E. apply IH. simpl. auto.
        -- apply IH. simpl. auto.
Qed.

Lemma split_replace (m : string) :
  Str.contains Str.slash m = false ->
  Str.split Str.slash (Str.replace Str.dot Str.slash m) = Str.split Str.dot m.
Proof.
  induction m as [| c r IH]; simpl; [reflexivity |].
  intros H. apply orb_false_iff in H. destruct H as [Hc Hr].
  destruct (Str.eqb_ascii c Str.dot) eqn:E.
  - change (Str.eqb_ascii Str.slash Str.slash) with true. cbv iota.
    rewrite IH by assumption. reflexivity.
  - rewrite Hc, IH by assumption. reflexivity.
Qed.

Lemma split_append (sep : ascii) (s t : string) :
  Str.contains sep t = false ->
  Str.split sep (s +s+ t)
  = removelast (Str.split sep s) ++ [last (Str.split sep s) EmptyString +s+ t].
Proof.
  intros Ht. induction s as [| c r IH].
  - simpl. apply split_absent. assumption.
  - cbn [append Str.split]. rewrite IH. clear IH.
    pose proof (split_not_nil sep r) as N.
    destruct (Str.split sep r) as [| w ws]; [congruence |].
    destruct (Str.eqb_ascii c sep).
    + destruct ws; reflexivity.
    + destruct ws; reflexivity.
Qed.

Lemma rfind_absent (c : ascii) (s : string) :
  Str.contains c s = false -> Str.rfind c s = None.
Proof.
  induction s as [| d s IH]; simpl; [reflexivity |].
  intros H. apply orb_false_iff in H. destruct H as [Hd Hs].
  rewrite IH, Hd by assumption. reflexivity.
Qed.

Lemma substring_all (s : string) : String.substring 0 (String.length s) s = s.
Proof. induction s as [| c s IH]; simpl; [reflexivity | rewrite IH; reflexivity]. Qed.

Lemma segments_app (xs ys : list string) :
  segments (xs ++ ys) = segments xs ++ segments ys.
Proof. unfold segments. apply filter_app. Qed.

Lemma segments_word (l : string) :
  l <> EmptyString -> Str.contains Str.dot l = false -> segments [l] = [l].
Proof.
  intros N D. unfold segments. cbn [filter].
  destruct l as [| c l]; [congruence |]. cbn [Str.is_empty negb andb].
  destruct (String.eqb (String c l) ".") eqn:E; [| reflexivity].
  apply String.eqb_eq in E. rewrite E in D. discriminate.
Qed.

(** The file the command-line variant looks for and the module-file
    candidate of the core are the same path. *)
Lemma module_file_candidate (dir : Path) (m : string) :
  Str.contains Str.slash m = false ->
  last (Str.split Str.dot m) EmptyString <> EmptyString ->
  with_suffix (joinpath dir (Str.split Str.dot m)) ".py"
  = Ok (joinstr dir (Str.replace Str.dot Str.slash m +s+ ".py")).
Proof.
  intros Hslash Hlast.
  pose proof (split_not_nil Str.dot m) as N.
  set (l := last (Str.split Str.dot m) EmptyString) in *.
  assert (Hl : Str.contains Str.dot l = false).
  { apply (split_no_sep Str.dot m). unfold l.
    destruct (exists_last N) as (xs & x & E). rewrite E, last_last.
    apply in_or_app. simpl. auto. }
  assert (E : Str.split Str.dot m = removelast (Str.split Str.dot m) ++ [l]).
  { apply app_removelast_last. assumption. }
  unfold joinstr, joinpath.
  rewrite split_append by reflexivity. rewrite split_replace by assumption. fold l.
  rewrite segments_app.
  rewrite E at 1. rewrite segments_app, (segments_word l Hlast Hl).
  assert (Hpy : segments [l +s+ ".py"] = [l +s+ ".py"]).
  { unfold segments. cbn [filter]. destruct l as [| c l']; [congruence |].
    cbn [append Str.is_empty negb andb].
    destruct (String.eqb (String c (l' +s+ ".py")) ".") eqn:Q; [| reflexivity].
    apply String.eqb_eq in Q. inversion Q as [[Hc Hr]].
    destruct l'; discriminate. }
  rewrite Hpy. rewrite !app_assoc.
  unfold with_suffix, name. rewrite last_last, removelast_last.
  destruct l as [| c l'] eqn:El; [congruence |]. cbn [Str.is_empty].
  rewrite <- El in *. unfold suffix. rewrite (rfind_absent _ _ Hl).
  cbn [String.length]. rewrite Nat.sub_0_r, substring_all. reflexivity.
Qed.

(** X20. For a relative import with a module name, within the bounds of
    the level guard, the command-line variant looks at one file only: the
    name it records is decoded by [resolve_module_path] into the module-file
    candidate of the core below the same base directory. That file is a
    dependency when it exists and its text starts with the text of the
    root; the package-init file and the project root are never tried. *)
Theorem cli_relative_import_tries_the_module_file (env : Env)
  (file_path project_root : Path) (m : string) (level : nat) :
  0 < level ->
  level < parts_len (parent file_path) \/ level = 1 ->
  Str.startswith "." m = false ->
  Str.contains Str.slash m = false ->
  last (Str.split Str.dot m) EmptyString <> EmptyString ->
  exists c,
    with_suffix (joinpath (resolution_base file_path project_root level)
                   (Str.split Str.dot m)) ".py" = Ok c /\
    Cli.import_paths env file_path project_root (ImportFrom (Some m) level)
    = Ok (match path_exists env c with
          | Ok true => if Str.startswith (str project_root) (str c) then [c] else []
          | _ => []
          end).
Proof.
  intros H0 Hlevel Hdot Hslash Hlast.
  assert (Hm : Str.is_empty m = false).
  { destruct m; [simpl in Hlast; congruence | reflexivity]. }
  eexists. split; [apply module_file_candidate; assumption |].
  unfold resolution_base. destruct (Nat.ltb_spec 0 level) as [_ | H]; [| lia].
  unfold Cli.import_paths, Cli.recorded, Cli.visit_ImportFrom, parents_nth, parts_len in *.
  destruct (Nat.ltb_spec 0 level) as [_ | H]; [| lia].
  destruct (Nat.ltb_spec (S (List.length (parent file_path))) level) as [H | _];
    [lia |].
  assert (Hp : (if 1 <? level
                then if level - 1 <? List.length (parent file_path)
                     then Ok (Nat.iter (S (level - 1)) parent (parent file_path))
                     else Raise (mkExn IndexError "index out of range")
                else Ok (parent file_path))
               = Ok (if 1 <? level
                     then Nat.iter (S (level - 1)) parent (parent file_path)
                     else parent file_path)).
  { destruct (Nat.ltb_spec 1 level) as [H1 | H1]; [| reflexivity].
    destruct (Nat.ltb_spec (level - 1) (List.length (parent file_path))) as [_ | H2];
      [reflexivity | lia]. }
  rewrite Hp, Hm. cbn [bind negb flat_map app].
  unfold Cli.import_path, Cli.resolve_module_path.
  change ("." +s+ Str.repeat Str.dot (level - 1) +s+ m)
    with (String "." (Str.repeat Str.dot (level - 1) +s+ m)).
  assert (Hs : Str.startswith "." (String "." (Str.repeat Str.dot (level - 1) +s+ m))
               = true).
  { unfold Str.startswith. cbn [String.prefix].
    destruct (ascii_dec "." "."); [| congruence].
    destruct (Str.repeat Str.dot (level - 1) +s+ m); reflexivity. }
  rewrite Hs. cbv zeta.
  assert (Hc : Str.count_leading Str.dot
                 (String "." (Str.repeat Str.dot (level - 1) +s+ m)) = level).
  { cbn [Str.count_leading]. change (Str.eqb_ascii "." Str.dot) with true. cbv iota.
    rewrite count_leading_repeat by assumption. lia. }
  rewrite Hc.
  assert (Hd : Str.drop level (String "." (Str.repeat Str.dot (level - 1) +s+ m)) = m).
  { destruct level as [| k]; [lia |]. cbn [Str.drop].
    replace (S k - 1) with k by lia. apply drop_repeat. }
  rewrite Hd, Hm. cbn [negb bind].
  destruct (path_exists env _) as [[|] |]; cbn [bind andb]; try reflexivity.
  destruct (Str.startswith (str project_root) _); reflexivity.
Qed.

Lemma cli_relative_import_tries_the_module_file_witness :
  exists c,
    with_suffix (joinpath (resolution_base stray_mod Sample.root 1)
                   (Str.split Str.dot "helpers")) ".py" = Ok c /\
    Cli.import_paths stray stray_mod Sample.root (ImportFrom (Some "helpers"%string) 1)
    = Ok (match path_exists stray c with
          | Ok true => if Str.startswith (str Sample.root) (str c) then [c] else []
          | _ => []
          end).
Proof.
  apply (cli_relative_import_tries_the_module_file stray stray_mod Sample.root
           "helpers" 1).
  - lia.
  - right. reflexivity.
  - reflexivity.
  - reflexivity.
  - simpl. discriminate.
Defined.

(** * Beyond the claims: the graph of the command-line variant *)

Lemma dict_get_not_key (g : Graph) (k : Path) :
  ~ In k (keys g) -> dict_get g k = [].
Proof.
  induction g as [| [a l] g IH]; simpl; [reflexivity |].
  intros H. destruct (path_eqb a k) eqn:E.
  - apply path_eqb_true_iff in E. exfalso. apply H. auto.
  - apply IH. intros F. apply H. auto.
Qed.

Lemma dict_append_same (g : Graph) (k v : Path) :
  dict_get (Cli.dict_append g k v) k = dict_get g k ++ [v].
Proof.
  induction g as [| [a l] g IH]; simpl.
  - rewrite path_eqb_refl. reflexivity.
  - destruct (path_eqb a k) eqn:E; simpl; rewrite E; auto.
Qed.

Lemma dict_append_other (g : Graph) (k k' v : Path) :
  k' <> k -> dict_get (Cli.dict_append g k v) k' = dict_get g k'.
Proof.
  intros N. induction g as [| [a l] g IH]; simpl.
  - rewrite path_eqb_neq by congruence. reflexivity.
  - destruct (path_eqb a k) eqn:E; simpl.
    + apply path_eqb_true_iff in E. subst a.
      rewrite path_eqb_neq by congruence. reflexivity.
    + destruct (path_eqb a k'); auto.
Qed.

Lemma dict_append_keys (g : Graph) (k v x : Path) :
  In x (keys (Cli.dict_append g k v)) <-> x = k \/ In x (keys g).
Proof.
  induction g as [| [a l] g IH]; simpl.
  - split; [intros [<- | []]; auto | intros [-> | []]; auto].
  - destruct (path_eqb a k) eqn:E; simpl.
    + apply path_eqb_true_iff in E. subst a. split; [auto | intros [-> | H]; auto].
    + rewrite IH. tauto.
Qed.

Lemma dict_append_NoDup (g : Graph) (k v : Path) :
  NoDup (keys g) -> NoDup (keys (Cli.dict_append g k v)).
Proof.
  induction g as [| [a l] g IH]; simpl; intros H.
  - constructor; [intros [] | constructor].
  - inversion H as [| ? ? Ha Hg]; subst. destruct (path_eqb a k) eqn:E; simpl.
    + constructor; assumption.
    + constructor; [| auto]. intros F. apply dict_append_keys in F.
      destruct F as [-> | F]; [| contradiction].
      rewrite path_eqb_refl in E. discriminate.
Qed.

Section AddImports.

Variable file_path : Path.
Variable visited : list Path.

Lemma add_imports_queue (imports : list Path) :
  forall graph queue,
    snd (Cli.add_imports file_path visited imports graph queue)
    = queue ++ filter (fun d => negb (mem d visited)) imports.
Proof.
  unfold Cli.add_imports.
  induction imports as [| d l IH]; intros graph queue; simpl.
  - rewrite app_nil_r. reflexivity.
  - rewrite IH. simpl. destruct (mem d visited); simpl; [reflexivity |].
    rewrite <- app_assoc. reflexivity.
Qed.

Lemma add_imports_same (imports : list Path) :
  forall graph queue,
    dict_get (fst (Cli.add_imports file_path visited imports graph queue)) file_path
    = dict_get graph file_path ++ imports.
Proof.
  unfold Cli.add_imports.
  induction imports as [| d l IH]; intros graph queue; simpl.
  - rewrite app_nil_r. reflexivity.
  - rewrite IH. simpl. rewrite dict_append_same, <- app_assoc. reflexivity.
Qed.

Lemma add_imports_other (imports : list Path) (k : Path) :
  k <> file_path ->
  forall graph queue,
    dict_get (fst (Cli.add_imports file_path visited imports graph queue)) k
    = dict_get graph k.
Proof.
  intros N. unfold Cli.add_imports.
  induction imports as [| d l IH]; intros graph queue; simpl; [reflexivity |].
  rewrite IH. simpl. apply dict_append_other. assumption.
Qed.

Lemma add_imports_keys (imports : list Path) (x : Path) :
  forall graph queue,
    In x (keys (fst (Cli.add_imports file_path visited imports graph queue))) <->
    (x = file_path /\ imports <> []) \/ In x (keys graph).
Proof.
  unfold Cli.add_imports.
  induction imports as [| d l IH]; intros graph queue; simpl.
  - split; [auto | intros [[_ F] | H]; [congruence | assumption]].
  - rewrite IH. simpl. rewrite dict_append_keys. split.
    + intros [[-> _] | [-> | H]]; auto; left; split; auto; discriminate.
    + intros [[-> _] | H]; auto.
Qed.

Lemma add_imports_NoDup (imports : list Path) :
  forall graph queue,
    NoDup (keys graph) ->
    NoDup (keys (fst (Cli.add_imports file_path visited imports graph queue))).
Proof.
  unfold Cli.add_imports.
  induction imports as [| d l IH]; intros graph queue H; simpl; [assumption |].
  apply IH. simpl. apply dict_append_NoDup. assumption.
Qed.

End AddImports.

Section CliBuildFacts.

Variable env : Env.
Variable names_iter : list string -> list string.
Variable project_root : Path.
Variable entry : Path.

Local Abbreviation analyze := (fun k => Cli.analyze_imports env names_iter k project_root).
Local Abbreviation reached := (cli_reachable env names_iter project_root entry).

(** What holds of the graph and of the set of visited files between two
    turns of the loop, the queue apart. *)
Record CGraph (graph : Graph) (visited : list Path) : Prop := {
  cg_nodup : NoDup (keys graph);
  cg_keys : forall k, In k (keys graph) -> In k visited /\ dict_get graph k <> [];
  cg_values : forall k, In k visited -> analyze k = Ok (dict_get graph k);
  cg_reach : forall k, In k visited -> reached k
}.

Record CInv (st : Cli.BuildState) : Prop := {
  ci_graph : CGraph (Cli.b_graph st) (Cli.b_visited st);
  ci_queue : forall q, In q (Cli.b_queue st) -> reached q;
  ci_closed : forall k d, In k (Cli.b_visited st) -> In d (dict_get (Cli.b_graph st) k) ->
    In d (Cli.b_visited st) \/ In d (Cli.b_queue st);
  ci_entry : In entry (Cli.b_visited st) \/ In entry (Cli.b_queue st)
}.

Lemma CInv_init : CInv (Cli.mkBuild [] [entry] []).
Proof.
  constructor; simpl.
  - constructor; simpl; try constructor; intros; contradiction.
  - intros q [<- | []]. constructor.
  - intros k d [].
  - auto.
Qed.

Lemma CInv_skip (graph : Graph) (c : Path) (rest visited : list Path) :
  CInv (Cli.mkBuild graph (c :: rest) visited) -> In c visited ->
  CInv (Cli.mkBuild graph rest visited).
Proof.
  intros [G Q C E] Hc. simpl in *. constructor; simpl.
  - assumption.
  - intros q Hq. apply Q. auto.
  - intros k d Hk Hd. destruct (C k d Hk Hd) as [H | [<- | H]]; auto.
  - destruct E as [H | [<- | H]]; auto.
Qed.

Lemma CInv_visit (graph : Graph) (c : Path) (rest visited imports : list Path) :
  CInv (Cli.mkBuild graph (c :: rest) visited) -> ~ In c visited ->
  analyze c = Ok imports ->
  CInv (Cli.mkBuild
          (fst (Cli.add_imports c (visited ++ [c]) imports graph rest))
          (snd (Cli.add_imports c (visited ++ [c]) imports graph rest))
          (visited ++ [c])).
Proof.
  intros [[N K V R] Q C E] Hc Han. simpl in *.
  assert (Hfresh : dict_get graph c = []).
  { apply dict_get_not_key. intros F. apply Hc. apply (K c F). }
  assert (Hget : forall k,
             dict_get (fst (Cli.add_imports c (visited ++ [c]) imports graph rest)) k
             = if path_eq_dec k c then imports else dict_get graph k).
  { intros k. destruct (path_eq_dec k c) as [-> | Hk].
    - rewrite add_imports_same, Hfresh. reflexivity.
    - apply add_imports_other. assumption. }
  constructor; simpl.
  - constructor.
    + apply add_imports_NoDup. assumption.
    + intros k Hk. apply add_imports_keys in Hk. rewrite Hget.
      destruct (path_eq_dec k c) as [-> | Hkc].
      * split; [apply in_or_app; simpl; auto |].
        destruct Hk as [[_ Hne] | Hk]; [assumption |].
        exfalso. apply Hc. apply (K c Hk).
      * destruct Hk as [[-> _] | Hk]; [congruence |].
        destruct (K k Hk) as [Hv Hne]. split; [apply in_or_app; auto | assumption].
    + intros k Hk. rewrite Hget. destruct (path_eq_dec k c) as [-> | Hkc];
        [assumption |].
      apply in_app_or in Hk. destruct Hk as [Hk | [<- | []]]; [auto | congruence].
    + intros k Hk. apply in_app_or in Hk. destruct Hk as [Hk | [<- | []]]; [auto |].
      apply Q. auto.
  - intros q Hq. rewrite add_imports_queue in Hq. apply in_app_or in Hq.
    destruct Hq as [Hq | Hq]; [apply Q; auto |].
    apply filter_In in Hq. destruct Hq as [Hq _].
    apply (cli_step env names_iter project_root entry c q); [apply Q; auto |].
    exists imports. auto.
  - intros k d Hk Hd. rewrite Hget in Hd. rewrite add_imports_queue.
    destruct (path_eq_dec k c) as [-> | Hkc].
    + destruct (mem d (visited ++ [c])) eqn:Em.
      * left. apply mem_true_iff. assumption.
      * right. apply in_or_app. right. apply filter_In. split; [assumption |].
        rewrite Em. reflexivity.
    + apply in_app_or in Hk. destruct Hk as [Hk | [<- | []]]; [| congruence].
      destruct (C k d Hk Hd) as [H | [<- | H]].
      * left. apply in_or_app. auto.
      * left. apply in_or_app. simpl. auto.
      * right. apply in_or_app. auto.
  - rewrite add_imports_queue. destruct E as [H | [<- | H]].
    + left. apply in_or_app. auto.
    + left. apply in_or_app. simpl. auto.
    + right. apply in_or_app. auto.
Qed.

(** What the loop returns: an exception raised by the analysis of a file
    that was reached, or the graph of everything that can be reached. *)
Lemma cli_build_loop_post (fuel : nat) :
  forall st r,
    CInv st -> Cli.build_loop env names_iter project_root fuel st = Some r ->
    match r with
    | Raise e => exists u, reached u /\ analyze u = Raise e
    | Ok graph =>
        exists visited,
          CGraph graph visited /\
          (forall k d, In k visited -> In d (dict_get graph k) -> In d visited) /\
          In entry visited
    end.
Proof.
  induction fuel as [| fuel IH]; intros st r I Hrun; [discriminate |].
  destruct st as [graph queue visited]. cbn [Cli.build_loop Cli.b_queue] in Hrun.
  destruct queue as [| c rest].
  - inversion Hrun; subst; clear Hrun. exists visited.
    destruct I as [G Q C E]. simpl in *. split; [assumption |]. split.
    + intros k d Hk Hd. destruct (C k d Hk Hd) as [H | []]. assumption.
    + destruct E as [H | []]. assumption.
  - cbn [Cli.b_visited Cli.b_graph] in Hrun.
    destruct (mem c visited) eqn:Ev.
    + apply mem_true_iff in Ev. apply (IH _ r (CInv_skip _ _ _ _ I Ev) Hrun).
    + apply mem_false_iff in Ev. cbv zeta in Hrun.
      destruct (Cli.analyze_imports env names_iter c project_root) as [imports | e]
        eqn:Ea.
      * rewrite (set_add_fresh _ _ Ev) in Hrun.
        apply (IH _ r (CInv_visit _ _ _ _ imports I Ev Ea) Hrun).
      * inversion Hrun; subst; clear Hrun. exists c. split; [| assumption].
        apply (ci_queue _ I). simpl. auto.
Qed.

Lemma cli_build_loop_more_fuel (fuel : nat) :
  forall fuel' st r, fuel <= fuel' ->
    Cli.build_loop env names_iter project_root fuel st = Some r ->
    Cli.build_loop env names_iter project_root fuel' st = Some r.
Proof.
  induction fuel as [| fuel IH]; intros fuel' st r Hle Hrun; [discriminate |].
  destruct fuel' as [| fuel']; [lia |]. cbn [Cli.build_loop] in *.
  destruct (Cli.b_queue st) as [| c rest]; [assumption |].
  destruct (mem c (Cli.b_visited st)); [apply IH; [lia | assumption] |].
  cbv zeta in *.
  destruct (Cli.analyze_imports env names_iter c project_root); [| assumption].
  apply IH; [lia | assumption].
Qed.

(** *** Termination on a finite project *)

Variable universe : list Path.

Hypothesis finite : forall u v, cli_edge env names_iter project_root u v -> In v universe.

Lemma cli_build_loop_terminates (n : nat) :
  forall queue graph visited,
    unseen entry universe visited <= n ->
    (forall q, In q queue -> In q (entry :: universe)) ->
    exists fuel r,
      Cli.build_loop env names_iter project_root fuel
        (Cli.mkBuild graph queue visited) = Some r.
Proof.
  induction n as [| n IHn]; intros queue; induction queue as [| c rest IHq];
    intros graph visited Hn Hq.
  - exists 1. eexists. reflexivity.
  - destruct (mem c visited) eqn:Ev.
    + destruct (IHq graph visited Hn (fun q H => Hq q (or_intror H)))
        as (fuel & r & E).
      exists (S fuel), r. cbn [Cli.build_loop Cli.b_queue Cli.b_visited Cli.b_graph].
      rewrite Ev. assumption.
    + apply mem_false_iff in Ev.
      pose proof (unseen_visit entry universe visited c (Hq c (or_introl eq_refl)) Ev).
      lia.
  - exists 1. eexists. reflexivity.
  - destruct (mem c visited) eqn:Ev.
    + destruct (IHq graph visited Hn (fun q H => Hq q (or_intror H)))
        as (fuel & r & E).
      exists (S fuel), r. cbn [Cli.build_loop Cli.b_queue Cli.b_visited Cli.b_graph].
      rewrite Ev. assumption.
    + pose proof Ev as Ev'. apply mem_false_iff in Ev'.
      destruct (Cli.analyze_imports env names_iter c project_root) as [imports | e]
        eqn:Ea.
      * destruct (IHn (snd (Cli.add_imports c (visited ++ [c]) imports graph rest))
                    (fst (Cli.add_imports c (visited ++ [c]) imports graph rest))
                    (visited ++ [c])) as (fuel & r & E).
        -- pose proof (unseen_visit entry universe visited c
                         (Hq c (or_introl eq_refl)) Ev'). lia.
        -- intros q Hin. rewrite add_imports_queue in Hin. apply in_app_or in Hin.
           destruct Hin as [Hin | Hin]; [apply Hq; simpl; auto |].
           apply filter_In in Hin. destruct Hin as [Hin _]. right.
           apply (finite c q). exists imports. auto.
        -- exists (S fuel), r.
           cbn [Cli.build_loop Cli.b_queue Cli.b_visited Cli.b_graph].
           rewrite Ev. cbv zeta. rewrite Ea, (set_add_fresh _ _ Ev'). assumption.
      * exists 1. eexists.
        cbn [Cli.build_loop Cli.b_queue Cli.b_visited Cli.b_graph].
        rewrite Ev. cbv zeta. rewrite Ea. reflexivity.
Qed.

End CliBuildFacts.

Lemma import_path_sound (env : Env) (file_path project_root : Path)
  (module_name : string) (p : Path) :
  Cli.import_path env file_path project_root module_name = Some p ->
  path_exists env p = Ok true /\
  Str.startswith (str project_root) (str p) = true.
Proof.
  unfold Cli.import_path.
  destruct (Cli.resolve_module_path env module_name file_path project_root)
    as [module_path |]; cbn [bind]; [| discriminate].
  destruct (path_exists env module_path) as [[|] |] eqn:E; cbn [bind andb];
    try discriminate.
  destruct (Str.startswith _ _) eqn:S; [| discriminate].
  intros H. inversion H; subst. auto.
Qed.

(** What the analysis of a file returns exists and has the text of the
    root at the start of its text. *)
Lemma cli_edge_exists (env : Env) (names_iter : list string -> list string)
  (project_root u v : Path) :
  cli_edge env names_iter project_root u v ->
  path_exists env v = Ok true /\
  Str.startswith (str project_root) (str v) = true.
Proof.
  intros (imports & Ha & Hv). unfold Cli.analyze_imports in Ha.
  destruct (read_text env u) as [source |]; cbn [bind] in Ha; [| discriminate].
  destruct (ast_imports env source) as [tree |]; cbn [bind] in Ha.
  - destruct (Cli.visit_tree env u tree) as [names |]; cbn [bind] in Ha.
    + inversion Ha; subst. apply in_flat_map in Hv. destruct Hv as (n & _ & Hn).
      destruct (Cli.import_path env u project_root n) as [p |] eqn:E; [| contradiction].
      destruct Hn as [<- | []]. eapply import_path_sound. eassumption.
    + destruct (Cli.is_SyntaxError e); inversion Ha; subst. contradiction.
  - destruct (Cli.is_SyntaxError e); inversion Ha; subst. contradiction.
Qed.

Section CliGraph.

Variable env : Env.
Variable names_iter : list string -> list string.
Variable project_root : Path.
Variable entry : Path.

(** In the graph that is returned, the entry of every file that can be
    reached is what its analysis returns. *)
Lemma cli_graph_values (fuel : nat) (graph : Graph) :
  Cli.build_dependency_graph env names_iter fuel entry project_root = Some (Ok graph) ->
  NoDup (keys graph) /\
  (forall u, cli_reachable env names_iter project_root entry u ->
             Cli.analyze_imports env names_iter u project_root = Ok (dict_get graph u)) /\
  (forall k, In k (keys graph) ->
             cli_reachable env names_iter project_root entry k /\ dict_get graph k <> []).
Proof.
  intros B. unfold Cli.build_dependency_graph in B.
  apply (cli_build_loop_post env names_iter project_root entry fuel _ _
           (CInv_init env names_iter project_root entry)) in B.
  destruct B as (visited & [N K V R] & Hclosed & Hentry).
  assert (Hall : forall u, cli_reachable env names_iter project_root entry u ->
                           In u visited).
  { intros u Hu. induction Hu as [| a b _ IH (imports & Ha & Hb)]; [assumption |].
    apply (Hclosed a b IH). rewrite (V a IH) in Ha. inversion Ha; subst. assumption. }
  split; [assumption |]. split.
  - intros u Hu. apply V, Hall. assumption.
  - intros k Hk. destruct (K k Hk) as [Hv Hne]. auto.
Qed.

(** X21. When [build_dependency_graph] of the command-line variant returns
    a graph, its edges are the imports of the files that can be reached
    from the entry file: [v] stands in the list of [u] exactly when [u] can
    be reached and the analysis of [u] returns [v]. A file without imports
    has no entry, and every path in the graph exists and has the text of
    the root at the start of its own text. *)
Theorem cli_graph_is_the_import_closure (fuel : nat) (graph : Graph) :
  Cli.build_dependency_graph env names_iter fuel entry project_root = Some (Ok graph) ->
  (forall u v, edge graph u v <->
               cli_reachable env names_iter project_root entry u /\
               cli_edge env names_iter project_root u v) /\
  (forall k, In k (keys graph) -> dict_get graph k <> []) /\
  (forall u v, edge graph u v ->
               path_exists env v = Ok true /\
               Str.startswith (str project_root) (str v) = true).
Proof.
  intros B. destruct (cli_graph_values fuel graph B) as (_ & V & K).
  assert (Hedge : forall u v, edge graph u v <->
                    cli_reachable env names_iter project_root entry u /\
                    cli_edge env names_iter project_root u v).
  { intros u v. split.
    - intros He. pose proof (edge_nodes graph u v He) as [Hu _].
      destruct (K u Hu) as [Hr _]. split; [assumption |].
      exists (dict_get graph u). split; [apply V; assumption | exact He].
    - intros [Hr (imports & Ha & Hv)]. unfold edge.
      rewrite (V u Hr) in Ha. inversion Ha; subst. assumption. }
  split; [assumption |]. split.
  - intros k Hk. apply (K k Hk).
  - intros u v He. apply Hedge in He. destruct He as [_ He].
    eapply cli_edge_exists. eassumption.
Qed.

(** X22. Nothing in the command-line variant stands between an exception
    of [analyze_imports] and the caller: when the traversal ends, it ends
    in an exception exactly when the analysis of some file that can be
    reached from the entry file raises, be it a file that cannot be read or
    a relative import at the level the guard lets through. *)
Theorem cli_build_fails_iff_a_reachable_file_fails (fuel : nat)
  (r : result Graph) :
  Cli.build_dependency_graph env names_iter fuel entry project_root = Some r ->
  (exists e, r = Raise e) <->
  (exists u e, cli_reachable env names_iter project_root entry u /\
               Cli.analyze_imports env names_iter u project_root = Raise e).
Proof.
  intros B. split.
  - intros (e & ->). unfold Cli.build_dependency_graph in B.
    apply (cli_build_loop_post env names_iter project_root entry fuel _ _
             (CInv_init env names_iter project_root entry)) in B.
    destruct B as (u & Hu & Ha). exists u, e. auto.
  - intros (u & e & Hu & Ha). destruct r as [graph | e']; [| eauto].
    destruct (cli_graph_values fuel graph B) as (_ & V & _).
    rewrite (V u Hu) in Ha. discriminate.
Qed.

(** X23. On a file system with finitely many paths the traversal of the
    command-line variant ends: there is an amount of fuel from which on
    [build_dependency_graph] returns, and returns the same. *)
Theorem cli_build_terminates (universe : list Path) :
  (forall p, path_exists env p = Ok true -> In p universe) ->
  exists fuel r, forall fuel',
    fuel <= fuel' ->
    Cli.build_dependency_graph env names_iter fuel' entry project_root = Some r.
Proof.
  intros Hfin.
  destruct (cli_build_loop_terminates env names_iter project_root entry universe
              (fun u v H => Hfin v (proj1 (cli_edge_exists _ _ _ _ _ H)))
              (unseen entry universe []) [entry] [] [] (le_n _))
    as (fuel & r & E).
  - intros q [<- | []]. simpl. auto.
  - exists fuel, r. intros fuel' Hle. unfold Cli.build_dependency_graph.
    apply (cli_build_loop_more_fuel env names_iter project_root fuel); assumption.
Qed.


End CliGraph.

Lemma In_prefixes (p q : Path) : is_relative_to q p = true -> In p (prefixes q).
Proof.
  intros H. apply is_relative_to_prefix in H. destruct H as (rest & ->).
  unfold prefixes. apply in_map_iff. exists (List.length p). split.
  - rewrite firstn_app, Nat.sub_diag, firstn_all. simpl. apply app_nil_r.
  - apply in_seq. rewrite length_app. lia.
Qed.

(** The paths that exist in a sample project without links are its files
    and the directories above them. *)
Lemma sample_paths_listed (files : list Sample.SourceFile)
  (iter : list Path -> list Path) (p : Path) :
  path_exists (Sample.project files [] iter) p = Ok true ->
  In p (flat_map prefixes (map Sample.src_path files)).
Proof.
  simpl. intros H. inversion H as [Hb]. clear H. apply orb_true_iff in Hb.
  apply in_flat_map. destruct Hb as [Hb | Hb].
  - unfold Sample.lookup in Hb.
    destruct (find _ files) as [f |] eqn:E; [| discriminate].
    apply find_some in E. destruct E as (Hin & Heq).
    apply path_eqb_true_iff in Heq. exists (Sample.src_path f). split.
    + apply in_map. assumption.
    + apply In_prefixes. rewrite Heq. apply is_relative_to_refl.
  - unfold Sample.dir_of in Hb. apply existsb_exists in Hb.
    destruct Hb as (f & Hin & Hf). apply andb_true_iff in Hf. destruct Hf as [Hf _].
    exists (Sample.src_path f). split; [apply in_map; assumption |].
    apply In_prefixes. assumption.
Qed.

Lemma cli_graph_is_the_import_closure_witness :
  exists graph,
    Cli.build_dependency_graph (Sample.project Sample.diamond [] Sample.in_order)
      (fun l => l) 10 Sample.app_py Sample.root = Some (Ok graph) /\
    (forall k, In k (keys graph) -> dict_get graph k <> []).
Proof.
  eexists. split; [vm_compute; reflexivity |].
  refine (proj1 (proj2 (cli_graph_is_the_import_closure
                          (Sample.project Sample.diamond [] Sample.in_order)
                          (fun l => l) Sample.root Sample.app_py 10 _ _))).
  vm_compute. reflexivity.
Defined.

Lemma cli_build_fails_iff_a_reachable_file_fails_witness :
  (exists e, Ok [(Sample.a_py, [Sample.b_py]); (Sample.b_py, [Sample.a_py])] = Raise e) <->
  (exists u e,
     cli_reachable (Sample.project Sample.mutual [] Sample.in_order) (fun l => l)
       Sample.root Sample.a_py u /\
     Cli.analyze_imports (Sample.project Sample.mutual [] Sample.in_order) (fun l => l)
       u Sample.root = Raise e).
Proof.
  apply (cli_build_fails_iff_a_reachable_file_fails
           (Sample.project Sample.mutual [] Sample.in_order) (fun l => l)
           Sample.root Sample.a_py 10).
  vm_compute. reflexivity.
Defined.

Lemma cli_build_terminates_witness :
  exists fuel r, forall fuel',
    fuel <= fuel' ->
    Cli.build_dependency_graph (Sample.project Sample.diamond [] Sample.in_order)
      (fun l => l) fuel' Sample.app_py Sample.root = Some r.
Proof.
  apply (cli_build_terminates
           (Sample.project Sample.diamond [] Sample.in_order) (fun l => l)
           Sample.root Sample.app_py
           (flat_map prefixes (map Sample.src_path Sample.diamond))).
  apply sample_paths_listed.
Defined.


(** The text of the root at the start of the text of a path does not place
    the path under the root: the command-line variant takes a file of the
    directory [/w/proj2] for a file of the project [/w/proj] and bundles
    it, where the core, which compares components, records nothing. *)
Example cli_bundles_a_file_beside_the_root :
  Cli.analyze_imports beside (fun l => l) beside_main beside_root
  = Ok [["w"; "proj2"; "x.py"]%string] /\
  is_relative_to ["w"; "proj2"; "x.py"]%string beside_root = false /\
  find_imports beside beside_main beside_root = [].
Proof. split; [| split]; vm_compute; reflexivity. Qed.

(** * Beyond the claims: where the two variants agree *)

Lemma prefix_append (a b : string) : String.prefix a (a +s+ b) = true.
Proof.
  induction a as [| c a IH]; simpl; [destruct b; reflexivity |].
  destruct (ascii_dec c c); [assumption | congruence].
Qed.

Lemma prefix_same (a : string) : String.prefix a a = true.
Proof.
  induction a as [| c a IH]; simpl; [reflexivity |].
  destruct (ascii_dec c c); [assumption | congruence].
Qed.

Lemma join_components_app (xs ys : list string) :
  xs <> [] -> ys <> [] ->
  join_components (xs ++ ys) = join_components xs +s+ "/" +s+ join_components ys.
Proof.
  intros Hx Hy. induction xs as [| x xs IH]; [congruence |].
  destruct xs as [| x' xs].
  - destruct ys as [| y ys]; [congruence |]. reflexivity.
  - change (join_components ((x :: x' :: xs) ++ ys))
      with (x +s+ "/" +s+ join_components ((x' :: xs) ++ ys)).
    rewrite IH by discriminate.
    change (join_components (x :: x' :: xs))
      with (x +s+ "/" +s+ join_components (x' :: xs)).
    rewrite !append_assoc. reflexivity.
Qed.

(** A path under the root has the text of the root at the start of its
    text. *)
Lemma under_root_startswith (p project_root : Path) :
  is_relative_to p project_root = true ->
  Str.startswith (str project_root) (str p) = true.
Proof.
  intros H. apply is_relative_to_prefix in H. destruct H as (rest & ->).
  unfold Str.startswith, str.
  destruct project_root as [| r root]; [apply (prefix_append "/") |].
  destruct rest as [| x rest]; [rewrite app_nil_r; apply prefix_same |].
  rewrite join_components_app by discriminate.
  rewrite <- append_assoc. apply prefix_append.
Qed.

(** X25. The two variants agree on the plain case: for an absolute import
    of a module that is not known to the interpreter, whose file lies below
    the root, is no symbolic link and is not shadowed by a package
    directory of the same name, the core and the command-line variant both
    record that one file, whether the statement is [import m] or
    [from m import ...]. *)
Theorem variants_agree_on_a_plain_module (env : Env)
  (file_path project_root : Path) (m : string) (stmt : ImportStmt) :
  let c := joinstr project_root (Str.replace Str.dot Str.slash m +s+ ".py") in
  stmt = Import [m] \/ stmt = ImportFrom (Some m) 0 ->
  Str.startswith "." m = false ->
  Str.contains Str.slash m = false ->
  last (Str.split Str.dot m) EmptyString <> EmptyString ->
  is_external env project_root m = false ->
  Cli._is_stdlib_module env m = false ->
  is_file env c = Ok true ->
  path_exists env c = Ok true ->
  resolve env c = c ->
  is_dir env (joinstr project_root (Str.replace Str.dot Str.slash m)) = Ok false ->
  Core.visit_stmt env file_path project_root [] stmt = Ok [c] /\
  Cli.import_paths env file_path project_root stmt = Ok [c].
Proof.
  intros c Hstmt Hdot Hslash Hlast Hext Hstd Hfile Hexists Hres Hdir.
  assert (Hroot : is_relative_to c project_root = true).
  { apply is_relative_to_prefix. eexists. reflexivity. }
  assert (Hcore : _resolve_module env file_path project_root m 0 = Ok (Some c)).
  { rewrite _resolve_module_unfold, Hext. cbv zeta.
    change (resolution_base file_path project_root 0) with project_root.
    rewrite (module_file_candidate project_root m Hslash Hlast). fold c.
    cbn [bind]. unfold is_local_file. rewrite Hfile. cbn [bind andb].
    rewrite Hroot. unfold accept, relative_to. rewrite Hres, Hroot. reflexivity. }
  assert (Hcli : Cli.import_path env file_path project_root m = Some c).
  { unfold Cli.import_path, Cli.resolve_module_path. rewrite Hdot, Hdir.
    cbn [bind]. fold c. rewrite Hexists. cbn [bind andb].
    rewrite (under_root_startswith c project_root Hroot). reflexivity. }
  destruct Hstmt as [-> | ->].
  - split.
    + cbn [Core.visit_stmt]. unfold Core.visit_Import. cbn [for_each].
      rewrite Hcore. reflexivity.
    + unfold Cli.import_paths. cbn [Cli.recorded Cli.visit_Import filter].
      rewrite Hstd. cbn [negb bind flat_map]. rewrite Hcli. reflexivity.
  - split.
    + cbn [Core.visit_stmt]. unfold Core.visit_ImportFrom. rewrite Hcore. reflexivity.
    + unfold Cli.import_paths. cbn [Cli.recorded]. unfold Cli.visit_ImportFrom.
      change (0 <? 0) with false. cbv iota. rewrite Hstd.
      cbn [negb bind flat_map]. rewrite Hcli. reflexivity.
Qed.

Lemma variants_agree_on_a_plain_module_witness :
  Core.visit_stmt (Sample.project Sample.diamond [] Sample.in_order)
    Sample.left_py Sample.root [] (Import ["base"%string]) = Ok [Sample.base_py] /\
  Cli.import_paths (Sample.project Sample.diamond [] Sample.in_order)
    Sample.left_py Sample.root (Import ["base"%string]) = Ok [Sample.base_py].
Proof.
  apply (variants_agree_on_a_plain_module
           (Sample.project Sample.diamond [] Sample.in_order)
           Sample.left_py Sample.root "base" (Import ["base"%string])).
  - left. reflexivity.
  - reflexivity.
  - reflexivity.
  - simpl. discriminate.
  - reflexivity.
  - reflexivity.
  - reflexivity.
  - reflexivity.
  - reflexivity.
  - reflexivity.
Defined.
